(** * ExoCTK: the SOSS field simulation and the model grid

    A shallow embedding of

    - [ExoCTK/contam_visibility/sossFieldSim.py]: the function
      [sossFieldSim], which projects the stars of a field onto the
      detector at every position angle and composites their model traces
      into a cube, and
    - [ExoCTK/core.py]: the class [ModelGrid] with its methods [get],
      [grid_interp], [load_flux] and [customize], the class [References]
      with [add], [remove] and [write], and the functions [find_closest]
      and [medfilt].

    Python floats are modelled by exact numbers: real numbers [R] in the
    field simulation (it needs [cos], [sin] and a real power), rationals
    [Q] in the model grid and in [find_closest] (they only compare, add
    and multiply).  Rounding error is not modelled.  [medfilt] only moves
    the elements of its arrays around, takes medians and reflects values
    about a median: there the elements, [np.median] and the reflection
    are parameters.  Python exceptions are results of type [outcome];
    what the code reads from files or from the catalogue service is an
    argument of the embedded function. *)

From Stdlib Require Import ZArith List Bool String Lia Permutation.
From Stdlib Require Import Reals Lra.
From Stdlib Require Import QArith.
Import ListNotations.

Set Implicit Arguments.

(* ================================================================= *)
(** ** Python results, slices and index arithmetic *)

Module Py.

(** The exceptions the modelled code can raise. *)
Inductive exn : Type :=
| ValueError
| IndexError
| TypeError
| AttributeError
| UnboundLocalError
| RecursionError
| IOError.

(** The result of running a piece of Python: a value or an exception. *)
Inductive outcome (A : Type) : Type :=
| Ret (a : A)
| Raise (e : exn).

Arguments Ret {A} a.
Arguments Raise {A} e.

Definition bind {A B : Type} (m : outcome A) (f : A -> outcome B) : outcome B :=
  match m with
  | Ret a => f a
  | Raise e => Raise e
  end.

Definition map_outcome {A B : Type} (f : A -> B) (o : outcome A) : outcome B :=
  match o with
  | Ret a => Ret (f a)
  | Raise e => Raise e
  end.

Definition of_option {A : Type} (e : exn) (o : option A) : outcome A :=
  match o with
  | Some a => Ret a
  | None => Raise e
  end.

(** [for x in l: st = f x st], stopping at the first exception. *)
Fixpoint foldM {A S : Type} (f : A -> S -> outcome S) (l : list A) (s : S)
  : outcome S :=
  match l with
  | [] => Ret s
  | a :: t => bind (f a s) (foldM f t)
  end.

(** [[f x for x in l]], stopping at the first exception. *)
Fixpoint mapM {A B : Type} (f : A -> outcome B) (l : list A) : outcome (list B) :=
  match l with
  | [] => Ret []
  | a :: t => bind (f a) (fun b => bind (mapM f t) (fun bs => Ret (b :: bs)))
  end.

(** [a[i]] for a non-negative index [i] into a list. *)
Definition index {A : Type} (l : list A) (i : nat) : outcome A :=
  of_option IndexError (nth_error l i).

Open Scope Z_scope.

(** The bounds a slice [i:j] selects in a dimension of length [n]: a
    negative bound counts from the end, and both are clipped to [0..n]. *)
Definition slice_bound (n i : Z) : Z :=
  if i <? 0 then Z.max (i + n) 0 else Z.min i n.

Definition slice_start (n i j : Z) : Z := slice_bound n i.

Definition slice_len (n i j : Z) : Z :=
  Z.max 0 (slice_bound n j - slice_bound n i).

(** A scalar index [i] into a dimension of length [n]. *)
Definition scalar_index (n i : Z) : outcome Z :=
  if (0 <=? i) && (i <? n) then Ret i
  else if (- n <=? i) && (i <? 0) then Ret (i + n)
  else Raise IndexError.

(** Broadcasting of one dimension: a source of length [n] fits a
    destination of length [m] when [n = m] or [n = 1]. *)
Definition broadcastable (n m : Z) : bool := (n =? m) || (n =? 1).

Definition bcast_index (n i : Z) : Z := if n =? 1 then 0 else i.

Close Scope Z_scope.

End Py.

Export Py.

Declare Scope py_scope.
Delimit Scope py_scope with py.
Notation "x <- m ;; k" := (Py.bind m (fun x => k))
  (at level 100, m at next level, right associativity) : py_scope.

(* ================================================================= *)
(** ** [sossFieldSim.py] *)

Module SossFieldSim.

Local Open Scope py_scope.

(** *** Arrays

    A numpy array is its shape and its elements.  Elements are read with
    in-range indices only; the slice arithmetic that makes them so is
    part of the model ([view], [store]). *)

Record ndarray2 : Type := {
  rows : Z;
  cols : Z;
  at2 : Z -> Z -> R
}.

Record ndarray3 : Type := {
  dim0 : Z;
  dim1 : Z;
  dim2 : Z;
  at3 : Z -> Z -> Z -> R
}.

(** [np.zeros([n0, n1, n2])] *)
Definition zeros (n0 n1 n2 : Z) : outcome ndarray3 :=
  if (n0 <? 0)%Z || (n1 <? 0)%Z || (n2 <? 0)%Z then Raise ValueError
  else Ret {| dim0 := n0; dim1 := n1; dim2 := n2; at3 := fun _ _ _ => 0%R |}.

(** [a[k, i0:i1, j0:j1]] *)
Definition view (a : ndarray3) (k i0 i1 j0 j1 : Z) : outcome ndarray2 :=
  k' <- scalar_index (dim0 a) k ;;
  Ret {| rows := slice_len (dim1 a) i0 i1;
         cols := slice_len (dim2 a) j0 j1;
         at2 := fun i j =>
                  at3 a k' (slice_start (dim1 a) i0 i1 + i)%Z
                           (slice_start (dim2 a) j0 j1 + j)%Z |}.

(** [v * f] for a scalar [f] *)
Definition scale (v : ndarray2) (f : R) : ndarray2 :=
  {| rows := rows v; cols := cols v; at2 := fun i j => (at2 v i j * f)%R |}.

(** [c[p, i0:i1, j0:j1] = v] when [upd old new = new], and
    [c[p, i0:i1, j0:j1] += v] when [upd old new = old + new]; [v] is
    broadcast to the shape of the destination slice, and a shape that
    does not fit raises [ValueError]. *)
Definition store (upd : R -> R -> R) (c : ndarray3) (p i0 i1 j0 j1 : Z)
    (v : ndarray2) : outcome ndarray3 :=
  p' <- scalar_index (dim0 c) p ;;
  let ys := slice_start (dim1 c) i0 i1 in
  let h := slice_len (dim1 c) i0 i1 in
  let xs := slice_start (dim2 c) j0 j1 in
  let w := slice_len (dim2 c) j0 j1 in
  if broadcastable (rows v) h && broadcastable (cols v) w then
    Ret {| dim0 := dim0 c; dim1 := dim1 c; dim2 := dim2 c;
           at3 := fun q y x =>
             if (q =? p')%Z && (ys <=? y)%Z && (y <? ys + h)%Z
                && (xs <=? x)%Z && (x <? xs + w)%Z
             then upd (at3 c q y x)
                      (at2 v (bcast_index (rows v) (y - ys))
                             (bcast_index (cols v) (x - xs)))
             else at3 c q y x |}
  else Raise ValueError.

Definition assign (old new : R) : R := new.
Definition iadd (old new : R) : R := (old + new)%R.

(** *** Numbers *)

Definition Rleb (a b : R) : bool := if Rle_dec a b then true else false.
Definition Rltb (a b : R) : bool := if Rlt_dec a b then true else false.
Definition Reqb (a b : R) : bool := if Req_dec_T a b then true else false.

(** Python's [round] of a float: the nearest integer, a tie going to the
    even one. *)
Definition round (r : R) : Z :=
  let f := Int_part r in
  let d := (r - IZR f)%R in
  if Rlt_dec d (1 / 2) then f
  else if Rlt_dec (1 / 2) d then (f + 1)%Z
  else if Z.even f then f else (f + 1)%Z.

(** [np.arange(a, b, d)] on integers, for a positive step. *)
Definition arange (a b d : Z) : list Z :=
  map (fun i => (a + Z.of_nat i * d)%Z)
      (seq 0 (Z.to_nat ((b - a + d - 1) / d))).

(** [np.argmin]: the first index of the least element. *)
Fixpoint argmin_from (best_i : nat) (best : R) (i : nat) (l : list R) : nat :=
  match l with
  | [] => best_i
  | x :: t =>
      if Rlt_dec x best then argmin_from i x (S i) t
      else argmin_from best_i best (S i) t
  end.

Definition argmin (l : list R) : outcome nat :=
  match l with
  | [] => Raise ValueError
  | x :: t => Ret (argmin_from 0 x 1 t)
  end.

(** [np.where(l == v)[0][0]]: the first index at which [l] holds [v]. *)
Fixpoint where_first (l : list R) (v : R) : option nat :=
  match l with
  | [] => None
  | a :: t => if Req_dec_T a v then Some 0%nat
              else option_map S (where_first t v)
  end.

(** An operation on two arrays of one length, element by element. *)
Definition zip_with (f : R -> R -> R) (l1 l2 : list R) : list R :=
  map (fun p => f (fst p) (snd p)) (combine l1 l2).

(** The same with numpy's broadcasting of a one-element array. *)
Definition broadcast_with (f : R -> R -> R) (l1 l2 : list R) : outcome (list R) :=
  if (List.length l1 =? List.length l2)%nat then Ret (zip_with f l1 l2)
  else match l1, l2 with
       | [a], _ => Ret (map (fun b => f a b) l2)
       | _, [b] => Ret (map (fun a => f a b) l1)
       | _, _ => Raise ValueError
       end.

(** *** The field: catalogue stars and the optional companion

    [info] is the table the catalogue query returns, [targetRA] and
    [targetDEC] the target's coordinates in degrees, [binComp] the
    optional companion [[deltaRA, deltaDEC, J, H, K]]. *)

Record catalog_row : Type := {
  ra : R;
  dec : R;
  j_m : R;
  h_m : R;
  k_m : R
}.

Record companion : Type := {
  deltaRA : R;
  deltaDEC : R;
  compJ : R;
  compH : R;
  compK : R
}.

Record field : Type := {
  allRA : list R;
  allDEC : list R;
  Jmag : list R;
  Hmag : list R;
  Kmag : list R;
  J_Hobs : list R;
  H_Kobs : list R;
  targetIndex : nat
}.

Definition deg2rad : R := PI / 180.

(** Lines 23-47 of [sossFieldSim]. *)
Definition read_field (targetRA targetDEC : R) (info : list catalog_row)
    (binComp : option companion) : outcome field :=
  let allRA0 := map ra info in
  let allDEC0 := map dec info in
  let Jmag0 := map j_m info in
  let Hmag0 := map h_m info in
  let Kmag0 := map k_m info in
  let J_Hobs0 := zip_with Rminus Jmag0 Hmag0 in
  let H_Kobs0 := zip_with Rminus Hmag0 Kmag0 in
  let distance :=
    zip_with (fun a d => sqrt (((targetRA - a) * cos targetDEC) ^ 2
                               + (targetDEC - d) ^ 2))
             allRA0 allDEC0 in
  targetIndex0 <- argmin distance ;;
  match binComp with
  | None =>
      Ret {| allRA := allRA0; allDEC := allDEC0; Jmag := Jmag0;
             Hmag := Hmag0; Kmag := Kmag0;
             J_Hobs := J_Hobs0; H_Kobs := H_Kobs0;
             targetIndex := targetIndex0 |}
  | Some b =>
      raT <- index allRA0 targetIndex0 ;;
      decT <- index allDEC0 targetIndex0 ;;
      let allRA1 := allRA0 ++ [raT + deltaRA b / 3600 / cos (decT * deg2rad)] in
      let allDEC1 := allDEC0 ++ [decT + deltaDEC b / 3600] in
      let Jmag1 := Jmag0 ++ [compJ b] in
      let Hmag1 := Kmag0 ++ [compH b] in
      let Kmag1 := Kmag0 ++ [compK b] in
      Ret {| allRA := allRA1; allDEC := allDEC1; Jmag := Jmag1;
             Hmag := Hmag1; Kmag := Kmag1;
             J_Hobs := zip_with Rminus Jmag1 Hmag1;
             H_Kobs := zip_with Rminus Hmag1 Kmag1;
             targetIndex := targetIndex0 |}
  end%R.

(** *** The model parameters ([modelsInfo.sav]) and the colour table *)

Record modelParam : Type := {
  models : ndarray3;
  modelPadX : Z;
  modelPadY : Z;
  dimXmod : Z;
  dimYmod : Z;
  jhMod : list R;
  hkMod : list R;
  teffMod : list R
}.

(** Line 69: the squared colour distance to every entry of the table. *)
Definition color_separation (mp : modelParam) (jh hk : R) : outcome (list R) :=
  broadcast_with Rplus (map (fun m => ((jh - m) ^ 2)%R) (jhMod mp))
                       (map (fun m => ((hk - m) ^ 2)%R) (hkMod mp)).

(** Lines 69-71: the temperature assigned to one star. *)
Definition assign_Teff (mp : modelParam) (jh hk : R) : outcome R :=
  sep <- color_separation mp jh hk ;;
  min_separation_ind <- argmin sep ;;
  index (teffMod mp) min_separation_ind.

(** Lines 67-71. *)
Definition assign_all_Teff (mp : modelParam) (f : field) (nStars : nat)
  : outcome (list R) :=
  mapM (fun j =>
          jh <- index (J_Hobs f) j ;;
          hk <- index (H_Kobs f) j ;;
          assign_Teff mp jh hk)
       (seq 0 nStars).

(** *** Stars and their projection *)

Record star : Type := {
  RA : R;
  DEC : R;
  dRA : R;
  dDEC : R;
  jmag : R;
  T : R;
  x : R;
  y : R;
  dx : R;
  dy : R
}.

Record sweet_spot : Type := {
  sweet_x : R;
  sweet_y : R;
  sweet_RA : R;
  sweet_DEC : R;
  sweet_jmag : R
}.

Definition radeg : R := 180 / PI.
Definition niriss_pixel_scale : R := 65 / 1000.

(** Lines 108-111, for one element of the structured array. *)
Definition project (sweetSpot : sweet_spot) (APA : R) (s : star) : star :=
  let dx' := ((cos (PI / 2 + APA / radeg) * dRA s
               - sin (PI / 2 + APA / radeg) * dDEC s) / niriss_pixel_scale)%R in
  let dy' := ((sin (PI / 2 + APA / radeg) * dRA s
               + cos (PI / 2 + APA / radeg) * dDEC s) / niriss_pixel_scale)%R in
  {| RA := RA s; DEC := DEC s; dRA := dRA s; dDEC := dDEC s;
     jmag := jmag s; T := T s;
     x := (dx' + sweet_x sweetSpot)%R; y := (dy' + sweet_y sweetSpot)%R;
     dx := dx'; dy := dy' |}.

(** Line 151: the stars within the direct-image field of view. *)
Definition in_FOV (s : star) : bool :=
  Rleb (-162) (x s) && Rleb (x s) (2047 + 185)
  && Rleb (-154) (y s) && Rleb (y s) (2047 + 174).

(** *** The overlap window (lines 165-180)

    [mx0:mx1] and [my0:my1] select the part of the model array that
    falls on the output frame, [x0] and [y0] are where that part starts
    in the frame.  [None] is [continue]: the star is skipped. *)

Record window : Type := {
  x0 : Z;
  y0 : Z;
  mx0 : Z;
  mx1 : Z;
  my0 : Z;
  my1 : Z
}.

Definition subsection (mp : modelParam) (dimX dimY intx inty : Z)
  : option window :=
  let mx0 := (modelPadX mp - intx)%Z in
  let mx1 := (modelPadX mp - intx + dimX)%Z in
  let my0 := (modelPadY mp - inty)%Z in
  let my1 := (modelPadY mp - inty + dimY)%Z in
  if (mx0 >? dimXmod mp)%Z || (my0 >? dimYmod mp)%Z then None
  else if (mx1 <? 0)%Z || (my1 <? 0)%Z then None
  else
    let x0 := (Z.b2z (mx0 <? 0) * (- mx0))%Z in
    let y0 := (Z.b2z (my0 <? 0) * (- my0))%Z in
    let mx0 := (mx0 * Z.b2z (mx0 >=? 0))%Z in
    let mx1 := if (mx1 >? dimXmod mp)%Z then dimXmod mp else mx1 in
    let my0 := (my0 * Z.b2z (my0 >=? 0))%Z in
    let my1 := if (my1 >? dimYmod mp)%Z then dimYmod mp else my1 in
    Some {| x0 := x0; y0 := y0; mx0 := mx0; mx1 := mx1;
            my0 := my0; my1 := my1 |}.

(** *** The state of the big loop

    [stars] is the structured array, [simuCube] the output cube.
    [writes] is the history of the statements that stored into the cube,
    oldest first: which plane, at which angle index, for which star. *)

Inductive write_kind : Type :=
| Assigned   (* [simuCube[...] = ...] *)
| Added.     (* [simuCube[...] += ...] *)

Record cube_write : Type := {
  w_kind : write_kind;
  w_plane : Z;
  w_kPA : nat;
  w_star : star
}.

Record sim : Type := {
  stars : list star;
  simuCube : ndarray3;
  writes : list cube_write
}.

Definition fluxscale_of (sweetSpot : sweet_spot) (s : star) : R :=
  Rpower 10 (- (4 / 10) * (jmag s - sweet_jmag sweetSpot)).

(** Lines 155-190: the body of the loop over the stars in the field. *)
Definition star_step (mp : modelParam) (saveFiles : list ndarray3)
    (sweetSpot : sweet_spot) (dimX dimY : Z) (kPA : nat) (s : star) (st : sim)
  : outcome sim :=
  let intx := round (dx s) in
  let inty := round (dy s) in
  k <- of_option IndexError (where_first (teffMod mp) (T s)) ;;
  let fluxscale := fluxscale_of sweetSpot s in
  match subsection mp dimX dimY intx inty with
  | None => Ret st
  | Some w =>
      let ys := (y0 w + my1 w - my0 w)%Z in
      let xs := (x0 w + mx1 w - mx0 w)%Z in
      st1 <- (if (intx =? 0)%Z && (inty =? 0)%Z && (kPA =? 0)%nat then
                modelO12 <- index saveFiles k ;;
                v0 <- view modelO12 0 (my0 w) (my1 w) (mx0 w) (mx1 w) ;;
                c0 <- store assign (simuCube st) 0 (y0 w) ys (x0 w) xs
                        (scale v0 fluxscale) ;;
                v1 <- view modelO12 1 (my0 w) (my1 w) (mx0 w) (mx1 w) ;;
                c1 <- store assign c0 1 (y0 w) ys (x0 w) xs
                        (scale v1 fluxscale) ;;
                Ret {| stars := stars st; simuCube := c1;
                       writes := writes st
                         ++ [ {| w_kind := Assigned; w_plane := 0;
                                 w_kPA := kPA; w_star := s |};
                              {| w_kind := Assigned; w_plane := 1;
                                 w_kPA := kPA; w_star := s |} ] |}
              else Ret st) ;;
      if negb (intx =? 0)%Z || negb (inty =? 0)%Z then
        v <- view (models mp) (Z.of_nat k) (my0 w) (my1 w) (mx0 w) (mx1 w) ;;
        c <- store iadd (simuCube st1) (Z.of_nat kPA + 2) (y0 w) ys (x0 w) xs
               (scale v fluxscale) ;;
        Ret {| stars := stars st1; simuCube := c;
               writes := writes st1
                 ++ [ {| w_kind := Added; w_plane := Z.of_nat kPA + 2;
                         w_kPA := kPA; w_star := s |} ] |}
      else Ret st1
  end.

(** Lines 105-190: one pass of the big loop, at angle index [kPA] and
    position angle [APA]. *)
Definition angle_step (mp : modelParam) (saveFiles : list ndarray3)
    (sweetSpot : sweet_spot) (dimX dimY : Z) (kPA : nat) (APA : Z) (st : sim)
  : outcome sim :=
  let stars1 := map (project sweetSpot (IZR APA)) (stars st) in
  let starsInFOV := filter in_FOV stars1 in
  foldM (star_step mp saveFiles sweetSpot dimX dimY kPA) starsInFOV
        {| stars := stars1; simuCube := simuCube st; writes := writes st |}.

(** Lines 104-190: the big loop over [range(PAtab.size)]. *)
Definition sweep (mp : modelParam) (saveFiles : list ndarray3)
    (sweetSpot : sweet_spot) (dimX dimY : Z) (PAtab : list Z)
    (kPAs : list nat) (st : sim) : outcome sim :=
  foldM (fun kPA st =>
           APA <- index PAtab kPA ;;
           angle_step mp saveFiles sweetSpot dimX dimY kPA APA st)
        kPAs st.

Definition PAmin : Z := 0.
Definition PAmax : Z := 360.
Definition dPA : Z := 1.
Definition dimY : Z := 2048.

(** Lines 82-85: the structured array, one record per star.  The fields
    [x], [y], [dx], [dy] come from [np.empty] and are written at every
    angle before they are read. *)
Definition build_stars (f : field) (dRA dDEC starsT : list R) (nStars : nat)
  : list star :=
  map (fun j =>
         {| RA := nth j (allRA f) 0%R; DEC := nth j (allDEC f) 0%R;
            dRA := nth j dRA 0%R; dDEC := nth j dDEC 0%R;
            jmag := nth j (Jmag f) 0%R; T := nth j starsT 0%R;
            x := 0%R; y := 0%R; dx := 0%R; dy := 0%R |})
      (seq 0 nStars).

Definition PAtab : list Z := arange PAmin PAmax dPA.
Definition nPA : nat := List.length PAtab.

(** Lines 18-97: everything before the big loop.  The result is the
    index of the target, the sweet spot and the state the loop starts
    in. *)
Definition setup (targetRA targetDEC : R) (info : list catalog_row)
    (binComp : option companion) (dimX : Z) (mp : modelParam)
  : outcome (nat * sweet_spot * sim) :=
  f <- read_field targetRA targetDEC info binComp ;;
  let nStars := List.length (allRA f) in
  raT <- index (allRA f) (targetIndex f) ;;
  decT <- index (allDEC f) (targetIndex f) ;;
  starsT <- assign_all_Teff mp f nStars ;;
  jT <- index (Jmag f) (targetIndex f) ;;
  let sweetSpot := {| sweet_x := 856; sweet_y := 107; sweet_RA := raT;
                      sweet_DEC := decT; sweet_jmag := jT |} in
  let dRA := map (fun a => ((a - raT) * cos (decT / radeg) * 3600)%R)
                 (allRA f) in
  let dDEC := map (fun d => ((d - decT) * 3600)%R) (allDEC f) in
  let stars0 := build_stars f dRA dDEC starsT nStars in
  cube <- zeros (Z.of_nat nPA + 2) dimY dimX ;;
  Ret (targetIndex f, sweetSpot,
       {| stars := stars0; simuCube := cube; writes := [] |}).

(** The function itself.  [files] holds, in the order of [glob], the
    [modelo12] array of every save file of the directory. *)
Definition sossFieldSim (targetRA targetDEC : R) (info : list catalog_row)
    (binComp : option companion) (dimX : Z)
    (mp : modelParam) (files : list ndarray3) : outcome sim :=
  p <- setup targetRA targetDEC info binComp dimX mp ;;
  let saveFiles := removelast files in
  sweep mp saveFiles (snd (fst p)) dimX dimY PAtab (seq 0 nPA) (snd p).

End SossFieldSim.

(* ================================================================= *)
(** ** [core.py]: the class [ModelGrid] *)

Module Core.

Local Open Scope Q_scope.

(** *** The data *)

(** A row of the table [self.data]: the three parameters of a grid point
    and the file that holds its spectrum. *)
Record row : Type := {
  Teff : Q;
  logg : Q;
  FeH : Q;
  filename : string
}.

(** The flux arrays of all grid points, [self.array], of shape
    [(Teff, logg, FeH, mu, wavelength)]. *)
Record tensor : Type := {
  shape5 : nat * nat * nat * nat * nat;
  cell : nat -> nat -> nat -> list (list Q)
}.

(** An instance whose [__init__] ran to its end.  [array] is [None] while
    the attribute still holds the string it is created with;
    [wavelength] is [None] until [load_flux] sets the attribute;
    [CRVAL1] is [None] when the header keyword holds ['-']. *)
Record ModelGrid : Type := {
  path : string;
  wave_rng : Q * Q;
  n_bins : Q;
  array : option tensor;
  wavelength : option (list Q);
  data : list row;
  Teff_rng : Q * Q;
  logg_rng : Q * Q;
  FeH_rng : Q * Q;
  Teff_vals : list Q;
  logg_vals : list Q;
  FeH_vals : list Q;
  CRVAL1 : option Q;
  CDELT1 : Q
}.

(** A model file: the primary array, the [mu] extension and the
    wavelength extension. *)
Record fits_file : Type := {
  raw_flux : list (list Q);
  mu_ext : list Q;
  wave_ext : list Q
}.

(** What [get] returns for a grid point: the columns of its row and the
    arrays [wave], [flux], [mu]. *)
Record spec_dict : Type := {
  sd_row : row;
  sd_wave : list Q;
  sd_flux : list (list Q);
  sd_mu : list Q
}.

(** What [grid_interp] returns. *)
Record grid_point : Type := {
  gp_Teff : Q;
  gp_logg : Q;
  gp_FeH : Q;
  gp_flux : list (list Q);
  gp_wave : list Q
}.

Inductive model : Type :=
| OnGrid (d : spec_dict)
| Interpolated (p : grid_point).

(** The lines the methods print. *)
Inductive message : Type :=
| MsgNotInGrid (Teff logg FeH : Q)
| MsgLoadingFlux
| MsgAlreadyLoaded
| MsgSummary (kept total : nat)
| MsgWouldLeaveZero
| MsgNotUpdated.

(** The object, the files read so far and the lines printed so far. *)
Record world : Type := {
  self : ModelGrid;
  loads : list string;
  stdout : list message
}.

(** *** Statements: state and exceptions *)

Definition M (A : Type) : Type := world -> outcome A * world.

Definition ret {A : Type} (a : A) : M A := fun w => (Ret a, w).
Definition raise {A : Type} (e : exn) : M A := fun w => (Raise e, w).

Definition mbind {A B : Type} (m : M A) (f : A -> M B) : M B :=
  fun w => match m w with
           | (Ret a, w') => f a w'
           | (Raise e, w') => (Raise e, w')
           end.

(** [try: m  except: pass] *)
Definition try_pass (m : M unit) : M unit :=
  fun w => match m w with
           | (Ret a, w') => (Ret a, w')
           | (Raise _, w') => (Ret tt, w')
           end.

Definition get_self : M ModelGrid := fun w => (Ret (self w), w).

Definition set_self (g : ModelGrid) : M unit :=
  fun w => (Ret tt, {| self := g; loads := loads w; stdout := stdout w |}).

Definition print (m : message) : M unit :=
  fun w => (Ret tt, {| self := self w; loads := loads w;
                       stdout := stdout w ++ [m] |}).

Definition lift {A : Type} (o : outcome A) : M A := fun w => (o, w).

Fixpoint for_each {A : Type} (l : list A) (body : A -> M unit) : M unit :=
  match l with
  | [] => ret tt
  | a :: t => mbind (body a) (fun _ => for_each t body)
  end.

Declare Scope stmt_scope.
Notation "x <~ m ;; k" := (mbind m (fun x => k))
  (at level 100, m at next level, right associativity) : stmt_scope.
Notation "m ;;; k" := (mbind m (fun _ => k))
  (at level 100, right associativity) : stmt_scope.
Local Open Scope stmt_scope.

(** *** Helpers on columns *)

Definition Qlt_bool (a b : Q) : bool := negb (Qle_bool b a).

(** Python's [min] and [max] of a sequence: the first least (greatest)
    element, [ValueError] on an empty one. *)
Definition py_min (l : list Q) : outcome Q :=
  match l with
  | [] => Raise ValueError
  | a :: t => Ret (fold_left (fun m v => if Qlt_bool v m then v else m) t a)
  end.

Definition py_max (l : list Q) : outcome Q :=
  match l with
  | [] => Raise ValueError
  | a :: t => Ret (fold_left (fun m v => if Qlt_bool m v then v else m) t a)
  end.

(** [np.unique]: the distinct values in increasing order. *)
Fixpoint insert_unique (v : Q) (l : list Q) : list Q :=
  match l with
  | [] => [v]
  | a :: t => if Qeq_bool v a then l
              else if Qle_bool v a then v :: l
              else a :: insert_unique v t
  end.

Definition unique (l : list Q) : list Q :=
  fold_left (fun acc v => insert_unique v acc) l [].

Definition in_range (rng : Q * Q) (v : Q) : bool :=
  Qle_bool (fst rng) v && Qle_bool v (snd rng).

(** Lines 426-431 of [get]. *)
Definition in_grid (g : ModelGrid) (T l F : Q) : bool :=
  in_range (Teff_rng g) T && in_range (logg_rng g) l && in_range (FeH_rng g) F.

(** The mask [(data['Teff']==Teff) & (data['logg']==logg) & (data['FeH']==FeH)]. *)
Definition matches (T l F : Q) (r : row) : bool :=
  Qeq_bool (Teff r) T && Qeq_bool (logg r) l && Qeq_bool (FeH r) F.

(** Attribute assignments. *)
Definition with_data (g : ModelGrid) (d : list row) : ModelGrid :=
  {| path := path g; wave_rng := wave_rng g; n_bins := n_bins g;
     array := array g; wavelength := wavelength g; data := d;
     Teff_rng := Teff_rng g; logg_rng := logg_rng g; FeH_rng := FeH_rng g;
     Teff_vals := Teff_vals g; logg_vals := logg_vals g;
     FeH_vals := FeH_vals g; CRVAL1 := CRVAL1 g; CDELT1 := CDELT1 g |}.

Definition with_wave (g : ModelGrid) (wr : Q * Q) (nb : Q) : ModelGrid :=
  {| path := path g; wave_rng := wr; n_bins := nb;
     array := array g; wavelength := wavelength g; data := data g;
     Teff_rng := Teff_rng g; logg_rng := logg_rng g; FeH_rng := FeH_rng g;
     Teff_vals := Teff_vals g; logg_vals := logg_vals g;
     FeH_vals := FeH_vals g; CRVAL1 := CRVAL1 g; CDELT1 := CDELT1 g |}.

Definition with_ranges (g : ModelGrid) (tr lr fr : Q * Q) (tv lv fv : list Q)
  : ModelGrid :=
  {| path := path g; wave_rng := wave_rng g; n_bins := n_bins g;
     array := array g; wavelength := wavelength g; data := data g;
     Teff_rng := tr; logg_rng := lr; FeH_rng := fr;
     Teff_vals := tv; logg_vals := lv; FeH_vals := fv;
     CRVAL1 := CRVAL1 g; CDELT1 := CDELT1 g |}.

Definition with_array (g : ModelGrid) (a : option tensor) : ModelGrid :=
  {| path := path g; wave_rng := wave_rng g; n_bins := n_bins g;
     array := a; wavelength := wavelength g; data := data g;
     Teff_rng := Teff_rng g; logg_rng := logg_rng g; FeH_rng := FeH_rng g;
     Teff_vals := Teff_vals g; logg_vals := logg_vals g;
     FeH_vals := FeH_vals g; CRVAL1 := CRVAL1 g; CDELT1 := CDELT1 g |}.

Definition with_wavelength (g : ModelGrid) (wl : list Q) : ModelGrid :=
  {| path := path g; wave_rng := wave_rng g; n_bins := n_bins g;
     array := array g; wavelength := Some wl; data := data g;
     Teff_rng := Teff_rng g; logg_rng := logg_rng g; FeH_rng := FeH_rng g;
     Teff_vals := Teff_vals g; logg_vals := logg_vals g;
     FeH_vals := FeH_vals g; CRVAL1 := CRVAL1 g; CDELT1 := CDELT1 g |}.

(** *** [customize] (lines 616-674)

    The argument [n_bins] is [None] for the default [''] . *)
Definition customize (Teff_rng logg_rng FeH_rng wave_rng : Q * Q)
    (n_bins : option Q) : M unit :=
  g <~ get_self ;;
  let grid := data g in
  let nb := match n_bins with
            | Some q => if Qeq_bool q 0 then Core.n_bins g else q
            | None => Core.n_bins g
            end in
  set_self (with_wave g wave_rng nb) ;;;
  let cut := filter (fun r => in_range Teff_rng (Teff r)
                              && in_range logg_rng (logg r)
                              && in_range FeH_rng (FeH r)) grid in
  g <~ get_self ;;
  set_self (with_data g cut) ;;;
  print (MsgSummary (List.length cut) (List.length grid)) ;;;
  (if (List.length cut =? 0)%nat then
     g <~ get_self ;;
     set_self (with_data g grid) ;;;
     print MsgWouldLeaveZero ;;;
     print MsgNotUpdated
   else ret tt) ;;;
  g <~ get_self ;;
  tmin <~ lift (py_min (map Teff (data g))) ;;
  tmax <~ lift (py_max (map Teff (data g))) ;;
  lmin <~ lift (py_min (map logg (data g))) ;;
  lmax <~ lift (py_max (map logg (data g))) ;;
  fmin <~ lift (py_min (map FeH (data g))) ;;
  fmax <~ lift (py_max (map FeH (data g))) ;;
  set_self (with_ranges g (tmin, tmax) (lmin, lmax) (fmin, fmax)
              (unique (map Teff (data g))) (unique (map logg (data g)))
              (unique (map FeH (data g)))).

(** *** [get], [grid_interp] and [load_flux]

    [disk] is the directory of model files: what [fits.getdata] finds
    under a file path. *)

Section Methods.

Variable disk : string -> option fits_file.

(** [fits.getdata(filepath, ext)]: one read of the file. *)
Definition getdata (filepath : string) : M fits_file :=
  fun w =>
    let w' := {| self := self w; loads := loads w ++ [filepath];
                 stdout := stdout w |} in
    match disk filepath with
    | Some f => (Ret f, w')
    | None => (Raise IOError, w')
    end.

(** The indices [np.where(cond)] selects. *)
Definition where_idx (cond : Q -> bool) (l : list Q) : list nat :=
  map fst (filter (fun p => cond (snd p)) (combine (seq 0 (List.length l)) l)).

(** [a[idx]] for an index array [idx]. *)
Definition take_idx (a : list Q) (idx : list nat) : outcome (list Q) :=
  mapM (index a) idx.

(** Lines 425-497 of [get], with the method it calls as an argument.
    The result [None] is the bare [return] of line 497. *)
Definition get_body (grid_interp : Q -> Q -> Q -> M grid_point)
    (T l F : Q) : M (option model) :=
  g <~ get_self ;;
  if in_grid g T l F then
    if existsb (matches T l F) (data g) then
      match filter (matches T l F) (data g) with
      | [r] =>
          let filepath := (path g ++ filename r)%string in
          f0 <~ getdata filepath ;;
          f1 <~ getdata filepath ;;
          raw_wave <~ match CRVAL1 g with
                      | None => f2 <~ getdata filepath ;; ret (wave_ext f2)
                      | Some c =>
                          row0 <~ lift (index (raw_flux f0) 0) ;;
                          ret (map (fun i => c + CDELT1 g * inject_Z (Z.of_nat i))
                                   (seq 0 (List.length row0)))
                      end ;;
          let raw_wave := map (fun v => v * (1 # 10000)) raw_wave in
          let idx := where_idx (in_range (wave_rng g)) raw_wave in
          flux <~ lift (mapM (fun fr => take_idx fr idx) (raw_flux f0)) ;;
          wave <~ lift (take_idx raw_wave idx) ;;
          ret (Some (OnGrid {| sd_row := r; sd_wave := wave;
                               sd_flux := flux; sd_mu := mu_ext f1 |}))
      | _ => raise ValueError
      end
    else
      p <~ grid_interp T l F ;;
      ret (Some (Interpolated p))
  else
    print (MsgNotInGrid T l F) ;;;
    ret None.

(** Lines 522-575 of [grid_interp].  Line 542 reads the local variable
    [new_flux], which is first assigned on line 546: the statement
    raises [UnboundLocalError], and nothing after it runs. *)
Definition grid_interp_body (load_flux : M unit) (T l F : Q) : M grid_point :=
  g <~ get_self ;;
  (match array g with
   | None => print MsgLoadingFlux ;;; load_flux
   | Some _ => ret tt
   end) ;;;
  g <~ get_self ;;
  match array g with
  | None => raise AttributeError
  | Some flux =>
      let pv := filter (fun p => (1 <? List.length (fst p))%nat)
                       [(Teff_vals g, T); (logg_vals g, l); (FeH_vals g, F)] in
      let params := map fst pv in
      let values := map snd pv in
      raise UnboundLocalError
  end.

Definition flux_of (m : model) : list (list Q) :=
  match m with
  | OnGrid d => sd_flux d
  | Interpolated p => gp_flux p
  end.

Definition wave_of (m : model) : list Q :=
  match m with
  | OnGrid d => sd_wave d
  | Interpolated p => gp_wave p
  end.

Definition shape2 (a : list (list Q)) : nat * nat :=
  (List.length a, List.length (hd [] a)).

Definition zero_cell (h w : nat) : list (list Q) := repeat (repeat 0 w) h.

(** [array[nt, ng, nm] = flux], with numpy's broadcasting. *)
Definition set_cell (a : tensor) (nt ng nm : nat) (flux : list (list Q))
  : outcome tensor :=
  let '(_, _, _, h, w) := shape5 a in
  let '(fh, fw) := shape2 flux in
  if ((fh =? h) || (fh =? 1))%nat && ((fw =? w) || (fw =? 1))%nat then
    let v := map (fun i =>
                    map (fun j =>
                           nth (if (fw =? 1)%nat then O else j)
                               (nth (if (fh =? 1)%nat then O else i) flux []) 0)
                        (seq 0 w))
                 (seq 0 h) in
    Ret {| shape5 := shape5 a;
           cell := fun t g m =>
                     if ((t =? nt) && (g =? ng) && (m =? nm))%nat then v
                     else cell a t g m |}
  else Raise ValueError.

Definition enumerate {A : Type} (l : list A) : list (nat * A) :=
  combine (seq 0 (List.length l)) l.

(** Lines 583-614 of [load_flux], with the method it calls as an
    argument. *)
Definition load_flux_body (get : Q -> Q -> Q -> M (option model)) : M unit :=
  g <~ get_self ;;
  match array g with
  | Some _ => print MsgAlreadyLoaded
  | None =>
      let Tv := Teff_vals g in
      let Gv := logg_vals g in
      let Mv := FeH_vals g in
      for_each (enumerate Tv) (fun '(nt, teff) =>
      for_each (enumerate Gv) (fun '(ng, logg) =>
      for_each (enumerate Mv) (fun '(nm, feh) =>
        try_pass (
          spec <~ get teff logg feh ;;
          match spec with
          | None => raise TypeError
          | Some m =>
              let flux := flux_of m in
              g1 <~ get_self ;;
              (match array g1 with
               | None =>
                   set_self (with_array g1
                     (Some {| shape5 := (List.length Tv, List.length Gv,
                                         List.length Mv,
                                         fst (shape2 flux), snd (shape2 flux));
                              cell := fun _ _ _ =>
                                zero_cell (fst (shape2 flux))
                                          (snd (shape2 flux)) |}))
               | Some _ => ret tt
               end) ;;;
              g2 <~ get_self ;;
              match array g2 with
              | None => raise TypeError
              | Some a =>
                  a' <~ lift (set_cell a nt ng nm flux) ;;
                  set_self (with_array g2 (Some a')) ;;;
                  g3 <~ get_self ;;
                  set_self (with_wavelength g3 (wave_of m))
              end
          end))))
  end.

(** The three methods call each other; [depth] is the number of nested
    calls of [load_flux] the interpreter still allows before it raises
    [RecursionError]. *)
Fixpoint load_flux (depth : nat) : M unit :=
  match depth with
  | O => raise RecursionError
  | S d => load_flux_body (get_body (grid_interp_body (load_flux d)))
  end.

Definition grid_interp (depth : nat) : Q -> Q -> Q -> M grid_point :=
  grid_interp_body (load_flux depth).

Definition get (depth : nat) : Q -> Q -> Q -> M (option model) :=
  get_body (grid_interp depth).

End Methods.

End Core.

(* ================================================================= *)
(** ** [core.py]: the class [References] *)

Module Refs.
Import Py.
Local Open Scope string_scope.

(** An entry of the parsed bibtex database: its key ['ID'] and its
    other fields. *)
Record entry : Type := {
  ID : string;
  fields : list (string * string)
}.

(** The attributes [__init__] (lines 752-776) sets. *)
Record References : Type := {
  bibfile : string;
  refs : list string;
  database : list entry;
  bibcodes : list string
}.

(** The lines the methods print. *)
Inductive line : Type :=
| Added (bibcode : string)
| NotInBibfile (bibcode bibfile : string)
| TryAgain
| Removed (bibcode : string).

(** [x in l] on a list of strings. *)
Definition mem (x : string) (l : list string) : bool :=
  existsb (String.eqb x) l.

(** [s.endswith(suffix)] *)
Definition endswith (s suffix : string) : bool :=
  (String.length suffix <=? String.length s)%nat
  && String.eqb (substring (String.length s - String.length suffix)
                           (String.length suffix) s)
                suffix.

Section Files.

(** [files] gives the entries [bibtexparser] loads from the file at a
    path, where there is one; [default] is the bibtex file of the
    package. *)
Variable files : string -> option (list entry).
Variable default : string.

(** [__init__] (lines 752-776) *)
Definition init (bibfile : string) : outcome References :=
  let bibfile := if String.eqb bibfile "" then default else bibfile in
  match files bibfile with
  | None => Raise IOError
  | Some entries =>
      Ret {| bibfile := bibfile; refs := []; database := entries;
             bibcodes := map ID entries |}
  end.

End Files.

(** [add] (lines 778-796): the object afterwards and the lines printed. *)
Definition add (self : References) (bibcode : string)
  : References * list line :=
  if mem bibcode (bibcodes self) then
    ({| bibfile := bibfile self; refs := refs self ++ [bibcode];
        database := database self; bibcodes := bibcodes self |},
     [Added bibcode])
  else
    (self, [NotInBibfile bibcode (bibfile self); TryAgain]).

(** [remove] (lines 798-815) *)
Definition remove (self : References) (bibcode : string)
  : References * list line :=
  if mem bibcode (bibcodes self) then
    ({| bibfile := bibfile self;
        refs := filter (fun r => negb (String.eqb r bibcode)) (refs self);
        database := database self; bibcodes := bibcodes self |},
     [Removed bibcode])
  else
    (self, [NotInBibfile bibcode (bibfile self)]).

(** [list(set(l))]: the distinct elements of [l]; Python fixes no order,
    and [write] only tests membership in it. *)
Definition list_set (l : list string) : list string := nodup string_dec l.

(** [write] (lines 817-840) up to the call of the writer: the path of
    the file it opens and the entries of the database it hands to
    [BibTexWriter]. *)
Definition write (self : References) (filepath : string)
  : string * list entry :=
  let bibfile := if endswith filepath ".bib" then filepath
                 else filepath ++ "biblio.bib" in
  let final := filter (fun d => mem (ID d) (list_set (refs self)))
                      (database self) in
  (bibfile, final).

End Refs.

(* ================================================================= *)
(** ** [core.py]: the function [find_closest] *)

Module Closest.
Import Py Core.
Local Open Scope Z_scope.




(** [l[i:j]] *)
Definition slice {A : Type} (l : list A) (i j : Z) : list A :=
  let n := Z.of_nat (List.length l) in
  firstn (Z.to_nat (slice_len n i j)) (skipn (Z.to_nat (slice_start n i j)) l).


(** The line printed for a point outside its axis. *)
Inductive line : Type :=
| OutsideGrid (point : Q).




End Closest.

(* ================================================================= *)
(** ** [core.py]: the function [medfilt] *)

Module Medfilt.
Import Py Closest.
Local Open Scope Z_scope.
Local Open Scope py_scope.

(** [l[start:stop:-1]]: the elements from [start] down to [stop],
    [stop] excluded, with Python's adjustment of the two bounds for a
    negative step. *)
Definition rev_bound (n i : Z) : Z :=
  if i <? 0 then (if i + n <? 0 then -1 else i + n)
  else (if n <=? i then n - 1 else i).

Definition rev_slice {A : Type} (l : list A) (start stop : Z) : list A :=
  let n := Z.of_nat (List.length l) in
  let a := rev_bound n start in
  let b := rev_bound n stop in
  rev (firstn (Z.to_nat (a - b)) (skipn (Z.to_nat (b + 1)) l)).

(** [l[i]] *)
Definition item {A : Type} (l : list A) (i : Z) : outcome A :=
  (k <- scalar_index (Z.of_nat (List.length l)) i ;;
   of_option IndexError (nth_error l (Z.to_nat k)))%py.

(** The line printed for an even window. *)
Inductive line : Type :=
| MustBeOdd (window_len : Z).

Section Signal.

(** The elements of the arrays are floats; the filter only moves them
    around, takes medians and reflects values about a median.  [zero] is
    the [0.] of [np.zeros], [median] is [np.median] of a 1-D array and
    [reflect m v] is [2*m - v]. *)
Variable T : Type.
Variable zero : T.
Variable median : list T -> T.
Variable reflect : T -> T -> T.

(** A 2-D array. *)
Record matrix : Type := {
  nrows : Z;
  ncols : Z;
  cellz : Z -> Z -> T
}.

(** [np.zeros((n, m))] *)
Definition zeros (n m : Z) : outcome matrix :=
  if (n <? 0) || (m <? 0) then Raise ValueError
  else Ret {| nrows := n; ncols := m; cellz := fun _ _ => zero |}.

(** [y[i:j, c] = vs] for a 1-D array [vs], with numpy's broadcasting. *)
Definition set_col (y : matrix) (i j c : Z) (vs : list T) : outcome matrix :=
  let a := slice_start (nrows y) i j in
  let n := slice_len (nrows y) i j in
  c' <- scalar_index (ncols y) c ;;
  if broadcastable (Z.of_nat (List.length vs)) n then
    Ret {| nrows := nrows y; ncols := ncols y;
           cellz := fun r k =>
             if (k =? c') && (a <=? r) && (r <? a + n) then
               nth (Z.to_nat (bcast_index (Z.of_nat (List.length vs)) (r - a)))
                   vs zero
             else cellz y r k |}
  else Raise ValueError.

(** The row [y[r]]. *)
Definition row_of (y : matrix) (r : Z) : list T :=
  map (fun k => cellz y r (Z.of_nat k)) (seq 0 (Z.to_nat (ncols y))).

(** Line 1029: the signal with the reflected pieces before and after. *)
Definition padded (x : list T) (window_len : Z) : list T :=
  let n := Z.of_nat (List.length x) in
  map (reflect (median (slice x 0 (Z.quot window_len 5))))
      (rev_slice x window_len 1)
  ++ x
  ++ map (reflect (median (slice x (Z.quot (- window_len) 5) n)))
         (rev_slice x (-1) (- window_len)).

(** One pass of the loop of lines 1033-1038. *)
Definition shift_step (s : list T) (k2 : Z) (i : Z) (y : matrix)
  : outcome matrix :=
  let j := k2 - i in
  let len := Z.of_nat (List.length s) in
  y <- set_col y j (nrows y) i (slice s 0 (- j)) ;;
  s0 <- item s 0 ;;
  y <- set_col y 0 j i [s0] ;;
  y <- set_col y 0 (- j) (- (i + 1)) (slice s j len) ;;
  sl <- item s (-1) ;;
  set_col y (- j) (nrows y) (- (i + 1)) [sl].

(** Lines 1026-1039, for the window length after line 1025. *)
Definition medfilt_odd (x : list T) (window_len : Z) : outcome (list T) :=
  let k2 := (window_len - 1) / 2 in
  let s := padded x window_len in
  y <- zeros (Z.of_nat (List.length s)) window_len ;;
  y <- set_col y 0 (nrows y) k2 s ;;
  y <- foldM (shift_step s k2) (map Z.of_nat (seq 0 (Z.to_nat k2))) y ;;
  let a := slice_start (nrows y) (window_len - 1) (- window_len + 1) in
  let n := slice_len (nrows y) (window_len - 1) (- window_len + 1) in
  Ret (map (fun r => median (row_of y (a + Z.of_nat r))) (seq 0 (Z.to_nat n))).

(** [medfilt] (lines 1007-1039): the result and the lines printed. *)
Definition medfilt (x : list T) (window_len : Z)
  : outcome (list T) * list line :=
  if window_len mod 2 =? 0 then
    (medfilt_odd x (window_len + 1), [MustBeOdd window_len])
  else (medfilt_odd x window_len, []).

End Signal.

End Medfilt.

(* ================================================================= *)
(** ** What the properties of the field simulation are stated with *)

Module FieldSpec.

Import SossFieldSim.
Local Open Scope Z_scope.

(** The test of lines 170-173, on the raw window. *)
Definition no_overlap (mp : modelParam) (dimX dimY intx inty : Z) : Prop :=
  modelPadX mp - intx > dimXmod mp \/ modelPadY mp - inty > dimYmod mp
  \/ modelPadX mp - intx + dimX < 0 \/ modelPadY mp - inty + dimY < 0.

(** The window is inside both arrays: the source slice inside a model
    array of [dimYmod] rows and [dimXmod] columns, the destination slice
    inside a frame of [dimY] rows and [dimX] columns, for slices that
    Python neither wraps around nor clips, and of one shape. *)
Definition window_fits (mp : modelParam) (dimX dimY : Z) (w : window) : Prop :=
  (0 <= mx0 w /\ mx0 w <= mx1 w /\ mx1 w <= dimXmod mp)
  /\ (0 <= my0 w /\ my0 w <= my1 w /\ my1 w <= dimYmod mp)
  /\ (0 <= x0 w /\ x0 w + (mx1 w - mx0 w) <= dimX)
  /\ (0 <= y0 w /\ y0 w + (my1 w - my0 w) <= dimY)
  /\ slice_start (dimXmod mp) (mx0 w) (mx1 w) = mx0 w
  /\ slice_start (dimYmod mp) (my0 w) (my1 w) = my0 w
  /\ slice_start dimX (x0 w) (x0 w + mx1 w - mx0 w) = x0 w
  /\ slice_start dimY (y0 w) (y0 w + my1 w - my0 w) = y0 w
  /\ slice_len (dimXmod mp) (mx0 w) (mx1 w) = mx1 w - mx0 w
  /\ slice_len dimX (x0 w) (x0 w + mx1 w - mx0 w) = mx1 w - mx0 w
  /\ slice_len (dimYmod mp) (my0 w) (my1 w) = my1 w - my0 w
  /\ slice_len dimY (y0 w) (y0 w + my1 w - my0 w) = my1 w - my0 w.

(** Plane [q] holds the same values in [c] and [c']. *)
Definition same_plane (c c' : ndarray3) (q : Z) : Prop :=
  forall y x, at3 c' q y x = at3 c q y x.

Definition same_shape (c c' : ndarray3) : Prop :=
  dim0 c' = dim0 c /\ dim1 c' = dim1 c /\ dim2 c' = dim2 c.

(** A star whose pixel offset rounds to (0, 0). *)
Definition zero_offset (s : star) : Prop :=
  round (dx s) = 0 /\ round (dy s) = 0.

(** The two kinds of store the loop body makes: an assignment to plane 0
    or 1, at angle index 0, for a star of zero rounded offset; an
    addition to plane [kPA + 2], for a star of non-zero rounded offset. *)
Definition legal_write (w : cube_write) : Prop :=
  (w_kind w = Assigned /\ (w_plane w = 0 \/ w_plane w = 1)
   /\ w_kPA w = 0%nat /\ zero_offset (w_star w))
  \/ (w_kind w = Added /\ w_plane w = Z.of_nat (w_kPA w) + 2
      /\ ~ zero_offset (w_star w)).

(** [st'] comes from [st] by stores made at angle indices in [P]: the
    history grows by legal stores, and a plane that none of them names
    holds what it held. *)
Definition extends (P : nat -> Prop) (st st' : sim) : Prop :=
  same_shape (simuCube st) (simuCube st')
  /\ exists new,
       writes st' = writes st ++ new
       /\ Forall legal_write new
       /\ Forall (fun w => P (w_kPA w)) new
       /\ forall q, (forall w, In w new -> w_plane w <> q) ->
                    same_plane (simuCube st) (simuCube st') q.

(** The test [(intx == 0) & (inty == 0)] of line 183. *)
Definition targetb (s : star) : bool :=
  (round (dx s) =? 0) && (round (dy s) =? 0).

(** The stores the loop body makes for star [s] at angle index [kPA]. *)
Definition star_writes (mp : modelParam) (dimX dimY : Z) (kPA : nat) (s : star)
  : list cube_write :=
  match subsection mp dimX dimY (round (dx s)) (round (dy s)) with
  | None => []
  | Some _ =>
      (if targetb s && (kPA =? 0)%nat then
         [ {| w_kind := Assigned; w_plane := 0; w_kPA := kPA; w_star := s |};
           {| w_kind := Assigned; w_plane := 1; w_kPA := kPA; w_star := s |} ]
       else [])
      ++ (if negb (targetb s) then
            [ {| w_kind := Added; w_plane := Z.of_nat kPA + 2;
                 w_kPA := kPA; w_star := s |} ]
          else [])
  end.

(** The squared colour distance from [(jh, hk)] to entry [j] of the table. *)
Definition sq_distance (mp : modelParam) (jh hk : R) (j : nat) : R :=
  ((jh - nth j (jhMod mp) 0) ^ 2 + (hk - nth j (hkMod mp) 0) ^ 2)%R.

(** The arrays of the save files have the shapes their metadata says:
    [models] holds one array of [dimYmod] rows and [dimXmod] columns for
    every temperature of the table, every [modelo12] array two such
    arrays, and there is a save file for every temperature. *)
Definition params_ok (mp : modelParam) (saveFiles : list ndarray3) : Prop :=
  0 <= dimXmod mp /\ 0 <= dimYmod mp
  /\ dim1 (models mp) = dimYmod mp /\ dim2 (models mp) = dimXmod mp
  /\ dim0 (models mp) = Z.of_nat (List.length (teffMod mp))
  /\ (List.length (teffMod mp) <= List.length saveFiles)%nat
  /\ Forall (fun m => 2 <= dim0 m /\ dim1 m = dimYmod mp
                      /\ dim2 m = dimXmod mp) saveFiles.

(** The cube has [n] planes of [dimY] rows and [dimX] columns. *)
Definition cube_ok (dimX dimY n : Z) (c : ndarray3) : Prop :=
  dim0 c = n /\ dim1 c = dimY /\ dim2 c = dimX.

(** The stores of one pass of the big loop, and of the whole loop, for
    the structured array [stars0] the pass starts with. *)
Definition angle_writes (mp : modelParam) (sweetSpot : sweet_spot)
    (dimX dimY : Z) (kPA : nat) (APA : Z) (stars0 : list star)
  : list cube_write :=
  flat_map (star_writes mp dimX dimY kPA)
           (filter in_FOV (map (project sweetSpot (IZR APA)) stars0)).

Definition sweep_writes (mp : modelParam) (sweetSpot : sweet_spot)
    (dimX dimY : Z) (PAtab : list Z) (kPAs : list nat) (stars0 : list star)
  : list cube_write :=
  flat_map (fun kPA => angle_writes mp sweetSpot dimX dimY kPA
                         (nth kPA PAtab 0) stars0) kPAs.

(** How often the history assigns to plane [p]. *)
Definition is_assignment (p : Z) (w : cube_write) : bool :=
  match w_kind w with
  | Assigned => w_plane w =? p
  | Added => false
  end.

Definition count_assigned (p : Z) (l : list cube_write) : nat :=
  List.length (filter (is_assignment p) l).

(** The stars that the first branch of the loop body takes at position
    angle [APA]: in the field of view, of zero rounded offset, with an
    overlap window. *)
Definition has_window (mp : modelParam) (dimX dimY : Z) (s : star) : bool :=
  match subsection mp dimX dimY (round (dx s)) (round (dy s)) with
  | Some _ => true
  | None => false
  end.

Definition reference_writers (mp : modelParam) (sweetSpot : sweet_spot)
    (dimX dimY : Z) (APA : Z) (stars0 : list star) : list star :=
  filter (fun s => targetb s && has_window mp dimX dimY s)
         (filter in_FOV (map (project sweetSpot (IZR APA)) stars0)).

(** The stars have temperatures of the table. *)
Definition classified (mp : modelParam) (l : list star) : Prop :=
  Forall (fun s => In (T s) (teffMod mp)) l.

(** What a pass of the loop leaves in the cube and in its history. *)
Definition cube_and_writes (o : outcome sim)
  : outcome (ndarray3 * list cube_write) :=
  match o with
  | Ret st => Ret (simuCube st, writes st)
  | Raise e => Raise e
  end.

(** The projected position is outside the window of line 151. *)
Definition outside_field (s : star) : Prop :=
  (x s < -162 \/ 2047 + 185 < x s \/ y s < -154 \/ 2047 + 174 < y s)%R.

Definition with_stars (l : list star) (st : sim) : sim :=
  {| stars := l; simuCube := simuCube st; writes := writes st |}.

(** What star [s] adds to pixel [(y, x)] of the plane of the angle it
    was projected for: its model, cut out by the window and scaled, when
    its rounded offset is not (0, 0), and nothing otherwise. *)
Definition contribution (mp : modelParam) (sweetSpot : sweet_spot)
    (dimX dimY : Z) (s : star) (y x : Z) : R :=
  match where_first (teffMod mp) (T s),
        subsection mp dimX dimY (round (dx s)) (round (dy s)) with
  | Some k, Some w =>
      if negb (targetb s)
         && (y0 w <=? y) && (y <? y0 w + (my1 w - my0 w))
         && (x0 w <=? x) && (x <? x0 w + (mx1 w - mx0 w))
      then (at3 (models mp) (Z.of_nat k) (my0 w + (y - y0 w))
                (mx0 w + (x - x0 w))
            * fluxscale_of sweetSpot s)%R
      else 0%R
  | _, _ => 0%R
  end.

(** The sum of what the stars of [l] add to pixel [(y, x)]. *)
Definition field_sum (mp : modelParam) (sweetSpot : sweet_spot)
    (dimX dimY : Z) (l : list star) (y x : Z) : R :=
  fold_right (fun s acc => (contribution mp sweetSpot dimX dimY s y x + acc)%R)
             0%R l.


(** Frame pixel [(y, x)] lies under the model array of a star of zero
    rounded offset. *)
Definition frame_hit (mp : modelParam) (dimX dimY : Z) (y x : Z) : bool :=
  (0 <=? y) && (y <? dimY) && (0 <=? x) && (x <? dimX)
  && (0 <=? y + modelPadY mp) && (y + modelPadY mp <? dimYmod mp)
  && (0 <=? x + modelPadX mp) && (x + modelPadX mp <? dimXmod mp).

(** The pixel of order [o] of the two-order model of star [s] that
    lies over frame pixel [(y, x)], scaled for the star. *)
Definition reference_trace (mp : modelParam) (saveFiles : list ndarray3)
    (sweetSpot : sweet_spot) (o : Z) (s : star) (y x : Z) : R :=
  match where_first (teffMod mp) (T s) with
  | Some k =>
      match nth_error saveFiles k with
      | Some m => (at3 m o (y + modelPadY mp) (x + modelPadX mp)
                   * fluxscale_of sweetSpot s)%R
      | None => 0%R
      end
  | None => 0%R
  end.

End FieldSpec.

(* ================================================================= *)
(** ** A small field: a target and a companion at the same place *)

Module FieldExamples.

Import SossFieldSim.
Local Open Scope R_scope.

(** One temperature in the table; model arrays of 2100 rows and 10
    columns, padded by 20 rows and 2 columns; two save files, of which
    [glob(...)[:-1]] keeps the first. *)
Definition ex_models : ndarray3 :=
  {| dim0 := 1; dim1 := 2100; dim2 := 10; at3 := fun _ _ _ => 1 |}.

Definition ex_mp : modelParam :=
  {| models := ex_models; modelPadX := 2; modelPadY := 20;
     dimXmod := 10; dimYmod := 2100;
     jhMod := [1]; hkMod := [1]; teffMod := [5000] |}.

Definition ex_o12 : ndarray3 :=
  {| dim0 := 2; dim1 := 2100; dim2 := 10;
     at3 := fun o _ _ => if (o =? 0)%Z then 3 else 5 |}.

Definition ex_files : list ndarray3 := [ex_o12; ex_o12].

Definition ex_dimX : Z := 4.

(** The catalogue returns the target alone. *)
Definition ex_info : list catalog_row :=
  [ {| ra := 10; dec := 0; j_m := 10; h_m := 9; k_m := 8 |} ].

(** A companion at the position of the target, 2.5 magnitudes fainter. *)
Definition ex_twin : companion :=
  {| deltaRA := 0; deltaDEC := 0; compJ := 25 / 2; compH := 12;
     compK := 23 / 2 |}.

Definition ex_sweet : sweet_spot :=
  {| sweet_x := 856; sweet_y := 107; sweet_RA := 10; sweet_DEC := 0;
     sweet_jmag := 10 |}.

Definition ex_star0 : star :=
  {| RA := 10; DEC := 0;
     dRA := (10 - 10) * cos (0 / radeg) * 3600;
     dDEC := (0 - 0) * 3600;
     jmag := 10; T := 5000; x := 0; y := 0; dx := 0; dy := 0 |}.

Definition ex_star1 : star :=
  {| RA := 10 + 0 / 3600 / cos (0 * deg2rad);
     DEC := 0 + 0 / 3600;
     dRA := (10 + 0 / 3600 / cos (0 * deg2rad) - 10) * cos (0 / radeg) * 3600;
     dDEC := (0 + 0 / 3600 - 0) * 3600;
     jmag := 25 / 2; T := 5000; x := 0; y := 0; dx := 0; dy := 0 |}.

Definition ex_cube0 : ndarray3 :=
  {| dim0 := 362; dim1 := 2048; dim2 := 4; at3 := fun _ _ _ => 0 |}.

Definition ex_st0 : sim :=
  {| stars := [ex_star0; ex_star1]; simuCube := ex_cube0; writes := [] |}.

(** A field star 130 arcsec north of the target, and one 13 mas east. *)
Definition ex_far : star :=
  {| RA := 10; DEC := 130 / 3600; dRA := 0; dDEC := 130;
     jmag := 12; T := 5000; x := 0; y := 0; dx := 0; dy := 0 |}.

Definition ex_near : star :=
  {| RA := 10 + 13 / 3600000; DEC := 0; dRA := 13 / 1000; dDEC := 0;
     jmag := 12; T := 5000; x := 0; y := 0; dx := 0; dy := 0 |}.

(** A colour table in which the first and the last entry are equally
    near to the colours (0, 0). *)
Definition ex_table : modelParam :=
  {| models := ex_models; modelPadX := 2; modelPadY := 20;
     dimXmod := 10; dimYmod := 2100;
     jhMod := [1; 2; -1]; hkMod := [0; 2; 0];
     teffMod := [3000; 4000; 5000] |}.

(** A field star three columns right of the target. *)
Definition ex_shifted : star :=
  {| RA := 10; DEC := 0; dRA := 0; dDEC := 0;
     jmag := 12; T := 5000; x := 859; y := 107; dx := 3; dy := 0 |}.

Definition ex_row0 : catalog_row :=
  {| ra := 10; dec := 0; j_m := 10; h_m := 9; k_m := 8 |}.

End FieldExamples.

(* ================================================================= *)
(** ** What the properties of the model grid are stated with *)

Module GridSpec.

Import Core.
Local Open Scope Q_scope.

(** The value [v] is outside the recorded range. *)
Definition outside (rng : Q * Q) (v : Q) : Prop :=
  v < fst rng \/ snd rng < v.

(** The invariant [__init__] (lines 396-401) and [customize] (lines
    666-671) establish: the recorded ranges and value lists are those of
    the table. *)
Definition ranges_consistent (g : ModelGrid) : Prop :=
  py_min (map Teff (data g)) = Ret (fst (Teff_rng g))
  /\ py_max (map Teff (data g)) = Ret (snd (Teff_rng g))
  /\ py_min (map logg (data g)) = Ret (fst (logg_rng g))
  /\ py_max (map logg (data g)) = Ret (snd (logg_rng g))
  /\ py_min (map FeH (data g)) = Ret (fst (FeH_rng g))
  /\ py_max (map FeH (data g)) = Ret (snd (FeH_rng g))
  /\ Teff_vals g = unique (map Teff (data g))
  /\ logg_vals g = unique (map logg (data g))
  /\ FeH_vals g = unique (map FeH (data g)).

(** The rows of the table that a call of [customize] would keep. *)
Definition kept (Teff_rng logg_rng FeH_rng : Q * Q) (g : ModelGrid) : list row :=
  filter (fun r => in_range Teff_rng (Teff r) && in_range logg_rng (logg r)
                   && in_range FeH_rng (FeH r)) (data g).

(** A statement that returns, whatever the state. *)
Definition never_raises (m : M unit) : Prop :=
  forall w, exists w', m w = (Ret tt, w').

(** [print] of one more line. *)
Definition printed (w : world) (m : message) : world :=
  {| self := self w; loads := loads w; stdout := stdout w ++ [m] |}.

(** [n_bins or self.n_bins] *)
Definition n_bins_or (n_bins : option Q) (g : ModelGrid) : Q :=
  match n_bins with
  | Some q => if Qeq_bool q 0 then Core.n_bins g else q
  | None => Core.n_bins g
  end.

End GridSpec.

(* ================================================================= *)
(** ** A grid of one model *)

Module GridExamples.

Import Core.
Local Open Scope Q_scope.
Local Open Scope string_scope.

Definition ex_row : row :=
  {| Teff := 5000; logg := 45 # 10; FeH := 0; filename := "lte05000.fits" |}.

Definition ex_grid : ModelGrid :=
  {| path := "models/"; wave_rng := (0, 40); n_bins := 10000000000;
     array := None; wavelength := None; data := [ex_row];
     Teff_rng := (5000, 5000); logg_rng := (45 # 10, 45 # 10);
     FeH_rng := (0, 0);
     Teff_vals := [5000]; logg_vals := [45 # 10]; FeH_vals := [0];
     CRVAL1 := None; CDELT1 := 0 |}.

(** Two [mu] angles and three wavelengths, in Angstrom: 1, 2 and 50
    microns. *)
Definition ex_file : fits_file :=
  {| raw_flux := [[1; 2; 3]; [4; 5; 6]];
     mu_ext := [1; 1 # 2];
     wave_ext := [10000; 20000; 500000] |}.

Definition ex_disk (filepath : string) : option fits_file :=
  if String.eqb filepath "models/lte05000.fits" then Some ex_file else None.

Definition ex_world : world :=
  {| self := ex_grid; loads := []; stdout := [] |}.

End GridExamples.

(* ================================================================= *)
(** ** More words for the model grid, and a grid of two models *)

Module GridFrame.
Import Py Core GridSpec.
Local Open Scope Q_scope.

(** The row passes the cut of [customize]. *)
Definition row_in (Teff_rng logg_rng FeH_rng : Q * Q) (r : row) : bool :=
  in_range Teff_rng (Teff r) && in_range logg_rng (logg r)
  && in_range FeH_rng (FeH r).

(** The table a call of [customize] leaves: the rows it keeps, or the
    old table when it keeps none. *)
Definition new_table (Teff_rng logg_rng FeH_rng : Q * Q) (g : ModelGrid)
  : list row :=
  match kept Teff_rng logg_rng FeH_rng g with
  | [] => data g
  | k => k
  end.

(** The range [inner] lies inside the range [outer]. *)
Definition within (inner outer : Q * Q) : Prop :=
  fst outer <= fst inner /\ snd inner <= snd outer.

(** Angstrom to microns (line 463 of [get]). *)
Definition microns (wl : list Q) : list Q := map (fun v => v * (1 # 10000)) wl.

(** The wavelength scale [get] builds for a model file (lines 455-463):
    the wavelength extension, or the scale generated from [CRVAL1] and
    [CDELT1] with one point for every entry of the first flux row. *)
Definition file_wave (g : ModelGrid) (f : fits_file) : list Q :=
  microns (match CRVAL1 g with
           | None => wave_ext f
           | Some c => map (fun i => c + CDELT1 g * inject_Z (Z.of_nat i))
                           (seq 0 (List.length (hd [] (raw_flux f))))
           end).



(** The object without its flux array and the wavelengths of the array:
    the attributes [__init__] and [customize] set. *)
Definition strip (g : ModelGrid) : ModelGrid :=
  {| path := path g; wave_rng := wave_rng g; n_bins := n_bins g;
     array := None; wavelength := None; data := data g;
     Teff_rng := Teff_rng g; logg_rng := logg_rng g; FeH_rng := FeH_rng g;
     Teff_vals := Teff_vals g; logg_vals := logg_vals g;
     FeH_vals := FeH_vals g; CRVAL1 := CRVAL1 g; CDELT1 := CDELT1 g |}.

(** The two objects differ at most in [array] and [wavelength]. *)
Definition same_table (g g' : ModelGrid) : Prop := strip g' = strip g.

(** A statement that changes at most [array] and [wavelength], whether
    it returns or raises. *)
Definition keeps_table {A : Type} (m : M A) : Prop :=
  forall w, same_table (self w) (self (snd (m w))).

End GridFrame.

Module GridCutExamples.
Import Py Core GridSpec GridExamples.
Local Open Scope Q_scope.
Local Open Scope string_scope.

Definition ex_hot_row : row :=
  {| Teff := 7000; logg := 4; FeH := 0; filename := "lte07000.fits" |}.

(** A grid of two models. *)
Definition ex_two_grid : ModelGrid :=
  {| path := "models/"; wave_rng := (0, 40); n_bins := 10000000000;
     array := None; wavelength := None; data := [ex_row; ex_hot_row];
     Teff_rng := (5000, 7000); logg_rng := (4, 45 # 10);
     FeH_rng := (0, 0);
     Teff_vals := [5000; 7000]; logg_vals := [4; 45 # 10]; FeH_vals := [0];
     CRVAL1 := None; CDELT1 := 0 |}.

Definition ex_two_world : world :=
  {| self := ex_two_grid; loads := []; stdout := [] |}.

(** The grid of two models after
    [customize(Teff_rng=(4000, 6000), wave_rng=(1, 2))]. *)
Definition ex_cut_world : world :=
  {| self := {| path := "models/"; wave_rng := (1, 2);
                n_bins := 10000000000;
                array := None; wavelength := None; data := [ex_row];
                Teff_rng := (5000, 5000); logg_rng := (45 # 10, 45 # 10);
                FeH_rng := (0, 0);
                Teff_vals := [5000]; logg_vals := [45 # 10]; FeH_vals := [0];
                CRVAL1 := None; CDELT1 := 0 |};
     loads := [];
     stdout := [MsgSummary 1 2] |}.


(** The grid of one model with its flux array loaded. *)
Definition ex_loaded_world : world :=
  {| self := with_array ex_grid
               (Some {| shape5 := (1, 1, 1, 2, 2)%nat;
                        cell := fun _ _ _ => [[1; 2]; [4; 5]] |});
     loads := []; stdout := [] |}.


End GridCutExamples.

(* ================================================================= *)
(** ** Sessions of a [References] object *)

Module RefsSpec.
Import Py Refs.
Local Open Scope string_scope.

(** A call of [add] or [remove]. *)
Inductive call : Type :=
| Add (bibcode : string)
| Remove (bibcode : string).

Definition do_call (self : References) (c : call) : References :=
  match c with
  | Add b => fst (add self b)
  | Remove b => fst (remove self b)
  end.

(** The object after a sequence of calls. *)
Definition session (self : References) (calls : list call) : References :=
  fold_left do_call calls self.

(** Every reference saved is a bibcode of the database. *)
Definition refs_known (self : References) : Prop :=
  forall b, In b (refs self) -> In b (bibcodes self).

(** A small bibtex file. *)
Definition ex_entries : list entry :=
  [ {| ID := "2013A&A...553A...6H"; fields := [("title", "PHOENIX")] |};
    {| ID := "2000A&AS..143...23O"; fields := [("title", "SVO")] |} ].

Definition ex_files (p : string) : option (list entry) :=
  if String.eqb p "refs.bib" then Some ex_entries else None.

Definition ex_refs : References :=
  {| bibfile := "refs.bib"; refs := []; database := ex_entries;
     bibcodes := ["2013A&A...553A...6H"; "2000A&AS..143...23O"] |}.

(** Three sessions on the new object: one with a bibcode the file does
    not have, one that saves a bibcode twice, and one that saves the
    same two bibcodes once each, in the other order. *)
Definition ex_mixed : References :=
  session ex_refs [Add "2013A&A...553A...6H"; Add "nokey";
                   Remove "2000A&AS..143...23O"].

Definition ex_twice : References :=
  session ex_refs [Add "2013A&A...553A...6H"; Add "2000A&AS..143...23O";
                   Add "2013A&A...553A...6H"].

Definition ex_once : References :=
  session ex_refs [Add "2000A&AS..143...23O"; Add "2013A&A...553A...6H"].

End RefsSpec.

(* ================================================================= *)
(** ** What the properties of [find_closest] and [medfilt] are stated with *)

Module ClosestSpec.
Import Py Core Closest.
Local Open Scope Q_scope.


End ClosestSpec.

Module MedfiltSpec.
Import Py Closest Medfilt.
Local Open Scope Z_scope.

Section Signal.

Variable T : Type.
Variable zero : T.

(** The element [s[i]] for [0 <= i < len(s)]. *)
Definition el (s : list T) (i : Z) : T := nth (Z.to_nat i) s zero.

(** The [w] elements of [s] from index [a] on. *)
Definition window (s : list T) (a w : Z) : list T :=
  firstn (Z.to_nat w) (skipn (Z.to_nat a) s).

(** The columns of [y] after the pass [i] of the loop, in terms of the
    columns before it: column [i] holds [s] moved down by [k2 - i] rows,
    with [s[0]] above, and column [-(i+1)] holds [s] moved up by as
    many rows, with [s[-1]] below. *)
Definition shifted (s : list T) (k2 i : Z) (y y' : matrix T) : Prop :=
  let len := Z.of_nat (List.length s) in
  let j := k2 - i in
  nrows y' = nrows y /\ ncols y' = ncols y
  /\ forall r c, 0 <= r < len ->
       cellz y' r c
       = if c =? i then (if r <? j then el s 0 else el s (r - j))
         else if c =? ncols y - 1 - i then
                (if r <? len - j then el s (r + j) else el s (len - 1))
         else cellz y r c.

(** The matrix at the head of pass [m] of the loop. *)
Definition columns_upto (s : list T) (k2 m : Z) (y : matrix T) : Prop :=
  let len := Z.of_nat (List.length s) in
  nrows y = len /\ ncols y = 2 * k2 + 1
  /\ forall r c, 0 <= r < len -> 0 <= c < 2 * k2 + 1 ->
       cellz y r c
       = if c <? m then
           (if r <? k2 - c then el s 0 else el s (r - (k2 - c)))
         else if 2 * k2 - m <? c then
           (if r <? len - (c - k2) then el s (r + (c - k2))
            else el s (len - 1))
         else if c =? k2 then el s r
         else zero.

End Signal.

End MedfiltSpec.

Module MedfiltExamples.
Import Py Medfilt.
Local Open Scope Z_scope.

Fixpoint insert_sorted (v : Z) (l : list Z) : list Z :=
  match l with
  | [] => [v]
  | a :: t => if v <=? a then v :: l else a :: insert_sorted v t
  end.

(** A median on integers, for examples: the middle of the sorted list,
    [-1] standing for the [nan] of an empty list. *)
Definition ex_median (l : list Z) : Z :=
  match l with
  | [] => -1
  | _ => nth (List.length l / 2) (fold_right insert_sorted [] l) 0
  end.

Definition ex_reflect (m v : Z) : Z := 2 * m - v.

Definition ex_signal : list Z := [10; 20; 90; 30; 40; 50; 60].

End MedfiltExamples.


(* ================================================================= *)
(** ** Properties of the field simulation *)

Module FieldProofs.

Import SossFieldSim.
Import FieldSpec.
Import FieldExamples.
Local Open Scope Z_scope.

(** *** Slices that need no clipping *)

Lemma slice_bound_id (n i : Z) : 0 <= i <= n -> slice_bound n i = i.
Proof.
  intros H. unfold slice_bound.
  destruct (Z.ltb_spec i 0); lia.
Qed.

Lemma slice_start_id (n i j : Z) : 0 <= i <= n -> slice_start n i j = i.
Proof. intros H. unfold slice_start. now apply slice_bound_id. Qed.

Lemma slice_len_id (n i j : Z) :
  0 <= i -> i <= j -> j <= n -> slice_len n i j = j - i.
Proof.
  intros Hi Hij Hj. unfold slice_len.
  rewrite !slice_bound_id by lia. lia.
Qed.

(** *** The overlap window *)

Ltac zcases :=
  repeat match goal with
         | |- context [(?a <? ?b)] => destruct (Z.ltb_spec a b)
         | |- context [(?a <=? ?b)] => destruct (Z.leb_spec a b)
         | |- context [(?a =? ?b)] => destruct (Z.eqb_spec a b)
         end.

Lemma subsection_none (mp : modelParam) (dimX dimY intx inty : Z) :
  no_overlap mp dimX dimY intx inty ->
  subsection mp dimX dimY intx inty = None.
Proof.
  unfold no_overlap, subsection. intros H.
  rewrite !Z.gtb_ltb. zcases; simpl; try reflexivity; lia.
Qed.

Lemma subsection_some (mp : modelParam) (dimX dimY intx inty : Z) :
  ~ no_overlap mp dimX dimY intx inty ->
  exists w, subsection mp dimX dimY intx inty = Some w
    /\ x0 w = Z.max 0 (- (modelPadX mp - intx))
    /\ y0 w = Z.max 0 (- (modelPadY mp - inty))
    /\ mx0 w = Z.max 0 (modelPadX mp - intx)
    /\ my0 w = Z.max 0 (modelPadY mp - inty)
    /\ mx1 w = Z.min (dimXmod mp) (modelPadX mp - intx + dimX)
    /\ my1 w = Z.min (dimYmod mp) (modelPadY mp - inty + dimY).
Proof.
  unfold no_overlap, subsection. intros H.
  rewrite !Z.gtb_ltb, !Z.geb_leb.
  destruct (Z.ltb_spec (dimXmod mp) (modelPadX mp - intx)); [lia|].
  destruct (Z.ltb_spec (dimYmod mp) (modelPadY mp - inty)); [lia|].
  destruct (Z.ltb_spec (modelPadX mp - intx + dimX) 0); [lia|].
  destruct (Z.ltb_spec (modelPadY mp - inty + dimY) 0); [lia|].
  simpl. eexists. split; [reflexivity|]. cbn [x0 y0 mx0 mx1 my0 my1].
  repeat split; zcases; cbn [Z.b2z]; lia.
Qed.

Lemma window_fits_of_subsection (mp : modelParam) (dimX dimY intx inty : Z) (w : window) :
  0 <= dimX -> 0 <= dimY -> 0 <= dimXmod mp -> 0 <= dimYmod mp ->
  subsection mp dimX dimY intx inty = Some w ->
  window_fits mp dimX dimY w.
Proof.
  intros HX HY HXm HYm Hs.
  assert (Hn : ~ no_overlap mp dimX dimY intx inty).
  { intros Hn. rewrite (subsection_none Hn) in Hs. discriminate. }
  destruct (subsection_some Hn) as (w' & Hw & E1 & E2 & E3 & E4 & E5 & E6).
  rewrite Hs in Hw. injection Hw as <-.
  unfold no_overlap in Hn.
  assert (B1 : 0 <= mx0 w /\ mx0 w <= mx1 w /\ mx1 w <= dimXmod mp) by lia.
  assert (B2 : 0 <= my0 w /\ my0 w <= my1 w /\ my1 w <= dimYmod mp) by lia.
  assert (B3 : 0 <= x0 w /\ x0 w + (mx1 w - mx0 w) <= dimX) by lia.
  assert (B4 : 0 <= y0 w /\ y0 w + (my1 w - my0 w) <= dimY) by lia.
  unfold window_fits.
  rewrite !slice_start_id by lia.
  rewrite !slice_len_id by lia.
  repeat split; lia.
Qed.

(** *** Results and loops *)

Lemma bind_Ret {A B : Type} (m : outcome A) (f : A -> outcome B) (b : B) :
  bind m f = Ret b -> exists a, m = Ret a /\ f a = Ret b.
Proof.
  destruct m as [a|e]; simpl; intros H; [eauto | discriminate].
Qed.

Lemma foldM_app {A S : Type} (f : A -> S -> outcome S) (l1 l2 : list A) (s : S) :
  foldM f (l1 ++ l2) s = bind (foldM f l1 s) (foldM f l2).
Proof.
  revert s. induction l1 as [|a l1 IH]; intros s; simpl; [reflexivity|].
  destruct (f a s) as [s1|e]; simpl; [apply IH | reflexivity].
Qed.

(** An invariant of the loop body that is reflexive and transitive is an
    invariant of the loop. *)
Lemma foldM_invariant {A S : Type} (f : A -> S -> outcome S)
    (P : A -> Prop) (I : S -> S -> Prop) :
  (forall s, I s s) ->
  (forall s1 s2 s3, I s1 s2 -> I s2 s3 -> I s1 s3) ->
  (forall a s s', P a -> f a s = Ret s' -> I s s') ->
  forall l s s', Forall P l -> foldM f l s = Ret s' -> I s s'.
Proof.
  intros Hrefl Htrans Hstep l.
  induction l as [|a l IH]; intros s s' HP H; simpl in H.
  - injection H as <-. apply Hrefl.
  - apply bind_Ret in H. destruct H as (s1 & H1 & H2).
    inversion HP; subst.
    eapply Htrans; [eapply Hstep; eassumption | eapply IH; eassumption].
Qed.

Lemma scalar_index_nonneg (n i p : Z) :
  0 <= i -> scalar_index n i = Ret p -> p = i /\ i < n.
Proof.
  unfold scalar_index. intros Hi.
  destruct (Z.leb_spec 0 i); [|lia].
  destruct (Z.ltb_spec i n); simpl.
  - intros [= <-]. lia.
  - destruct (Z.leb_spec (- n) i); destruct (Z.ltb_spec i 0); simpl;
      try discriminate; lia.
Qed.

Lemma scalar_index_ok (n i : Z) : 0 <= i < n -> scalar_index n i = Ret i.
Proof.
  intros H. unfold scalar_index.
  destruct (Z.leb_spec 0 i); [|lia].
  destruct (Z.ltb_spec i n); [reflexivity | lia].
Qed.

(** *** Stores into the cube *)

Lemma store_inv (upd : R -> R -> R) (c : ndarray3) (p i0 i1 j0 j1 : Z)
    (v : ndarray2) (c' : ndarray3) :
  0 <= p ->
  store upd c p i0 i1 j0 j1 v = Ret c' ->
  p < dim0 c /\ same_shape c c'
  /\ forall q y x,
       at3 c' q y x =
       if (q =? p) && (slice_start (dim1 c) i0 i1 <=? y)
          && (y <? slice_start (dim1 c) i0 i1 + slice_len (dim1 c) i0 i1)
          && (slice_start (dim2 c) j0 j1 <=? x)
          && (x <? slice_start (dim2 c) j0 j1 + slice_len (dim2 c) j0 j1)
       then upd (at3 c q y x)
                (at2 v (bcast_index (rows v) (y - slice_start (dim1 c) i0 i1))
                       (bcast_index (cols v) (x - slice_start (dim2 c) j0 j1)))
       else at3 c q y x.
Proof.
  intros Hp. unfold store. intros H.
  apply bind_Ret in H. destruct H as (p' & Hidx & H).
  apply scalar_index_nonneg in Hidx; [|assumption]. destruct Hidx as [-> Hlt].
  destruct (broadcastable (rows v) _ && broadcastable (cols v) _);
    [|discriminate].
  injection H as <-. simpl.
  split; [assumption|]. split; [repeat split|]. reflexivity.
Qed.

Lemma store_other_plane (upd : R -> R -> R) (c : ndarray3) (p i0 i1 j0 j1 : Z)
    (v : ndarray2) (c' : ndarray3) (q : Z) :
  0 <= p -> q <> p ->
  store upd c p i0 i1 j0 j1 v = Ret c' -> same_plane c c' q.
Proof.
  intros Hp Hq H y x.
  destruct (store_inv _ _ _ _ _ _ _ Hp H) as (_ & _ & Hat).
  rewrite Hat. destruct (Z.eqb_spec q p); [contradiction | reflexivity].
Qed.

Lemma store_same_shape (upd : R -> R -> R) (c : ndarray3) (p i0 i1 j0 j1 : Z)
    (v : ndarray2) (c' : ndarray3) :
  0 <= p -> store upd c p i0 i1 j0 j1 v = Ret c' -> same_shape c c'.
Proof.
  intros Hp H. now destruct (store_inv _ _ _ _ _ _ _ Hp H) as (_ & Hs & _).
Qed.

Lemma same_shape_refl (c : ndarray3) : same_shape c c.
Proof. repeat split. Qed.

Lemma same_shape_trans (c1 c2 c3 : ndarray3) :
  same_shape c1 c2 -> same_shape c2 c3 -> same_shape c1 c3.
Proof. unfold same_shape. intuition congruence. Qed.

Lemma same_plane_refl (c : ndarray3) (q : Z) : same_plane c c q.
Proof. intros y x. reflexivity. Qed.

Lemma same_plane_trans (c1 c2 c3 : ndarray3) (q : Z) :
  same_plane c1 c2 q -> same_plane c2 c3 q -> same_plane c1 c3 q.
Proof. intros H1 H2 y x. rewrite H2. apply H1. Qed.

(** *** The history of stores *)

Lemma extends_refl (P : nat -> Prop) (st : sim) : extends P st st.
Proof.
  split; [apply same_shape_refl|].
  exists []. rewrite app_nil_r. repeat split; try constructor.
Qed.

Lemma extends_trans (P : nat -> Prop) (s1 s2 s3 : sim) :
  extends P s1 s2 -> extends P s2 s3 -> extends P s1 s3.
Proof.
  intros (Hs1 & n1 & W1 & L1 & K1 & F1) (Hs2 & n2 & W2 & L2 & K2 & F2).
  split; [eapply same_shape_trans; eassumption|].
  exists (n1 ++ n2). split; [rewrite W2, W1, app_assoc; reflexivity|].
  split; [apply Forall_app; now split|].
  split; [apply Forall_app; now split|].
  intros q Hq. eapply same_plane_trans.
  - apply F1. intros w Hw. apply Hq. apply in_or_app. now left.
  - apply F2. intros w Hw. apply Hq. apply in_or_app. now right.
Qed.

Lemma extends_weaken (P Q : nat -> Prop) (s1 s2 : sim) :
  (forall k, P k -> Q k) -> extends P s1 s2 -> extends Q s1 s2.
Proof.
  intros HPQ (Hs & n & W & L & K & F).
  split; [assumption|]. exists n. repeat split; try assumption.
  eapply Forall_impl; [|exact K]. intros w. apply HPQ.
Qed.

Lemma star_step_stars (mp : modelParam) (saveFiles : list ndarray3)
    (sweetSpot : sweet_spot) (dimX dimY : Z) (kPA : nat) (s : star)
    (st st' : sim) :
  star_step mp saveFiles sweetSpot dimX dimY kPA s st = Ret st' ->
  stars st' = stars st.
Proof.
  unfold star_step. intros H.
  apply bind_Ret in H. destruct H as (k & _ & H).
  destruct (subsection _ _ _ _ _) as [w|]; [|now injection H as <-].
  apply bind_Ret in H. destruct H as (st1 & H1 & H2).
  assert (E1 : stars st1 = stars st).
  { destruct (_ && _ && _) in H1; [|now injection H1 as <-].
    repeat (apply bind_Ret in H1; destruct H1 as (? & _ & H1)).
    now injection H1 as <-. }
  destruct (_ || _) in H2; [|injection H2 as <-; exact E1].
  repeat (apply bind_Ret in H2; destruct H2 as (? & _ & H2)).
  injection H2 as <-. exact E1.
Qed.

Lemma star_step_extends (mp : modelParam) (saveFiles : list ndarray3)
    (sweetSpot : sweet_spot) (dimX dimY : Z) (kPA : nat) (s : star)
    (st st' : sim) :
  star_step mp saveFiles sweetSpot dimX dimY kPA s st = Ret st' ->
  extends (eq kPA) st st'.
Proof.
  unfold star_step. intros H.
  apply bind_Ret in H. destruct H as (k & _ & H).
  destruct (subsection _ _ _ _ _) as [w|];
    [|injection H as <-; apply extends_refl].
  apply bind_Ret in H. destruct H as (st1 & H1 & H2).
  apply extends_trans with st1.
  - (* the target's two orders *)
    destruct (Z.eqb_spec (round (dx s)) 0) as [Ex|]; simpl in H1;
      [|injection H1 as <-; apply extends_refl].
    destruct (Z.eqb_spec (round (dy s)) 0) as [Ey|]; simpl in H1;
      [|injection H1 as <-; apply extends_refl].
    destruct (Nat.eqb_spec kPA 0) as [Ek|]; simpl in H1;
      [|injection H1 as <-; apply extends_refl].
    apply bind_Ret in H1. destruct H1 as (m & _ & H1).
    apply bind_Ret in H1. destruct H1 as (v0 & _ & H1).
    apply bind_Ret in H1. destruct H1 as (c0 & S0 & H1).
    apply bind_Ret in H1. destruct H1 as (v1 & _ & H1).
    apply bind_Ret in H1. destruct H1 as (c1 & S1 & H1).
    injection H1 as <-. split; simpl.
    + eapply same_shape_trans; eapply store_same_shape; try eassumption; lia.
    + eexists. split; [reflexivity|].
      split; [|split].
      * apply Forall_cons; [|apply Forall_cons; [|apply Forall_nil]];
          left; simpl; unfold zero_offset; auto.
      * apply Forall_cons; [|apply Forall_cons; [|apply Forall_nil]];
          reflexivity.
      * intros q Hq. eapply same_plane_trans.
        -- eapply store_other_plane; [| |exact S0]; [lia|].
           intros ->. eapply (Hq _ (or_introl eq_refl)). reflexivity.
        -- eapply store_other_plane; [| |exact S1]; [lia|].
           intros ->. eapply (Hq _ (or_intror (or_introl eq_refl))). reflexivity.
  - (* a field star *)
    destruct (negb (round (dx s) =? 0) || negb (round (dy s) =? 0)) eqn:Hnz;
      [|injection H2 as <-; apply extends_refl].
    apply bind_Ret in H2. destruct H2 as (v & _ & H2).
    apply bind_Ret in H2. destruct H2 as (c & S2 & H2).
    injection H2 as <-. split; simpl.
    + eapply store_same_shape; [|exact S2]. lia.
    + eexists. split; [reflexivity|].
      split; [|split].
      * apply Forall_cons; [|apply Forall_nil].
        right. simpl. repeat split.
        intros [Zx Zy]. rewrite Zx, Zy in Hnz. discriminate.
      * apply Forall_cons; [|apply Forall_nil]. reflexivity.
      * intros q Hq. eapply store_other_plane; [| |exact S2]; [lia|].
        intros ->. eapply (Hq _ (or_introl eq_refl)). reflexivity.
Qed.

Lemma targetb_spec (s : star) : reflect (zero_offset s) (targetb s).
Proof.
  unfold targetb, zero_offset.
  destruct (Z.eqb_spec (round (dx s)) 0), (Z.eqb_spec (round (dy s)) 0);
    simpl; constructor; tauto.
Qed.

Lemma star_step_writes (mp : modelParam) (saveFiles : list ndarray3)
    (sweetSpot : sweet_spot) (dimX dimY : Z) (kPA : nat) (s : star)
    (st st' : sim) :
  star_step mp saveFiles sweetSpot dimX dimY kPA s st = Ret st' ->
  writes st' = writes st ++ star_writes mp dimX dimY kPA s.
Proof.
  unfold star_step, star_writes, targetb. intros H.
  apply bind_Ret in H. destruct H as (k & _ & H).
  destruct (subsection _ _ _ _ _) as [w|];
    [|injection H as <-; now rewrite app_nil_r].
  apply bind_Ret in H. destruct H as (st1 & H1 & H2).
  rewrite negb_andb.
  destruct (round (dx s) =? 0), (round (dy s) =? 0), (kPA =? 0)%nat;
    simpl in *;
    try (injection H1 as <-);
    try (injection H2 as <-; now rewrite app_nil_r);
    repeat (apply bind_Ret in H1; destruct H1 as (? & _ & H1));
    repeat (apply bind_Ret in H2; destruct H2 as (? & _ & H2));
    try (injection H1 as <-); try (injection H2 as <-);
    simpl; rewrite ?app_nil_r; reflexivity.
Qed.

(** *** One angle, and the sweep *)

Lemma angle_step_extends (mp : modelParam) (saveFiles : list ndarray3)
    (sweetSpot : sweet_spot) (dimX dimY : Z) (kPA : nat) (APA : Z)
    (st st' : sim) :
  angle_step mp saveFiles sweetSpot dimX dimY kPA APA st = Ret st' ->
  extends (eq kPA) st st'.
Proof.
  unfold angle_step. intros H.
  eapply extends_trans; [|eapply (@foldM_invariant _ _
      (star_step mp saveFiles sweetSpot dimX dimY kPA) (fun _ => True)
      (extends (eq kPA)))];
    [ | apply extends_refl | apply extends_trans
      | intros a s s' _; apply star_step_extends | | exact H ].
  - split; [apply same_shape_refl|]. exists []. simpl. rewrite app_nil_r.
    repeat split; try constructor.
  - apply Forall_forall. trivial.
Qed.

Lemma sweep_extends (mp : modelParam) (saveFiles : list ndarray3)
    (sweetSpot : sweet_spot) (dimX dimY : Z) (PAtab : list Z)
    (kPAs : list nat) (st st' : sim) :
  sweep mp saveFiles sweetSpot dimX dimY PAtab kPAs st = Ret st' ->
  extends (fun k => In k kPAs) st st'.
Proof.
  unfold sweep. intros H.
  eapply (@foldM_invariant _ _ _ (fun k => In k kPAs)
            (extends (fun k => In k kPAs)));
    [apply extends_refl | apply extends_trans | | | exact H].
  - intros k s s' Hk Hs.
    apply bind_Ret in Hs. destruct Hs as (APA & _ & Hs).
    eapply extends_weaken; [|eapply angle_step_extends; exact Hs].
    now intros ? <-.
  - apply Forall_forall. trivial.
Qed.

(** What every later angle leaves alone: a sweep over angle indices
    other than 0 adds to planes 2 and up only. *)
Lemma later_angles_keep_reference_planes (P : nat -> Prop) (st st' : sim) :
  (forall k, P k -> k <> 0%nat) ->
  extends P st st' ->
  same_plane (simuCube st) (simuCube st') 0
  /\ same_plane (simuCube st) (simuCube st') 1
  /\ exists later, writes st' = writes st ++ later
       /\ Forall (fun w => w_kind w = Added
                           /\ w_plane w = Z.of_nat (w_kPA w) + 2
                           /\ (1 <= w_kPA w)%nat) later.
Proof.
  intros HP (_ & new & W & L & K & F).
  assert (A : Forall (fun w => w_kind w = Added
                               /\ w_plane w = Z.of_nat (w_kPA w) + 2
                               /\ (1 <= w_kPA w)%nat) new).
  { rewrite Forall_forall in *. intros w Hw.
    specialize (L w Hw). specialize (K w Hw). apply HP in K.
    destruct L as [(_ & _ & E & _) | (E1 & E2 & _)]; [contradiction|].
    repeat split; try assumption. lia. }
  split; [|split].
  - apply F. intros w Hw. rewrite Forall_forall in A.
    destruct (A w Hw) as (_ & E & _). lia.
  - apply F. intros w Hw. rewrite Forall_forall in A.
    destruct (A w Hw) as (_ & E & _). lia.
  - exists new. now split.
Qed.

(** *** Rounding and comparisons *)

Lemma Rleb_true (a b : R) : (a <= b)%R -> Rleb a b = true.
Proof. intros H. unfold Rleb. destruct (Rle_dec a b); [reflexivity | contradiction]. Qed.

Lemma Rleb_false (a b : R) : (b < a)%R -> Rleb a b = false.
Proof. intros H. unfold Rleb. destruct (Rle_dec a b); [lra | reflexivity]. Qed.

Lemma Int_part_eq (r : R) (z : Z) :
  (IZR z <= r < IZR z + 1)%R -> Int_part r = z.
Proof.
  intros H. symmetry. apply Int_part_spec. lra.
Qed.

(** Within half a pixel of an integer, [round] gives that integer. *)
Lemma round_near (r : R) (z : Z) :
  (IZR z - 1 / 2 < r < IZR z + 1 / 2)%R -> round r = z.
Proof.
  intros H. unfold round.
  destruct (Rle_lt_dec (IZR z) r) as [Hge|Hlt].
  - rewrite (@Int_part_eq r z) by lra.
    destruct (Rlt_dec (r - IZR z) (1 / 2)); [reflexivity | lra].
  - assert (E : Int_part r = z - 1).
    { apply Int_part_eq. rewrite minus_IZR. lra. }
    rewrite E. rewrite minus_IZR.
    destruct (Rlt_dec (r - (IZR z - 1)) (1 / 2)); [lra|].
    destruct (Rlt_dec (1 / 2) (r - (IZR z - 1))); [lia | lra].
Qed.

Lemma round_0 : round 0 = 0.
Proof. apply round_near. simpl. lra. Qed.

Lemma round_IZR (z : Z) : round (IZR z) = z.
Proof. apply round_near. lra. Qed.

(** *** The projection *)

Lemma project_zero_offset (sweetSpot : sweet_spot) (APA : R) (s : star) :
  dRA s = 0%R -> dDEC s = 0%R ->
  dx (project sweetSpot APA s) = 0%R
  /\ dy (project sweetSpot APA s) = 0%R
  /\ x (project sweetSpot APA s) = sweet_x sweetSpot
  /\ y (project sweetSpot APA s) = sweet_y sweetSpot.
Proof.
  intros Ha Hd. unfold project, niriss_pixel_scale. simpl.
  rewrite Ha, Hd.
  repeat split; field.
Qed.

(** Projection reads [dRA] and [dDEC] only, and keeps them. *)
Lemma project_offsets (sweetSpot : sweet_spot) (APA : R) (s : star) :
  dRA (project sweetSpot APA s) = dRA s
  /\ dDEC (project sweetSpot APA s) = dDEC s
  /\ jmag (project sweetSpot APA s) = jmag s
  /\ T (project sweetSpot APA s) = T s.
Proof. repeat split. Qed.

(** *** The colour classifier *)

Lemma argmin_from_spec (t pre : list R) (best_i : nat) (best : R) :
  (best_i < List.length pre)%nat ->
  nth best_i pre 0%R = best ->
  (forall j, (j < List.length pre)%nat -> (best <= nth j pre 0)%R) ->
  (forall j, (j < best_i)%nat -> (best < nth j pre 0)%R) ->
  let r := argmin_from best_i best (List.length pre) t in
  (r < List.length (pre ++ t))%nat
  /\ (forall j, (j < List.length (pre ++ t))%nat ->
                (nth r (pre ++ t) 0 <= nth j (pre ++ t) 0)%R)
  /\ (forall j, (j < r)%nat -> (nth r (pre ++ t) 0 < nth j (pre ++ t) 0)%R).
Proof.
  revert pre best_i best.
  induction t as [|a t IH]; intros pre best_i best Hlt Hbest Hmin Hfirst; simpl.
  - rewrite app_nil_r. rewrite Hbest. repeat split; assumption.
  - assert (Hlen : List.length (pre ++ [a]) = S (List.length pre)).
    { rewrite length_app. simpl. lia. }
    assert (Hpre : forall j, (j < List.length pre)%nat ->
                             nth j (pre ++ [a]) 0%R = nth j pre 0%R).
    { intros j Hj. now apply app_nth1. }
    assert (Ha : nth (List.length pre) (pre ++ [a]) 0%R = a).
    { rewrite app_nth2 by lia. now rewrite Nat.sub_diag. }
    replace (pre ++ a :: t) with ((pre ++ [a]) ++ t)
      by (rewrite <- app_assoc; reflexivity).
    rewrite <- Hlen.
    destruct (Rlt_dec a best) as [Hab|Hab].
    + apply IH.
      * lia.
      * exact Ha.
      * intros j Hj. rewrite Hlen in Hj.
        destruct (Nat.eq_dec j (List.length pre)) as [->|Hne].
        -- rewrite Ha. lra.
        -- rewrite Hpre by lia. specialize (Hmin j ltac:(lia)). lra.
      * intros j Hj.
        rewrite Hpre by lia. specialize (Hmin j ltac:(lia)). lra.
    + apply IH.
      * lia.
      * rewrite Hpre by lia. exact Hbest.
      * intros j Hj. rewrite Hlen in Hj.
        destruct (Nat.eq_dec j (List.length pre)) as [->|Hne].
        -- rewrite Ha. lra.
        -- rewrite Hpre by lia. apply Hmin. lia.
      * intros j Hj. rewrite Hpre by lia. now apply Hfirst.
Qed.

(** [np.argmin] returns the first index of the least element. *)
Lemma argmin_spec (l : list R) :
  l <> [] ->
  exists i, argmin l = Ret i
    /\ (i < List.length l)%nat
    /\ (forall j, (j < List.length l)%nat -> (nth i l 0 <= nth j l 0)%R)
    /\ (forall j, (j < i)%nat -> (nth i l 0 < nth j l 0)%R).
Proof.
  destruct l as [|a t]; [congruence|]. intros _.
  exists (argmin_from 0 a 1 t). split; [reflexivity|].
  apply (@argmin_from_spec t [a] 0%nat a).
  - simpl. lia.
  - reflexivity.
  - intros j Hj. simpl in Hj. replace j with 0%nat by lia. simpl. lra.
  - intros j Hj. lia.
Qed.

Lemma zip_with_length (f : R -> R -> R) (l1 l2 : list R) :
  List.length l1 = List.length l2 ->
  List.length (zip_with f l1 l2) = List.length l1.
Proof.
  intros H. unfold zip_with. rewrite length_map, length_combine. lia.
Qed.

Lemma zip_with_nth (f : R -> R -> R) (l1 l2 : list R) (j : nat) (d1 d2 d : R) :
  List.length l1 = List.length l2 -> (j < List.length l1)%nat ->
  nth j (zip_with f l1 l2) d = f (nth j l1 d1) (nth j l2 d2).
Proof.
  revert l2 j. induction l1 as [|a l1 IH]; intros [|b l2] j Hlen Hj;
    simpl in *; try lia.
  destruct j as [|j]; [reflexivity|]. apply IH; lia.
Qed.

Lemma color_separation_spec (mp : modelParam) (jh hk : R) :
  List.length (jhMod mp) = List.length (hkMod mp) ->
  exists sep, color_separation mp jh hk = Ret sep
    /\ List.length sep = List.length (jhMod mp)
    /\ forall j, (j < List.length (jhMod mp))%nat ->
                 nth j sep 0%R = sq_distance mp jh hk j.
Proof.
  intros Hlen. unfold color_separation, broadcast_with.
  rewrite !length_map, Hlen, Nat.eqb_refl.
  eexists. split; [reflexivity|]. split.
  - rewrite zip_with_length; rewrite !length_map; auto.
  - intros j Hj. unfold sq_distance.
    rewrite (@zip_with_nth Rplus _ _ j ((jh - 0) ^ 2)%R ((hk - 0) ^ 2)%R 0%R);
      rewrite ?length_map; auto; try lia.
    rewrite (map_nth (fun m => ((jh - m) ^ 2)%R)).
    rewrite (map_nth (fun m => ((hk - m) ^ 2)%R)). reflexivity.
Qed.

(** *** The loop body returns *)

Lemma where_first_lt (l : list R) (v : R) (k : nat) :
  where_first l v = Some k -> (k < List.length l)%nat /\ nth k l 0%R = v.
Proof.
  revert k. induction l as [|a l IH]; intros k H; simpl in *; [discriminate|].
  destruct (Req_dec_T a v) as [->|Hne].
  - injection H as <-. split; [lia | reflexivity].
  - destruct (where_first l v) as [k'|]; [|discriminate].
    injection H as <-. destruct (IH k' eq_refl). split; [lia | assumption].
Qed.

Lemma where_first_In (l : list R) (v : R) :
  In v l -> exists k, where_first l v = Some k.
Proof.
  induction l as [|a l IH]; intros H; simpl in *; [contradiction|].
  destruct (Req_dec_T a v) as [->|Hne]; [eauto|].
  destruct H as [H|H]; [contradiction|].
  destruct (IH H) as (k & ->). simpl. eauto.
Qed.

Lemma broadcastable_refl (n : Z) : broadcastable n n = true.
Proof. unfold broadcastable. now rewrite Z.eqb_refl. Qed.

(** A store of a model cut-out through a window that fits returns. *)
Lemma store_window_ok (upd : R -> R -> R) (mp : modelParam) (dimX dimY : Z)
    (w : window) (a c : ndarray3) (k p : Z) (f : R) :
  window_fits mp dimX dimY w ->
  dim1 a = dimYmod mp -> dim2 a = dimXmod mp -> 0 <= k < dim0 a ->
  dim1 c = dimY -> dim2 c = dimX -> 0 <= p < dim0 c ->
  exists v c',
    view a k (my0 w) (my1 w) (mx0 w) (mx1 w) = Ret v
    /\ store upd c p (y0 w) (y0 w + my1 w - my0 w) (x0 w)
             (x0 w + mx1 w - mx0 w) (scale v f) = Ret c'
    /\ same_shape c c'.
Proof.
  intros F A1 A2 Hk C1 C2 Hp.
  destruct F as (_ & _ & _ & _ & _ & _ & _ & _ & L1 & L2 & L3 & L4).
  unfold view. rewrite (scalar_index_ok Hk). simpl.
  eexists. eexists. split; [reflexivity|].
  unfold store. rewrite (scalar_index_ok Hp). simpl.
  rewrite A1, A2, C1, C2, L1, L2, L3, L4, !broadcastable_refl. simpl.
  split; [reflexivity|]. repeat split; simpl; congruence.
Qed.

Lemma star_step_returns (mp : modelParam) (saveFiles : list ndarray3)
    (sweetSpot : sweet_spot) (dimX : Z) (kPA : nat) (s : star) (st : sim) (n : Z) :
  params_ok mp saveFiles -> 0 <= dimX ->
  In (T s) (teffMod mp) ->
  cube_ok dimX dimY n (simuCube st) -> Z.of_nat kPA + 2 < n ->
  exists st', star_step mp saveFiles sweetSpot dimX dimY kPA s st = Ret st'
              /\ cube_ok dimX dimY n (simuCube st').
Proof.
  intros (HXm & HYm & M1 & M2 & M0 & Hfiles & Hshape) HX HT (C0 & C1 & C2) Hk.
  unfold star_step.
  destruct (where_first_In _ _ HT) as (k & Ek). rewrite Ek. simpl.
  destruct (where_first_lt _ _ Ek) as (Hklt & _).
  destruct (subsection mp dimX dimY (round (dx s)) (round (dy s))) as [w|] eqn:Ew;
    [|exists st; repeat split; assumption].
  assert (F : window_fits mp dimX dimY w).
  { eapply window_fits_of_subsection; try eassumption. unfold dimY. lia. }
  assert (Hst1 : exists st1,
    (if (round (dx s) =? 0) && (round (dy s) =? 0) && (kPA =? 0)%nat
     then
       modelO12 <- index saveFiles k ;;
       v0 <- view modelO12 0 (my0 w) (my1 w) (mx0 w) (mx1 w) ;;
       c0 <- store assign (simuCube st) 0 (y0 w) (y0 w + my1 w - my0 w) (x0 w)
               (x0 w + mx1 w - mx0 w) (scale v0 (fluxscale_of sweetSpot s)) ;;
       v1 <- view modelO12 1 (my0 w) (my1 w) (mx0 w) (mx1 w) ;;
       c1 <- store assign c0 1 (y0 w) (y0 w + my1 w - my0 w) (x0 w)
               (x0 w + mx1 w - mx0 w) (scale v1 (fluxscale_of sweetSpot s)) ;;
       Ret {| stars := stars st; simuCube := c1;
              writes := writes st
                ++ [ {| w_kind := Assigned; w_plane := 0;
                        w_kPA := kPA; w_star := s |};
                     {| w_kind := Assigned; w_plane := 1;
                        w_kPA := kPA; w_star := s |} ] |}
     else Ret st)%py = Ret st1 /\ cube_ok dimX dimY n (simuCube st1)).
  { destruct ((round (dx s) =? 0) && (round (dy s) =? 0) && (kPA =? 0)%nat);
      [|exists st; repeat split; assumption].
    destruct (nth_error saveFiles k) as [m|] eqn:Em.
    2: { apply nth_error_None in Em. lia. }
    unfold index. rewrite Em. simpl.
    rewrite Forall_forall in Hshape.
    destruct (Hshape m (nth_error_In _ _ Em)) as (m0 & m1 & m2).
    destruct (@store_window_ok assign mp dimX dimY w m (simuCube st) 0 0
                (fluxscale_of sweetSpot s) F m1 m2 ltac:(lia) C1 C2 ltac:(lia))
      as (v0 & c0 & V0 & S0 & (sh0 & sh1 & sh2)).
    rewrite V0. simpl. rewrite S0. simpl.
    destruct (@store_window_ok assign mp dimX dimY w m c0 1 1
                (fluxscale_of sweetSpot s) F m1 m2 ltac:(lia)
                ltac:(congruence) ltac:(congruence) ltac:(lia))
      as (v1 & c1 & V1 & S1 & (sh0' & sh1' & sh2')).
    rewrite V1. simpl. rewrite S1. simpl.
    eexists. split; [reflexivity|]. simpl.
    repeat split; congruence. }
  destruct Hst1 as (st1 & -> & (D0 & D1 & D2)). simpl.
  destruct (negb (round (dx s) =? 0) || negb (round (dy s) =? 0));
    [|exists st1; repeat split; assumption].
  destruct (@store_window_ok iadd mp dimX dimY w (models mp) (simuCube st1)
              (Z.of_nat k) (Z.of_nat kPA + 2)
              (fluxscale_of sweetSpot s) F M1 M2 ltac:(lia) D1 D2 ltac:(lia))
    as (v & c & V & S & (sh0 & sh1 & sh2)).
  rewrite V. simpl. rewrite S. simpl.
  eexists. split; [reflexivity|]. simpl. repeat split; congruence.
Qed.

Lemma foldM_returns {A S : Type} (f : A -> S -> outcome S)
    (P : A -> Prop) (I : S -> Prop) :
  (forall a s, P a -> I s -> exists s', f a s = Ret s' /\ I s') ->
  forall l s, Forall P l -> I s -> exists s', foldM f l s = Ret s' /\ I s'.
Proof.
  intros Hstep l. induction l as [|a l IH]; intros s HP HI; simpl.
  - eauto.
  - inversion HP; subst.
    destruct (Hstep a s) as (s1 & -> & HI1); try assumption. simpl.
    now apply IH.
Qed.

Lemma project_project (sweetSpot : sweet_spot) (A B : R) (s : star) :
  project sweetSpot A (project sweetSpot B s) = project sweetSpot A s.
Proof. reflexivity. Qed.

Lemma map_project_project (sweetSpot : sweet_spot) (A B : R) (l : list star) :
  map (project sweetSpot A) (map (project sweetSpot B) l)
  = map (project sweetSpot A) l.
Proof. rewrite map_map. apply map_ext. intros s. apply project_project. Qed.

Lemma classified_project (mp : modelParam) (sweetSpot : sweet_spot) (A : R)
    (l : list star) :
  classified mp l -> classified mp (map (project sweetSpot A) l).
Proof.
  unfold classified. rewrite !Forall_forall. intros H s Hs.
  apply in_map_iff in Hs. destruct Hs as (s0 & <- & Hs0). simpl. now apply H.
Qed.

Lemma angle_step_stars (mp : modelParam) (saveFiles : list ndarray3)
    (sweetSpot : sweet_spot) (dimX dimY : Z) (kPA : nat) (APA : Z)
    (st st' : sim) :
  angle_step mp saveFiles sweetSpot dimX dimY kPA APA st = Ret st' ->
  stars st' = map (project sweetSpot (IZR APA)) (stars st).
Proof.
  unfold angle_step. intros H.
  apply (@foldM_invariant _ _ (star_step mp saveFiles sweetSpot dimX dimY kPA)
           (fun _ => True) (fun s s' => stars s' = stars s)) in H; auto.
  - intros; congruence.
  - intros a s s' _ Hs. eapply star_step_stars; eassumption.
  - apply Forall_forall. trivial.
Qed.

Lemma angle_step_writes (mp : modelParam) (saveFiles : list ndarray3)
    (sweetSpot : sweet_spot) (dimX dimY : Z) (kPA : nat) (APA : Z)
    (st st' : sim) :
  angle_step mp saveFiles sweetSpot dimX dimY kPA APA st = Ret st' ->
  writes st' = writes st
               ++ angle_writes mp sweetSpot dimX dimY kPA APA (stars st).
Proof.
  unfold angle_step, angle_writes.
  generalize (filter in_FOV (map (project sweetSpot (IZR APA)) (stars st))).
  intros l.
  change (writes st) with
    (writes {| stars := map (project sweetSpot (IZR APA)) (stars st);
               simuCube := simuCube st; writes := writes st |}) at 2.
  generalize {| stars := map (project sweetSpot (IZR APA)) (stars st);
                simuCube := simuCube st; writes := writes st |}.
  induction l as [|s l IH]; intros st0 H; simpl in *.
  - injection H as <-. now rewrite app_nil_r.
  - apply bind_Ret in H. destruct H as (st1 & H1 & H2).
    rewrite (IH _ H2), (star_step_writes _ _ _ _ _ _ _ _ H1), app_assoc.
    reflexivity.
Qed.

Lemma angle_writes_project (mp : modelParam) (sweetSpot : sweet_spot)
    (dimX dimY : Z) (kPA : nat) (APA : Z) (B : R) (l : list star) :
  angle_writes mp sweetSpot dimX dimY kPA APA (map (project sweetSpot B) l)
  = angle_writes mp sweetSpot dimX dimY kPA APA l.
Proof. unfold angle_writes. now rewrite map_project_project. Qed.

Lemma sweep_writes_project (mp : modelParam) (sweetSpot : sweet_spot)
    (dimX dimY : Z) (PAtab : list Z) (kPAs : list nat) (B : R) (l : list star) :
  sweep_writes mp sweetSpot dimX dimY PAtab kPAs (map (project sweetSpot B) l)
  = sweep_writes mp sweetSpot dimX dimY PAtab kPAs l.
Proof.
  unfold sweep_writes. induction kPAs as [|k ks IH]; simpl; [reflexivity|].
  now rewrite IH, angle_writes_project.
Qed.

Lemma index_nth (l : list Z) (k : nat) (a : Z) :
  index l k = Ret a -> nth k l 0 = a /\ (k < List.length l)%nat.
Proof.
  unfold index. destruct (nth_error l k) as [b|] eqn:E; simpl; [|discriminate].
  intros [= <-]. split; [now apply nth_error_nth | ].
  apply nth_error_Some. congruence.
Qed.

Lemma sweep_writes_spec (mp : modelParam) (saveFiles : list ndarray3)
    (sweetSpot : sweet_spot) (dimX dimY : Z) (PAtab : list Z)
    (kPAs : list nat) (st st' : sim) :
  sweep mp saveFiles sweetSpot dimX dimY PAtab kPAs st = Ret st' ->
  writes st' = writes st
               ++ sweep_writes mp sweetSpot dimX dimY PAtab kPAs (stars st).
Proof.
  unfold sweep. revert st.
  induction kPAs as [|k ks IH]; intros st H; simpl in *.
  - injection H as <-. now rewrite app_nil_r.
  - apply bind_Ret in H. destruct H as (st1 & H1 & H2).
    apply bind_Ret in H1. destruct H1 as (APA & HA & H1).
    apply index_nth in HA. destruct HA as [-> _].
    rewrite (IH _ H2), (angle_step_writes _ _ _ _ _ _ _ _ H1).
    rewrite (angle_step_stars _ _ _ _ _ _ _ _ H1).
    unfold sweep_writes at 2. simpl.
    fold (sweep_writes mp sweetSpot dimX dimY PAtab ks (stars st)).
    now rewrite sweep_writes_project, app_assoc.
Qed.

(** *** The loops return *)

Lemma angle_step_returns (mp : modelParam) (saveFiles : list ndarray3)
    (sweetSpot : sweet_spot) (dimX : Z) (kPA : nat) (APA : Z) (st : sim) (n : Z) :
  params_ok mp saveFiles -> 0 <= dimX ->
  classified mp (stars st) ->
  cube_ok dimX dimY n (simuCube st) -> Z.of_nat kPA + 2 < n ->
  exists st', angle_step mp saveFiles sweetSpot dimX dimY kPA APA st = Ret st'
              /\ cube_ok dimX dimY n (simuCube st')
              /\ classified mp (stars st').
Proof.
  intros Hp HX Hc Hcube Hk.
  pose proof (classified_project sweetSpot (IZR APA) Hc) as Hc1.
  destruct (@foldM_returns _ _
              (star_step mp saveFiles sweetSpot dimX dimY kPA)
              (fun s => In (T s) (teffMod mp))
              (fun s => cube_ok dimX dimY n (simuCube s))
              ltac:(intros a s Ha Hs; eapply star_step_returns; eassumption)
              (filter in_FOV (map (project sweetSpot (IZR APA)) (stars st)))
              {| stars := map (project sweetSpot (IZR APA)) (stars st);
                 simuCube := simuCube st; writes := writes st |})
    as (st' & Hst' & Hcube').
  - unfold classified in Hc1. rewrite Forall_forall in *.
    intros s Hs. apply filter_In in Hs. now apply Hc1.
  - exact Hcube.
  - exists st'. split; [exact Hst'|]. split; [exact Hcube'|].
    rewrite (angle_step_stars _ _ _ _ _ _ _ _ Hst'). exact Hc1.
Qed.

Lemma sweep_returns (mp : modelParam) (saveFiles : list ndarray3)
    (sweetSpot : sweet_spot) (dimX : Z) (PAtab : list Z) (kPAs : list nat)
    (st : sim) (n : Z) :
  params_ok mp saveFiles -> 0 <= dimX ->
  Forall (fun k => (k < List.length PAtab)%nat /\ Z.of_nat k + 2 < n) kPAs ->
  classified mp (stars st) ->
  cube_ok dimX dimY n (simuCube st) ->
  exists st', sweep mp saveFiles sweetSpot dimX dimY PAtab kPAs st = Ret st'.
Proof.
  intros Hp HX Hks Hc Hcube. unfold sweep.
  destruct (@foldM_returns _ _
              (fun kPA st =>
                 APA <- index PAtab kPA ;;
                 angle_step mp saveFiles sweetSpot dimX dimY kPA APA st)%py
              (fun k => (k < List.length PAtab)%nat /\ Z.of_nat k + 2 < n)
              (fun s => cube_ok dimX dimY n (simuCube s)
                        /\ classified mp (stars s)))
    with (l := kPAs) (s := st) as (st' & Hst' & _); auto.
  - intros k s (Hk1 & Hk2) (Hs1 & Hs2).
    unfold index. destruct (nth_error PAtab k) as [APA|] eqn:E.
    2: { apply nth_error_None in E. lia. }
    simpl. eapply angle_step_returns; eassumption.
  - eauto.
Qed.

(** *** Before the loop *)

Lemma argmin_lt (l : list R) (i : nat) :
  argmin l = Ret i -> (i < List.length l)%nat.
Proof.
  intros H. destruct l as [|a t]; [discriminate|].
  destruct (@argmin_spec (a :: t) ltac:(discriminate)) as (i' & E & Hlt & _).
  congruence.
Qed.

Lemma index_Ret {A : Type} (l : list A) (i : nat) (a : A) :
  index l i = Ret a -> nth_error l i = Some a.
Proof.
  unfold index. destruct (nth_error l i); simpl; congruence.
Qed.

Lemma index_lt {A : Type} (l : list A) (i : nat) :
  (i < List.length l)%nat -> exists a, index l i = Ret a.
Proof.
  intros H. unfold index. destruct (nth_error l i) as [a|] eqn:E.
  - simpl. eauto.
  - apply nth_error_None in E. lia.
Qed.

Lemma mapM_In {A B : Type} (f : A -> outcome B) (l : list A) (bs : list B) :
  mapM f l = Ret bs ->
  List.length bs = List.length l
  /\ forall b, In b bs -> exists a, In a l /\ f a = Ret b.
Proof.
  revert bs. induction l as [|a l IH]; intros bs H; simpl in *.
  - injection H as <-. split; [reflexivity | intros b []].
  - apply bind_Ret in H. destruct H as (b0 & Hb0 & H).
    apply bind_Ret in H. destruct H as (bs0 & Hbs0 & H).
    injection H as <-. destruct (IH _ Hbs0) as (Hlen & Hin).
    split; [simpl; congruence|].
    intros b [<-|Hb]; [eauto|].
    destruct (Hin b Hb) as (a' & Ha' & Hf). eauto.
Qed.

Lemma mapM_returns {A B : Type} (f : A -> outcome B) (l : list A) :
  (forall a, In a l -> exists b, f a = Ret b) ->
  exists bs, mapM f l = Ret bs.
Proof.
  induction l as [|a l IH]; intros H; simpl; [eauto|].
  destruct (H a (or_introl eq_refl)) as (b & ->). simpl.
  destruct IH as (bs & ->); [intros a' Ha'; apply H; now right|].
  simpl. eauto.
Qed.

(** The arrays of the field have one length, the number of stars, and
    the target is one of the stars. *)
Lemma read_field_lengths (targetRA targetDEC : R) (info : list catalog_row)
    (binComp : option companion) (f : field) :
  read_field targetRA targetDEC info binComp = Ret f ->
  let n := List.length (allRA f) in
  List.length (allDEC f) = n /\ List.length (Jmag f) = n
  /\ List.length (Hmag f) = n /\ List.length (Kmag f) = n
  /\ List.length (J_Hobs f) = n /\ List.length (H_Kobs f) = n
  /\ (targetIndex f < n)%nat
  /\ n = (List.length info + match binComp with Some _ => 1 | None => 0 end)%nat.
Proof.
  unfold read_field. intros H.
  apply bind_Ret in H. destruct H as (t & Ht & H).
  apply argmin_lt in Ht.
  rewrite zip_with_length in Ht by (now rewrite !length_map).
  rewrite length_map in Ht.
  destruct binComp as [b|].
  - apply bind_Ret in H. destruct H as (raT & _ & H).
    apply bind_Ret in H. destruct H as (decT & _ & H).
    injection H as <-. simpl.
    rewrite !zip_with_length
      by (rewrite ?length_app, ?length_map; simpl; lia).
    rewrite ?length_app, ?length_map. simpl. lia.
  - injection H as <-. simpl.
    rewrite !zip_with_length by (rewrite ?length_map; lia).
    rewrite ?length_map. lia.
Qed.

Lemma read_field_returns (targetRA targetDEC : R) (info : list catalog_row)
    (binComp : option companion) :
  info <> [] ->
  exists f, read_field targetRA targetDEC info binComp = Ret f.
Proof.
  intros Hne. unfold read_field.
  match goal with |- context [argmin ?l] =>
    destruct (@argmin_spec l) as (t & Ht & Hlt & _) end.
  { destruct info; [congruence | discriminate]. }
  rewrite Ht. simpl.
  rewrite zip_with_length in Hlt by (now rewrite !length_map).
  rewrite length_map in Hlt.
  destruct binComp as [b|]; [|eauto].
  destruct (@index_lt _ (map ra info) t) as (raT & ->);
    [now rewrite length_map|].
  destruct (@index_lt _ (map dec info) t) as (decT & ->);
    [now rewrite length_map|].
  simpl. eauto.
Qed.

Lemma assign_Teff_In (mp : modelParam) (jh hk t : R) :
  assign_Teff mp jh hk = Ret t -> In t (teffMod mp).
Proof.
  unfold assign_Teff. intros H.
  apply bind_Ret in H. destruct H as (sep & _ & H).
  apply bind_Ret in H. destruct H as (i & _ & H).
  apply index_Ret in H. eapply nth_error_In; eassumption.
Qed.

Lemma nth_error_seq0 (n t : nat) :
  (t < n)%nat -> nth_error (seq 0 n) t = Some t.
Proof.
  intros H. rewrite (nth_error_nth' _ 0%nat) by (now rewrite length_seq).
  now rewrite seq_nth.
Qed.

Lemma nPA_360 : nPA = 360%nat /\ PAtab = map Z.of_nat (seq 0 360).
Proof.
  unfold nPA, PAtab, arange, PAmin, PAmax, dPA.
  replace (Z.to_nat ((360 - 0 + 1 - 1) / 1)) with 360%nat by reflexivity.
  split; [now rewrite length_map, length_seq|].
  apply map_ext. intros i. lia.
Qed.

(** What the code before the loop establishes: the sweet spot is pixel
    (856, 107), the cube is all zeros and of the size of the sweep, every
    star has a temperature of the table, and the target has no offset
    from itself. *)
Lemma setup_spec (targetRA targetDEC : R) (info : list catalog_row)
    (binComp : option companion) (dimX : Z) (mp : modelParam)
    (t : nat) (ss : sweet_spot) (st0 : sim) :
  setup targetRA targetDEC info binComp dimX mp = Ret (t, ss, st0) ->
  sweet_x ss = 856%R /\ sweet_y ss = 107%R
  /\ writes st0 = [] /\ 0 <= dimX
  /\ cube_ok dimX dimY (Z.of_nat nPA + 2) (simuCube st0)
  /\ (forall q y x, at3 (simuCube st0) q y x = 0%R)
  /\ classified mp (stars st0)
  /\ exists s, nth_error (stars st0) t = Some s
               /\ dRA s = 0%R /\ dDEC s = 0%R /\ jmag s = sweet_jmag ss.
Proof.
  unfold setup. intros H.
  apply bind_Ret in H. destruct H as (f & Hf & H).
  apply bind_Ret in H. destruct H as (raT & HraT & H).
  apply bind_Ret in H. destruct H as (decT & HdecT & H).
  apply bind_Ret in H. destruct H as (starsT & HT & H).
  apply bind_Ret in H. destruct H as (jT & HjT & H).
  apply bind_Ret in H. destruct H as (cube & Hcube & H).
  injection H as <- <- <-. simpl.
  apply read_field_lengths in Hf. simpl in Hf.
  destruct Hf as (_ & _ & _ & _ & _ & _ & Hlt & _).
  unfold zeros in Hcube.
  destruct (Z.ltb_spec (Z.of_nat nPA + 2) 0); simpl in Hcube; [discriminate|].
  destruct (Z.ltb_spec dimY 0); simpl in Hcube; [discriminate|].
  destruct (Z.ltb_spec dimX 0); simpl in Hcube; [discriminate|].
  injection Hcube as <-. simpl.
  split; [reflexivity|]. split; [reflexivity|]. split; [reflexivity|].
  split; [assumption|]. split; [repeat split|]. split; [reflexivity|].
  apply mapM_In in HT. destruct HT as (HlenT & HinT).
  rewrite length_seq in HlenT.
  split.
  - unfold classified, build_stars. rewrite Forall_forall.
    intros s Hs. apply in_map_iff in Hs. destruct Hs as (j & <- & Hj).
    apply in_seq in Hj. simpl.
    destruct (HinT (nth j starsT 0%R)) as (j' & _ & Hj').
    { apply nth_In. lia. }
    apply bind_Ret in Hj'. destruct Hj' as (jh & _ & Hj').
    apply bind_Ret in Hj'. destruct Hj' as (hk & _ & Hj').
    eapply assign_Teff_In; eassumption.
  - eexists. split.
    { unfold build_stars. apply map_nth_error. now apply nth_error_seq0. }
    simpl. apply index_Ret in HraT, HdecT, HjT.
    rewrite (nth_error_nth _ _ _
               (map_nth_error (fun a => ((a - raT) * cos (decT / radeg) * 3600)%R)
                              _ _ HraT)).
    rewrite (nth_error_nth _ _ _
               (map_nth_error (fun d => ((d - decT) * 3600)%R) _ _ HdecT)).
    rewrite (nth_error_nth _ _ _ HjT).
    repeat split; ring.
Qed.

(** The code before the loop returns for a catalogue that is not empty,
    a colour table of three arrays of one non-zero length and a frame
    width that is not negative. *)
Lemma setup_returns (targetRA targetDEC : R) (info : list catalog_row)
    (binComp : option companion) (dimX : Z) (mp : modelParam) :
  info <> [] ->
  jhMod mp <> [] ->
  List.length (jhMod mp) = List.length (hkMod mp) ->
  List.length (teffMod mp) = List.length (jhMod mp) ->
  0 <= dimX ->
  exists r, setup targetRA targetDEC info binComp dimX mp = Ret r.
Proof.
  intros Hinfo Hne Hlen1 Hlen2 HX. unfold setup.
  destruct (read_field_returns targetRA targetDEC binComp Hinfo) as (f & Hf).
  rewrite Hf. simpl.
  apply read_field_lengths in Hf. simpl in Hf.
  destruct Hf as (L1 & L2 & L3 & L4 & L5 & L6 & Hlt & _).
  destruct (@index_lt _ (allRA f) (targetIndex f) Hlt) as (raT & ->). simpl.
  destruct (@index_lt _ (allDEC f) (targetIndex f) ltac:(lia)) as (decT & ->).
  simpl.
  destruct (@mapM_returns _ _
              (fun j => jh <- index (J_Hobs f) j ;;
                        hk <- index (H_Kobs f) j ;;
                        assign_Teff mp jh hk)%py
              (seq 0 (List.length (allRA f)))) as (starsT & HT).
  { intros j Hj. apply in_seq in Hj.
    destruct (@index_lt _ (J_Hobs f) j ltac:(lia)) as (jh & ->). simpl.
    destruct (@index_lt _ (H_Kobs f) j ltac:(lia)) as (hk & ->). simpl.
    unfold assign_Teff.
    destruct (color_separation_spec mp jh hk Hlen1) as (sep & -> & Hsl & _).
    simpl.
    destruct (@argmin_spec sep) as (i & -> & Hi & _).
    { destruct sep; [|discriminate]. simpl in Hsl.
      destruct (jhMod mp); [congruence | discriminate]. }
    simpl. apply index_lt. lia. }
  unfold assign_all_Teff. rewrite HT. simpl.
  destruct (@index_lt _ (Jmag f) (targetIndex f) ltac:(lia)) as (jT & ->).
  simpl. unfold zeros.
  destruct (Z.ltb_spec (Z.of_nat nPA + 2) 0); [lia|].
  destruct (Z.ltb_spec dimY 0); [unfold dimY in *; lia|].
  destruct (Z.ltb_spec dimX 0); [lia|].
  simpl. eauto.
Qed.

(** *** Counting the assignments to the reference planes *)

Lemma count_assigned_app (p : Z) (l1 l2 : list cube_write) :
  count_assigned p (l1 ++ l2)
  = (count_assigned p l1 + count_assigned p l2)%nat.
Proof. unfold count_assigned. now rewrite filter_app, length_app. Qed.

Lemma count_assigned_star (mp : modelParam) (dimX dimY : Z) (kPA : nat)
    (s : star) (p : Z) :
  p = 0 \/ p = 1 ->
  count_assigned p (star_writes mp dimX dimY kPA s)
  = if targetb s && has_window mp dimX dimY s && (kPA =? 0)%nat
    then 1%nat else 0%nat.
Proof.
  intros Hp. unfold star_writes, has_window, count_assigned.
  destruct (subsection _ _ _ _ _); [|now rewrite andb_false_r].
  destruct (targetb s), (kPA =? 0)%nat; simpl; unfold is_assignment; simpl;
    destruct Hp as [-> | ->]; reflexivity.
Qed.

Lemma count_assigned_angle (mp : modelParam) (sweetSpot : sweet_spot)
    (dimX dimY : Z) (kPA : nat) (APA : Z) (l : list star) (p : Z) :
  p = 0 \/ p = 1 ->
  count_assigned p (angle_writes mp sweetSpot dimX dimY kPA APA l)
  = if (kPA =? 0)%nat
    then List.length (reference_writers mp sweetSpot dimX dimY APA l)
    else 0%nat.
Proof.
  intros Hp. unfold angle_writes, reference_writers.
  induction (filter in_FOV (map (project sweetSpot (IZR APA)) l)) as [|s l' IH];
    simpl.
  - now destruct (kPA =? 0)%nat.
  - rewrite count_assigned_app, IH, (count_assigned_star _ _ _ _ _ Hp).
    destruct (kPA =? 0)%nat; [|now rewrite andb_false_r].
    rewrite andb_true_r.
    now destruct (targetb s && has_window mp dimX dimY s).
Qed.

Lemma count_assigned_added (p : Z) (l : list cube_write) :
  Forall (fun w => w_kind w = Added) l -> count_assigned p l = 0%nat.
Proof.
  unfold count_assigned. induction 1 as [|w l Hw _ IH]; [reflexivity|].
  simpl. unfold is_assignment at 1. now rewrite Hw.
Qed.

(** *** The whole run *)

Lemma sossFieldSim_returns (targetRA targetDEC : R) (info : list catalog_row)
    (binComp : option companion) (dimX : Z) (mp : modelParam)
    (files : list ndarray3) :
  info <> [] ->
  jhMod mp <> [] ->
  List.length (jhMod mp) = List.length (hkMod mp) ->
  List.length (teffMod mp) = List.length (jhMod mp) ->
  0 <= dimX ->
  params_ok mp (removelast files) ->
  exists st', sossFieldSim targetRA targetDEC info binComp dimX mp files
              = Ret st'.
Proof.
  intros Hinfo Hne Hl1 Hl2 HX Hp. unfold sossFieldSim.
  destruct (@setup_returns targetRA targetDEC info binComp dimX mp
              Hinfo Hne Hl1 Hl2 HX)
    as (((t & ss) & st0) & Hs).
  rewrite Hs. cbn [bind fst snd].
  destruct (setup_spec _ _ _ _ _ _ Hs)
    as (_ & _ & _ & _ & Hcube & _ & Hcl & _).
  eapply sweep_returns; try eassumption.
  apply Forall_forall. intros k Hk. apply in_seq in Hk.
  unfold nPA in *. lia.
Qed.

Lemma sweep_first_angle (mp : modelParam) (saveFiles : list ndarray3)
    (sweetSpot : sweet_spot) (dimX dimY : Z) (st st' : sim) :
  sweep mp saveFiles sweetSpot dimX dimY PAtab (seq 0 nPA) st = Ret st' ->
  exists st1,
    angle_step mp saveFiles sweetSpot dimX dimY 0 0 st = Ret st1
    /\ sweep mp saveFiles sweetSpot dimX dimY PAtab (seq 1 359) st1 = Ret st'.
Proof.
  destruct nPA_360 as [-> ->].
  change (seq 0 360) with (0%nat :: seq 1 359) at 2.
  unfold sweep. simpl foldM at 1. intros H.
  apply bind_Ret in H. destruct H as (st1 & H1 & H2).
  exists st1. split; [exact H1 | exact H2].
Qed.

(** *** Stars at the position of the target *)

Lemma in_FOV_sweet (s : star) :
  x s = 856%R -> y s = 107%R -> in_FOV s = true.
Proof.
  intros Hx Hy. unfold in_FOV. rewrite Hx, Hy.
  rewrite !Rleb_true by lra. reflexivity.
Qed.

Lemma projected_target (sweetSpot : sweet_spot) (APA : R) (s : star) :
  sweet_x sweetSpot = 856%R -> sweet_y sweetSpot = 107%R ->
  dRA s = 0%R -> dDEC s = 0%R ->
  in_FOV (project sweetSpot APA s) = true
  /\ targetb (project sweetSpot APA s) = true.
Proof.
  intros Sx Sy Ha Hd.
  destruct (project_zero_offset sweetSpot APA s Ha Hd) as (Ex & Ey & Px & Py).
  split.
  - apply in_FOV_sweet; congruence.
  - unfold targetb. rewrite Ex, Ey, round_0. reflexivity.
Qed.

Lemma star_writes_target (mp : modelParam) (dimX dimY : Z) (kPA : nat) (s : star) :
  targetb s = true ->
  star_writes mp dimX dimY kPA s
  = if has_window mp dimX dimY s && (kPA =? 0)%nat
    then [ {| w_kind := Assigned; w_plane := 0; w_kPA := kPA; w_star := s |};
           {| w_kind := Assigned; w_plane := 1; w_kPA := kPA; w_star := s |} ]
    else [].
Proof.
  intros Ht. unfold star_writes, has_window. rewrite Ht.
  destruct (subsection _ _ _ _ _); [|reflexivity].
  simpl. destruct (kPA =? 0)%nat; reflexivity.
Qed.

Lemma has_window_target (mp : modelParam) (dimX dimY : Z) (s : star) :
  targetb s = true ->
  has_window mp dimX dimY s
  = match subsection mp dimX dimY 0 0 with Some _ => true | None => false end.
Proof.
  unfold targetb, has_window. intros H.
  apply andb_prop in H. destruct H as [Hx Hy].
  apply Z.eqb_eq in Hx, Hy. now rewrite Hx, Hy.
Qed.

(** When every star is at the position of the target, every star is
    taken for the target. *)
Lemma reference_writers_coincident (mp : modelParam) (sweetSpot : sweet_spot)
    (dimX dimY : Z) (APA : Z) (l : list star) :
  sweet_x sweetSpot = 856%R -> sweet_y sweetSpot = 107%R ->
  Forall (fun s => dRA s = 0%R /\ dDEC s = 0%R) l ->
  subsection mp dimX dimY 0 0 <> None ->
  reference_writers mp sweetSpot dimX dimY APA l
  = map (project sweetSpot (IZR APA)) l.
Proof.
  intros Sx Sy Hl Hw. unfold reference_writers.
  induction Hl as [|s l (Ha & Hd) _ IH]; [reflexivity|]. simpl.
  destruct (projected_target sweetSpot (IZR APA) s Sx Sy Ha Hd) as (Hf & Ht).
  rewrite Hf. simpl. rewrite Ht, (has_window_target _ _ _ _ Ht).
  destruct (subsection mp dimX dimY 0 0); [|congruence].
  simpl. now rewrite IH.
Qed.

(** *** The small field *)

Lemma ex_setup :
  setup 10 0 ex_info (Some ex_twin) ex_dimX ex_mp = Ret (0%nat, ex_sweet, ex_st0).
Proof. reflexivity. Qed.

Lemma ex_params_ok : params_ok ex_mp (removelast ex_files).
Proof.
  unfold params_ok. simpl.
  repeat split; try lia.
  repeat constructor; simpl; lia.
Qed.

Lemma ex_run_returns :
  exists st', sossFieldSim 10 0 ex_info (Some ex_twin) ex_dimX ex_mp ex_files
              = Ret st'.
Proof.
  apply sossFieldSim_returns.
  - discriminate.
  - discriminate.
  - reflexivity.
  - reflexivity.
  - unfold ex_dimX. lia.
  - apply ex_params_ok.
Qed.

Lemma ex_stars_coincide :
  Forall (fun s => dRA s = 0%R /\ dDEC s = 0%R) (stars ex_st0).
Proof.
  repeat constructor; simpl; unfold Rdiv; ring.
Qed.

Lemma ex_window : subsection ex_mp ex_dimX dimY 0 0
  = Some {| x0 := 0; y0 := 0; mx0 := 2; mx1 := 6; my0 := 20; my1 := 2068 |}.
Proof. reflexivity. Qed.

Lemma ex_first_angle_writes :
  angle_writes ex_mp ex_sweet ex_dimX dimY 0 0 (stars ex_st0)
  = [ {| w_kind := Assigned; w_plane := 0; w_kPA := 0;
         w_star := project ex_sweet 0 ex_star0 |};
      {| w_kind := Assigned; w_plane := 1; w_kPA := 0;
         w_star := project ex_sweet 0 ex_star0 |};
      {| w_kind := Assigned; w_plane := 0; w_kPA := 0;
         w_star := project ex_sweet 0 ex_star1 |};
      {| w_kind := Assigned; w_plane := 1; w_kPA := 0;
         w_star := project ex_sweet 0 ex_star1 |} ].
Proof.
  pose proof ex_stars_coincide as Hc. inversion Hc as [|? ? (A0 & D0) Hc1]; subst.
  inversion Hc1 as [|? ? (A1 & D1) _]; subst.
  destruct (projected_target ex_sweet 0 ex_star0 eq_refl eq_refl A0 D0) as (F0 & T0).
  destruct (projected_target ex_sweet 0 ex_star1 eq_refl eq_refl A1 D1) as (F1 & T1).
  unfold angle_writes. cbn [stars ex_st0 map filter].
  rewrite F0, F1. cbn [flat_map].
  rewrite (star_writes_target _ _ _ _ _ T0), (star_writes_target _ _ _ _ _ T1).
  rewrite (has_window_target _ _ _ _ T0), (has_window_target _ _ _ _ T1).
  rewrite ex_window. reflexivity.
Qed.

Lemma where_first_hd (a : R) (t : list R) : where_first (a :: t) a = Some 0%nat.
Proof. simpl. destruct (Req_dec_T a a); [reflexivity | congruence]. Qed.

(** In the small field, a star taken for the target at the first angle
    puts its own scaled order-1 trace into plane 0. *)
Lemma ex_target_step (st : sim) (s : star) :
  targetb s = true -> T s = 5000%R ->
  cube_ok ex_dimX dimY 362 (simuCube st) ->
  exists st',
    star_step ex_mp (removelast ex_files) ex_sweet ex_dimX dimY 0 s st = Ret st'
    /\ cube_ok ex_dimX dimY 362 (simuCube st')
    /\ at3 (simuCube st') 0 0 0 = (3 * fluxscale_of ex_sweet s)%R.
Proof.
  intros Ht HT (C0 & C1 & C2). unfold star_step.
  unfold targetb in Ht. apply andb_prop in Ht. destruct Ht as [Hx Hy].
  apply Z.eqb_eq in Hx, Hy. rewrite Hx, Hy, HT.
  change (teffMod ex_mp) with [5000%R]. rewrite where_first_hd.
  cbn [of_option bind]. rewrite ex_window.
  cbn -[fluxscale_of]. unfold store. rewrite C0, C1, C2.
  cbn -[fluxscale_of].
  eexists. split; [reflexivity|]. cbn -[fluxscale_of].
  split; [repeat split; assumption|]. reflexivity.
Qed.

Lemma ex_fluxscale_twin :
  fluxscale_of ex_sweet (project ex_sweet 0 ex_star1) = (/ 10)%R.
Proof.
  unfold fluxscale_of. simpl.
  replace (- (4 / 10) * (25 / 2 - 10))%R with (- (1))%R by field.
  rewrite Rpower_Ropp, Rpower_1 by lra. reflexivity.
Qed.

Lemma ex_fluxscale_target :
  fluxscale_of ex_sweet (project ex_sweet 0 ex_star0) = 1%R.
Proof.
  unfold fluxscale_of. simpl.
  replace (- (4 / 10) * (10 - 10))%R with 0%R by field.
  apply Rpower_O. lra.
Qed.

(** After the first angle, plane 0 holds the trace of the companion, a
    tenth of the trace the target put there. *)
Lemma ex_first_angle_cube (st1 : sim) :
  angle_step ex_mp (removelast ex_files) ex_sweet ex_dimX dimY 0 0 ex_st0
  = Ret st1 ->
  at3 (simuCube st1) 0 0 0 = (3 * / 10)%R.
Proof.
  pose proof ex_stars_coincide as Hc. inversion Hc as [|? ? (A0 & D0) Hc1]; subst.
  inversion Hc1 as [|? ? (A1 & D1) _]; subst.
  destruct (projected_target ex_sweet 0 ex_star0 eq_refl eq_refl A0 D0) as (F0 & T0).
  destruct (projected_target ex_sweet 0 ex_star1 eq_refl eq_refl A1 D1) as (F1 & T1).
  unfold angle_step. cbn [stars ex_st0 map filter].
  rewrite F0, F1. cbn [foldM].
  match goal with |- context [star_step _ _ _ _ _ _ _ ?st] =>
    destruct (@ex_target_step st (project ex_sweet 0 ex_star0) T0 eq_refl)
      as (sta & -> & Ca & _) end.
  { repeat split. }
  cbn [bind].
  destruct (@ex_target_step sta (project ex_sweet 0 ex_star1) T1 eq_refl Ca)
    as (stb & -> & _ & Vb).
  cbn [bind]. intros [= <-]. rewrite Vb, ex_fluxscale_twin. reflexivity.
Qed.

(** *** Accumulation into the plane of the angle *)

Lemma star_step_plane (mp : modelParam) (saveFiles : list ndarray3)
    (sweetSpot : sweet_spot) (dimX : Z) (kPA : nat) (s : star)
    (st st' : sim) (n : Z) :
  params_ok mp saveFiles -> 0 <= dimX ->
  cube_ok dimX dimY n (simuCube st) ->
  star_step mp saveFiles sweetSpot dimX dimY kPA s st = Ret st' ->
  forall y x,
    at3 (simuCube st') (Z.of_nat kPA + 2) y x
    = (at3 (simuCube st) (Z.of_nat kPA + 2) y x
       + contribution mp sweetSpot dimX dimY s y x)%R.
Proof.
  intros (HXm & HYm & M1 & M2 & _) HX (C0 & C1 & C2) H y x.
  pose proof (star_step_extends _ _ _ _ _ _ _ _ H) as (_ & new & Wn & L & _ & Fr).
  pose proof (star_step_writes _ _ _ _ _ _ _ _ H) as W.
  rewrite W in Wn. apply app_inv_head in Wn. subst new.
  unfold contribution.
  unfold star_step in H.
  apply bind_Ret in H. destruct H as (k & Hk & H).
  destruct (where_first (teffMod mp) (T s)) as [k'|] eqn:Ek; [|discriminate].
  injection Hk as ->.
  destruct (subsection mp dimX dimY (round (dx s)) (round (dy s))) as [w|] eqn:Ew.
  2: { injection H as <-. lra. }
  assert (F : window_fits mp dimX dimY w).
  { eapply window_fits_of_subsection; try eassumption. unfold dimY. lia. }
  destruct (targetb s) eqn:Ht.
  - (* taken for the target: nothing goes to the plane of the angle *)
    cbn [negb andb]. rewrite Rplus_0_r. apply Fr.
    intros w0 Hw0. rewrite (star_writes_target _ _ _ _ _ Ht) in Hw0.
    destruct (has_window mp dimX dimY s && (kPA =? 0)%nat); simpl in Hw0;
      [|contradiction].
    destruct Hw0 as [<-|[<-|[]]]; simpl; lia.
  - (* a field star *)
    apply bind_Ret in H. destruct H as (st1 & H1 & H2).
    unfold targetb in Ht.
    assert (E1 : st1 = st).
    { rewrite Ht in H1. simpl in H1. now injection H1 as <-. }
    subst st1.
    rewrite <- negb_andb, Ht in H2. cbn [negb] in H2.
    apply bind_Ret in H2. destruct H2 as (v & Hv & H2).
    apply bind_Ret in H2. destruct H2 as (c & Hc & H2).
    injection H2 as <-. cbn [simuCube].
    unfold view in Hv.
    apply bind_Ret in Hv. destruct Hv as (k0 & Hk0 & Hv).
    apply scalar_index_nonneg in Hk0; [|lia]. destruct Hk0 as [-> _].
    injection Hv as <-.
    assert (Hp0 : 0 <= Z.of_nat kPA + 2) by lia.
    destruct (store_inv _ _ _ _ _ _ _ Hp0 Hc) as (_ & _ & Hat).
    rewrite Hat. clear Hat.
    destruct F as (B1 & B2 & B3 & B4 & S1 & S2 & S3 & S4 & L1 & L2 & L3 & L4).
    rewrite C1, C2, M1, M2, S1, S2, S3, S4, L2, L4.
    cbn [rows cols at2 scale]. rewrite L1, L3. cbn [negb andb].
    rewrite Z.eqb_refl. cbn [andb].
    destruct (Z.leb_spec (y0 w) y); [|cbn [andb]; lra].
    destruct (Z.ltb_spec y (y0 w + (my1 w - my0 w))); [|cbn [andb]; lra].
    destruct (Z.leb_spec (x0 w) x); [|cbn [andb]; lra].
    destruct (Z.ltb_spec x (x0 w + (mx1 w - mx0 w))); [|cbn [andb]; lra].
    cbn [andb]. unfold iadd, bcast_index.
    replace (if my1 w - my0 w =? 1 then 0 else y - y0 w) with (y - y0 w)
      by (destruct (Z.eqb_spec (my1 w - my0 w) 1); lia).
    replace (if mx1 w - mx0 w =? 1 then 0 else x - x0 w) with (x - x0 w)
      by (destruct (Z.eqb_spec (mx1 w - mx0 w) 1); lia).
    reflexivity.
Qed.

(** One pass of the loop adds to every pixel of plane [kPA + 2] the sum
    of what the stars in the field of view contribute. *)
Lemma angle_step_plane (mp : modelParam) (saveFiles : list ndarray3)
    (sweetSpot : sweet_spot) (dimX : Z) (kPA : nat) (APA : Z)
    (st st' : sim) (n : Z) :
  params_ok mp saveFiles -> 0 <= dimX ->
  cube_ok dimX dimY n (simuCube st) ->
  angle_step mp saveFiles sweetSpot dimX dimY kPA APA st = Ret st' ->
  forall y x,
    at3 (simuCube st') (Z.of_nat kPA + 2) y x
    = (at3 (simuCube st) (Z.of_nat kPA + 2) y x
       + field_sum mp sweetSpot dimX dimY
           (filter in_FOV (map (project sweetSpot (IZR APA)) (stars st))) y x)%R.
Proof.
  intros Hp HX Hc H y x. unfold angle_step in H.
  change (simuCube st) with
    (simuCube {| stars := map (project sweetSpot (IZR APA)) (stars st);
                 simuCube := simuCube st; writes := writes st |}) in Hc |- *.
  revert H Hc.
  generalize {| stars := map (project sweetSpot (IZR APA)) (stars st);
                simuCube := simuCube st; writes := writes st |}.
  induction (filter in_FOV (map (project sweetSpot (IZR APA)) (stars st)))
    as [|s l IH]; intros st0 H Hc; simpl in H.
  - injection H as <-. simpl. lra.
  - apply bind_Ret in H. destruct H as (st1 & H1 & H2).
    assert (Hc1 : cube_ok dimX dimY n (simuCube st1)).
    { destruct (star_step_extends _ _ _ _ _ _ _ _ H1) as ((E0 & E1 & E2) & _).
      destruct Hc as (C0 & C1 & C2). repeat split; congruence. }
    rewrite (IH _ H2 Hc1).
    rewrite (@star_step_plane _ _ _ _ _ _ _ _ _ Hp HX Hc H1). simpl. lra.
Qed.

Lemma angle_step_other_plane (mp : modelParam) (saveFiles : list ndarray3)
    (sweetSpot : sweet_spot) (dimX dimY : Z) (kPA : nat) (APA : Z)
    (st st' : sim) (k : nat) :
  angle_step mp saveFiles sweetSpot dimX dimY kPA APA st = Ret st' ->
  k <> kPA ->
  same_plane (simuCube st) (simuCube st') (Z.of_nat k + 2).
Proof.
  intros H Hk.
  destruct (angle_step_extends _ _ _ _ _ _ _ _ H) as (_ & new & _ & L & K & F).
  apply F. intros w Hw Hp.
  rewrite Forall_forall in L, K.
  specialize (L w Hw). specialize (K w Hw). simpl in K.
  destruct L as [(_ & [E|E] & _) | (_ & E & _)]; lia.
Qed.

Lemma field_sum_project (mp : modelParam) (sweetSpot : sweet_spot)
    (dimX dimY : Z) (A B : R) (l : list star) (y x : Z) :
  field_sum mp sweetSpot dimX dimY
    (filter in_FOV (map (project sweetSpot A) (map (project sweetSpot B) l))) y x
  = field_sum mp sweetSpot dimX dimY
      (filter in_FOV (map (project sweetSpot A) l)) y x.
Proof. now rewrite map_project_project. Qed.

(** The sweep adds to plane [k + 2] what the stars in the field of view
    at angle index [k] contribute, once, and nothing else. *)
Lemma sweep_plane (mp : modelParam) (saveFiles : list ndarray3)
    (sweetSpot : sweet_spot) (dimX : Z) (PAtab : list Z) (kPAs : list nat)
    (st st' : sim) (n : Z) :
  params_ok mp saveFiles -> 0 <= dimX ->
  cube_ok dimX dimY n (simuCube st) ->
  NoDup kPAs ->
  sweep mp saveFiles sweetSpot dimX dimY PAtab kPAs st = Ret st' ->
  forall k y x,
    at3 (simuCube st') (Z.of_nat k + 2) y x
    = (at3 (simuCube st) (Z.of_nat k + 2) y x
       + if existsb (Nat.eqb k) kPAs
         then field_sum mp sweetSpot dimX dimY
                (filter in_FOV
                   (map (project sweetSpot (IZR (nth k PAtab 0%Z))) (stars st)))
                y x
         else 0)%R.
Proof.
  intros Hp HX. unfold sweep. revert st.
  induction kPAs as [|k0 ks IH]; intros st Hc Hnd H k y x; simpl in H.
  - injection H as <-. simpl. lra.
  - apply bind_Ret in H. destruct H as (st1 & H1 & H2).
    apply bind_Ret in H1. destruct H1 as (APA & HA & H1).
    apply index_nth in HA. destruct HA as [HA _].
    inversion Hnd as [|? ? Hnotin Hnd']; subst.
    assert (Hc1 : cube_ok dimX dimY n (simuCube st1)).
    { destruct (angle_step_extends _ _ _ _ _ _ _ _ H1) as ((E0 & E1 & E2) & _).
      destruct Hc as (C0 & C1 & C2). repeat split; congruence. }
    rewrite (IH _ Hc1 Hnd' H2 k y x).
    rewrite (angle_step_stars _ _ _ _ _ _ _ _ H1), field_sum_project.
    simpl existsb.
    destruct (Nat.eqb_spec k k0) as [->|Hne].
    + rewrite (@angle_step_plane _ _ _ _ _ _ _ _ _ Hp HX Hc H1).
      replace (existsb (Nat.eqb k0) ks) with false.
      * simpl. lra.
      * symmetry. apply not_true_is_false. intros Hex.
        apply existsb_exists in Hex. destruct Hex as (j & Hj & Ej).
        apply Nat.eqb_eq in Ej. subst j. contradiction.
    + rewrite (@angle_step_other_plane _ _ _ _ _ _ _ _ _ _ H1 Hne y x).
      simpl. reflexivity.
Qed.

Lemma PAtab_nth (k : nat) : (k < 360)%nat -> nth k PAtab 0 = Z.of_nat k.
Proof.
  intros Hk. destruct nPA_360 as [_ ->].
  change 0 with (Z.of_nat 0). rewrite map_nth, seq_nth; [reflexivity | lia].
Qed.

Lemma existsb_seq (k n : nat) :
  (k < n)%nat -> existsb (Nat.eqb k) (seq 0 n) = true.
Proof.
  intros H. apply existsb_exists. exists k. split.
  - apply in_seq. lia.
  - apply Nat.eqb_refl.
Qed.

(** The history of a run: what the first angle stores, and what the
    later angles can store. *)
Lemma run_history
    (targetRA targetDEC : R) (info : list catalog_row)
    (binComp : option companion) (dimX : Z) (mp : modelParam)
    (files : list ndarray3) (st' : sim) :
  sossFieldSim targetRA targetDEC info binComp dimX mp files = Ret st' ->
  exists t ss st0 st1,
    setup targetRA targetDEC info binComp dimX mp = Ret (t, ss, st0)
    /\ angle_step mp (removelast files) ss dimX dimY 0 0 st0 = Ret st1
    /\ sweep mp (removelast files) ss dimX dimY PAtab (seq 1 359) st1 = Ret st'
    /\ writes st1 = angle_writes mp ss dimX dimY 0 0 (stars st0)
    /\ count_assigned 0 (writes st')
       = List.length (reference_writers mp ss dimX dimY 0 (stars st0))
    /\ count_assigned 1 (writes st')
       = List.length (reference_writers mp ss dimX dimY 0 (stars st0))
    /\ same_plane (simuCube st1) (simuCube st') 0
    /\ same_plane (simuCube st1) (simuCube st') 1
    /\ (params_ok mp (removelast files) ->
        forall k y x, (k < 360)%nat ->
          at3 (simuCube st') (Z.of_nat k + 2) y x
          = field_sum mp ss dimX dimY
              (filter in_FOV (map (project ss (IZR (Z.of_nat k))) (stars st0)))
              y x)
    /\ Forall legal_write (writes st')
    /\ exists later,
         writes st' = writes st1 ++ later
         /\ Forall (fun w => w_kind w = Added
                             /\ w_plane w = Z.of_nat (w_kPA w) + 2
                             /\ (1 <= w_kPA w)%nat) later.
Proof.
  unfold sossFieldSim. intros H.
  apply bind_Ret in H. destruct H as (((t & ss) & st0) & Hsetup & H).
  cbn [fst snd] in H.
  destruct (setup_spec _ _ _ _ _ _ Hsetup)
    as (_ & _ & Hw0 & HX & Hcube & Hzero & _).
  assert (Hsum : params_ok mp (removelast files) ->
            forall k y x, (k < 360)%nat ->
              at3 (simuCube st') (Z.of_nat k + 2) y x
              = field_sum mp ss dimX dimY
                  (filter in_FOV
                     (map (project ss (IZR (Z.of_nat k))) (stars st0))) y x).
  { intros Hp k y x Hk.
    rewrite (@sweep_plane _ _ _ _ _ _ _ _ _ Hp HX Hcube (seq_NoDup _ _) H k y x).
    rewrite Hzero, existsb_seq, (PAtab_nth Hk), Rplus_0_l;
      [reflexivity | destruct nPA_360 as [-> _]; exact Hk]. }
  pose proof (sweep_extends _ _ _ _ _ _ _ _ H) as (_ & new & Wn & Ln & _).
  rewrite Hw0 in Wn. simpl in Wn.
  destruct (sweep_first_angle _ _ _ _ _ _ H) as (st1 & H1 & H2).
  pose proof (angle_step_writes _ _ _ _ _ _ _ _ H1) as W1.
  rewrite Hw0 in W1. simpl in W1.
  pose proof (sweep_extends _ _ _ _ _ _ _ _ H2) as E2.
  apply later_angles_keep_reference_planes in E2.
  2: { intros k Hk. apply in_seq in Hk. lia. }
  destruct E2 as (P0 & P1 & later & Wl & Ll).
  assert (Hcount : forall p, p = 0 \/ p = 1 ->
            count_assigned p (writes st')
            = List.length (reference_writers mp ss dimX dimY 0 (stars st0))).
  { intros p Hp. rewrite Wl, W1, count_assigned_app.
    rewrite (count_assigned_angle _ _ _ _ _ _ _ Hp). simpl.
    rewrite count_assigned_added; [lia|].
    eapply Forall_impl; [|exact Ll]. now intros w (Hk & _). }
  exists t, ss, st0, st1.
  split; [exact Hsetup|]. split; [exact H1|]. split; [exact H2|].
  split; [exact W1|].
  split; [apply Hcount; now left|]. split; [apply Hcount; now right|].
  split; [exact P0|]. split; [exact P1|]. split; [exact Hsum|].
  split; [now rewrite Wn|].
  exists later. now split.
Qed.

(** *** Claim C1 *)

(** Claim C1, as the code has it.  In a run of [sossFieldSim] that
    returns, with the sweep of 360 angles: planes 0 and 1 are assigned at
    the first angle (index 0) only, once for every star that is then in
    the field of view with a rounded offset of (0, 0) and an overlap
    window, so exactly once when the target is the only such star; the
    later angles leave both planes as the first angle left them; and
    every other store of the run adds to plane [kPA + 2], for a star of
    non-zero rounded offset.  With arrays of the declared shapes, plane
    [k + 2] of the result is at every pixel the sum of what the stars in
    the field of view at angle [k] contribute: nothing is overwritten. *)
Theorem C1_reference_planes_assigned_at_first_angle_only
    (targetRA targetDEC : R) (info : list catalog_row)
    (binComp : option companion) (dimX : Z) (mp : modelParam)
    (files : list ndarray3) (st' : sim) :
  sossFieldSim targetRA targetDEC info binComp dimX mp files = Ret st' ->
  exists t ss st0 st1,
    setup targetRA targetDEC info binComp dimX mp = Ret (t, ss, st0)
    /\ angle_step mp (removelast files) ss dimX dimY 0 0 st0 = Ret st1
    /\ sweep mp (removelast files) ss dimX dimY PAtab (seq 1 359) st1 = Ret st'
    /\ writes st1 = angle_writes mp ss dimX dimY 0 0 (stars st0)
    /\ count_assigned 0 (writes st')
       = List.length (reference_writers mp ss dimX dimY 0 (stars st0))
    /\ count_assigned 1 (writes st')
       = List.length (reference_writers mp ss dimX dimY 0 (stars st0))
    /\ same_plane (simuCube st1) (simuCube st') 0
    /\ same_plane (simuCube st1) (simuCube st') 1
    /\ (params_ok mp (removelast files) ->
        forall k y x, (k < 360)%nat ->
          at3 (simuCube st') (Z.of_nat k + 2) y x
          = field_sum mp ss dimX dimY
              (filter in_FOV (map (project ss (IZR (Z.of_nat k))) (stars st0)))
              y x)
    /\ Forall legal_write (writes st')
    /\ exists later,
         writes st' = writes st1 ++ later
         /\ Forall (fun w => w_kind w = Added
                             /\ w_plane w = Z.of_nat (w_kPA w) + 2
                             /\ (1 <= w_kPA w)%nat) later.
Proof. apply run_history. Qed.

(** The theorem at the small field. *)
Lemma C1_witness_small_field :
  exists st',
    sossFieldSim 10 0 ex_info (Some ex_twin) ex_dimX ex_mp ex_files = Ret st'
    /\ exists t ss st0 st1,
         setup 10 0 ex_info (Some ex_twin) ex_dimX ex_mp = Ret (t, ss, st0)
         /\ angle_step ex_mp (removelast ex_files) ss ex_dimX dimY 0 0 st0
            = Ret st1
         /\ sweep ex_mp (removelast ex_files) ss ex_dimX dimY PAtab (seq 1 359)
                  st1 = Ret st'
         /\ writes st1 = angle_writes ex_mp ss ex_dimX dimY 0 0 (stars st0)
         /\ count_assigned 0 (writes st')
            = List.length (reference_writers ex_mp ss ex_dimX dimY 0 (stars st0))
         /\ count_assigned 1 (writes st')
            = List.length (reference_writers ex_mp ss ex_dimX dimY 0 (stars st0))
         /\ same_plane (simuCube st1) (simuCube st') 0
         /\ same_plane (simuCube st1) (simuCube st') 1
         /\ (params_ok ex_mp (removelast ex_files) ->
             forall k y x, (k < 360)%nat ->
               at3 (simuCube st') (Z.of_nat k + 2) y x
               = field_sum ex_mp ss ex_dimX dimY
                   (filter in_FOV
                      (map (project ss (IZR (Z.of_nat k))) (stars st0)))
                   y x)
         /\ Forall legal_write (writes st')
         /\ exists later,
              writes st' = writes st1 ++ later
              /\ Forall (fun w => w_kind w = Added
                                  /\ w_plane w = Z.of_nat (w_kPA w) + 2
                                  /\ (1 <= w_kPA w)%nat) later.
Proof.
  destruct ex_run_returns as (st' & H).
  exists st'. split; [exact H|].
  exact (C1_reference_planes_assigned_at_first_angle_only _ _ _ _ _ _ _ H).
Defined.

(** Claim C1 as it is written fails on the small field.  The catalogue
    holds the target, and [binComp] puts a companion 2.5 magnitudes
    fainter at the very position of the target.  The run assigns to
    plane 0 twice and to plane 1 twice, the second time for the
    companion, and when the run ends plane 0 holds the trace scaled for
    the companion (3/10 at pixel (0, 0)), not the trace scaled for the
    target (3). *)
Lemma C1_counterexample_companion_on_target :
  exists st',
    sossFieldSim 10 0 ex_info (Some ex_twin) ex_dimX ex_mp ex_files = Ret st'
    /\ count_assigned 0 (writes st') = 2%nat
    /\ count_assigned 1 (writes st') = 2%nat
    /\ (exists w, In w (writes st') /\ w_kind w = Assigned /\ w_plane w = 0
                  /\ w_kPA w = 0%nat /\ jmag (w_star w) = (25 / 2)%R)
    /\ at3 (simuCube st') 0 0 0 = (3 * / 10)%R
    /\ (3 * fluxscale_of ex_sweet (project ex_sweet 0 ex_star0))%R = 3%R.
Proof.
  destruct ex_run_returns as (st' & H).
  exists st'. split; [exact H|].
  destruct (run_history _ _ _ _ _ _ _ H)
    as (t & ss & st0 & st1 & Hs & H1 & H2 & W1 & C0 & C1 & P0 & _ & _ & _
        & later & Wl & _).
  rewrite ex_setup in Hs. injection Hs as <- <- <-.
  rewrite (@reference_writers_coincident ex_mp ex_sweet ex_dimX dimY 0
             (stars ex_st0) eq_refl eq_refl ex_stars_coincide) in C0, C1
    by (rewrite ex_window; discriminate).
  split; [exact C0|]. split; [exact C1|]. split; [|split].
  - rewrite ex_first_angle_writes in W1.
    exists {| w_kind := Assigned; w_plane := 0; w_kPA := 0;
              w_star := project ex_sweet 0 ex_star1 |}.
    split; [|repeat split].
    rewrite Wl, W1. apply in_or_app. left. simpl. tauto.
  - rewrite (P0 0 0). now apply ex_first_angle_cube.
  - rewrite ex_fluxscale_target. ring.
Qed.

(** *** The loop body does not read the structured array *)

Lemma star_step_with_stars (mp : modelParam) (saveFiles : list ndarray3)
    (sweetSpot : sweet_spot) (dimX dimY : Z) (kPA : nat) (s : star)
    (l : list star) (st : sim) :
  star_step mp saveFiles sweetSpot dimX dimY kPA s (with_stars l st)
  = map_outcome (with_stars l)
      (star_step mp saveFiles sweetSpot dimX dimY kPA s st).
Proof.
  unfold star_step.
  destruct (of_option IndexError (where_first (teffMod mp) (T s))) as [k|e];
    simpl; [|reflexivity].
  destruct (subsection _ _ _ _ _) as [w|]; [|reflexivity].
  destruct ((round (dx s) =? 0) && (round (dy s) =? 0) && (kPA =? 0)%nat).
  - destruct (index saveFiles k) as [m|e]; simpl; [|reflexivity].
    destruct (view m 0 _ _ _ _) as [v0|e]; simpl; [|reflexivity].
    destruct (store assign (simuCube st) 0 _ _ _ _ _) as [c0|e]; simpl;
      [|reflexivity].
    destruct (view m 1 _ _ _ _) as [v1|e]; simpl; [|reflexivity].
    destruct (store assign c0 1 _ _ _ _ _) as [c1|e]; simpl; [|reflexivity].
    destruct (negb (round (dx s) =? 0) || negb (round (dy s) =? 0));
      [|reflexivity].
    destruct (view (models mp) _ _ _ _ _) as [v|e]; simpl; [|reflexivity].
    destruct (store iadd c1 _ _ _ _ _ _) as [c|e]; reflexivity.
  - simpl.
    destruct (negb (round (dx s) =? 0) || negb (round (dy s) =? 0));
      [|reflexivity].
    destruct (view (models mp) _ _ _ _ _) as [v|e]; simpl; [|reflexivity].
    destruct (store iadd (simuCube st) _ _ _ _ _ _) as [c|e]; reflexivity.
Qed.

Lemma foldM_with_stars (mp : modelParam) (saveFiles : list ndarray3)
    (sweetSpot : sweet_spot) (dimX dimY : Z) (kPA : nat)
    (fov l : list star) (st : sim) :
  foldM (star_step mp saveFiles sweetSpot dimX dimY kPA) fov (with_stars l st)
  = map_outcome (with_stars l)
      (foldM (star_step mp saveFiles sweetSpot dimX dimY kPA) fov st).
Proof.
  revert st. induction fov as [|s fov IH]; intros st; simpl; [reflexivity|].
  rewrite star_step_with_stars.
  destruct (star_step mp saveFiles sweetSpot dimX dimY kPA s st) as [st1|e];
    simpl; [apply IH | reflexivity].
Qed.

Lemma cube_and_writes_with_stars (l : list star) (o : outcome sim) :
  cube_and_writes (map_outcome (with_stars l) o) = cube_and_writes o.
Proof. destruct o; reflexivity. Qed.

(** A pass of the loop is decided by the stars in the field of view. *)
Lemma angle_step_by_field (mp : modelParam) (saveFiles : list ndarray3)
    (sweetSpot : sweet_spot) (dimX dimY : Z) (kPA : nat) (APA : Z)
    (st : sim) :
  cube_and_writes (angle_step mp saveFiles sweetSpot dimX dimY kPA APA st)
  = cube_and_writes
      (foldM (star_step mp saveFiles sweetSpot dimX dimY kPA)
             (filter in_FOV (map (project sweetSpot (IZR APA)) (stars st)))
             st).
Proof.
  unfold angle_step.
  change {| stars := map (project sweetSpot (IZR APA)) (stars st);
            simuCube := simuCube st; writes := writes st |}
    with (with_stars (map (project sweetSpot (IZR APA)) (stars st)) st).
  now rewrite foldM_with_stars, cube_and_writes_with_stars.
Qed.

Lemma outside_field_not_in_FOV (s : star) :
  outside_field s -> in_FOV s = false.
Proof.
  unfold outside_field, in_FOV. intros H.
  destruct H as [H|[H|[H|H]]].
  - now rewrite (Rleb_false H).
  - rewrite (Rleb_false H). now rewrite andb_false_r.
  - rewrite (Rleb_false H). now rewrite andb_false_r.
  - rewrite (Rleb_false H). now rewrite andb_false_r.
Qed.

(** *** Claim C5 *)

(** Claim C5.  In every run the target star has no offset from itself,
    and at every position angle the projection formula puts it at pixel
    offset (0, 0), at the sweet spot (856, 107): the rotation does
    nothing to a zero offset. *)
Theorem C5_target_projects_onto_sweet_spot
    (targetRA targetDEC : R) (info : list catalog_row)
    (binComp : option companion) (dimX : Z) (mp : modelParam)
    (t : nat) (ss : sweet_spot) (st0 : sim) (APA : R) :
  setup targetRA targetDEC info binComp dimX mp = Ret (t, ss, st0) ->
  exists s,
    nth_error (stars st0) t = Some s
    /\ dRA s = 0%R /\ dDEC s = 0%R
    /\ dx (project ss APA s) = 0%R /\ dy (project ss APA s) = 0%R
    /\ x (project ss APA s) = 856%R /\ y (project ss APA s) = 107%R.
Proof.
  intros H.
  destruct (setup_spec _ _ _ _ _ _ H)
    as (Sx & Sy & _ & _ & _ & _ & _ & s & Hs & Ha & Hd & _).
  destruct (project_zero_offset ss APA s Ha Hd) as (Ex & Ey & Px & Py).
  exists s. repeat split; congruence.
Qed.

Lemma C5_witness_small_field :
  exists s,
    nth_error (stars ex_st0) 0 = Some s
    /\ dRA s = 0%R /\ dDEC s = 0%R
    /\ dx (project ex_sweet 90 s) = 0%R /\ dy (project ex_sweet 90 s) = 0%R
    /\ x (project ex_sweet 90 s) = 856%R /\ y (project ex_sweet 90 s) = 107%R.
Proof.
  exact (@C5_target_projects_onto_sweet_spot 10 0 ex_info (Some ex_twin)
           ex_dimX ex_mp 0%nat ex_sweet ex_st0 90 ex_setup).
Defined.

(** *** Claim C6 *)

(** Claim C6.  With a colour table of three arrays of one non-zero
    length, the temperature assigned to colours [(jh, hk)] is the entry
    of [teffMod] at the index [i] whose squared colour distance is least,
    and [i] is the first such index of the table. *)
Theorem C6_nearest_colour_first_minimum (mp : modelParam) (jh hk : R) :
  jhMod mp <> [] ->
  List.length (jhMod mp) = List.length (hkMod mp) ->
  List.length (teffMod mp) = List.length (jhMod mp) ->
  exists i,
    assign_Teff mp jh hk = Ret (nth i (teffMod mp) 0%R)
    /\ (i < List.length (teffMod mp))%nat
    /\ (forall j, (j < List.length (teffMod mp))%nat ->
                  (sq_distance mp jh hk i <= sq_distance mp jh hk j)%R)
    /\ (forall j, (j < i)%nat ->
                  (sq_distance mp jh hk i < sq_distance mp jh hk j)%R).
Proof.
  intros Hne Hl1 Hl2. unfold assign_Teff.
  destruct (color_separation_spec mp jh hk Hl1) as (sep & -> & Hsl & Hsep).
  simpl.
  destruct (@argmin_spec sep) as (i & -> & Hi & Hmin & Hfirst).
  { destruct sep; [|discriminate]. simpl in Hsl.
    destruct (jhMod mp); [congruence | discriminate]. }
  simpl. exists i.
  assert (Hit : (i < List.length (teffMod mp))%nat) by lia.
  split.
  - unfold index. rewrite (nth_error_nth' _ 0%R Hit). reflexivity.
  - split; [exact Hit|]. split.
    + intros j Hj. rewrite <- !Hsep by lia. apply Hmin. lia.
    + intros j Hj. rewrite <- !Hsep by lia. now apply Hfirst.
Qed.

Lemma C6_witness_three_entries :
  exists i,
    assign_Teff ex_table 0 0 = Ret (nth i (teffMod ex_table) 0%R)
    /\ (i < List.length (teffMod ex_table))%nat
    /\ (forall j, (j < List.length (teffMod ex_table))%nat ->
                  (sq_distance ex_table 0 0 i <= sq_distance ex_table 0 0 j)%R)
    /\ (forall j, (j < i)%nat ->
                  (sq_distance ex_table 0 0 i < sq_distance ex_table 0 0 j)%R).
Proof.
  apply (@C6_nearest_colour_first_minimum ex_table 0 0).
  - discriminate.
  - reflexivity.
  - reflexivity.
Defined.

(** Entries 0 and 2 of the table are equally near to (0, 0): the first
    one gives the temperature. *)
Example assign_Teff_tie : assign_Teff ex_table 0 0 = Ret 3000%R.
Proof.
  unfold assign_Teff, color_separation, broadcast_with. simpl.
  destruct (Rlt_dec _ _) as [H|H]; [exfalso; lra|].
  destruct (Rlt_dec _ _) as [H'|H']; [exfalso; lra|].
  reflexivity.
Qed.

(** *** Claim C7 *)

(** Claim C7.  For a star with a temperature of the table, at any angle:
    when the raw window misses the model array (its start is beyond
    [dimXmod] or [dimYmod], or its end is negative) the loop body
    returns the state it was given; otherwise the clipped window fits:
    the source slice lies inside the model array, the destination slice
    inside the frame, Python neither clips nor wraps either slice, and
    both have the same height and the same width.  With arrays of the
    declared shapes the loop body then returns: no index is out of range
    and no shapes disagree. *)
Theorem C7_overlap_window_fits (mp : modelParam) (saveFiles : list ndarray3)
    (sweetSpot : sweet_spot) (dimX : Z) (kPA : nat) (s : star) (st : sim) :
  0 <= dimX -> 0 <= dimXmod mp -> 0 <= dimYmod mp ->
  In (T s) (teffMod mp) ->
  (no_overlap mp dimX dimY (round (dx s)) (round (dy s)) ->
   star_step mp saveFiles sweetSpot dimX dimY kPA s st = Ret st)
  /\ (~ no_overlap mp dimX dimY (round (dx s)) (round (dy s)) ->
      exists w,
        subsection mp dimX dimY (round (dx s)) (round (dy s)) = Some w
        /\ window_fits mp dimX dimY w
        /\ slice_len (dimXmod mp) (mx0 w) (mx1 w)
           = slice_len dimX (x0 w) (x0 w + mx1 w - mx0 w)
        /\ slice_len (dimYmod mp) (my0 w) (my1 w)
           = slice_len dimY (y0 w) (y0 w + my1 w - my0 w))
  /\ (forall n, params_ok mp saveFiles ->
                cube_ok dimX dimY n (simuCube st) -> Z.of_nat kPA + 2 < n ->
                exists st', star_step mp saveFiles sweetSpot dimX dimY kPA s st
                            = Ret st').
Proof.
  intros HX HXm HYm HT. split; [|split].
  - intros Hno. unfold star_step.
    destruct (where_first_In _ _ HT) as (k & ->). simpl.
    now rewrite (subsection_none Hno).
  - intros Hov.
    destruct (subsection_some Hov) as (w & Hw & _).
    exists w. split; [exact Hw|].
    assert (F : window_fits mp dimX dimY w).
    { eapply window_fits_of_subsection; try eassumption. unfold dimY. lia. }
    split; [exact F|].
    destruct F as (_ & _ & _ & _ & _ & _ & _ & _ & L1 & L2 & L3 & L4).
    split; congruence.
  - intros n Hp Hc Hk.
    destruct (@star_step_returns mp saveFiles sweetSpot dimX kPA s st n
                Hp HX HT Hc Hk) as (st' & Hst' & _).
    eauto.
Qed.

Lemma ex_star0_classified : In (T (project ex_sweet 0 ex_star0)) (teffMod ex_mp).
Proof. left. reflexivity. Qed.

Lemma C7_witness_small_field :
  (no_overlap ex_mp ex_dimX dimY (round (dx (project ex_sweet 0 ex_star0)))
              (round (dy (project ex_sweet 0 ex_star0))) ->
   star_step ex_mp (removelast ex_files) ex_sweet ex_dimX dimY 0
             (project ex_sweet 0 ex_star0) ex_st0 = Ret ex_st0)
  /\ (~ no_overlap ex_mp ex_dimX dimY (round (dx (project ex_sweet 0 ex_star0)))
                   (round (dy (project ex_sweet 0 ex_star0))) ->
      exists w,
        subsection ex_mp ex_dimX dimY (round (dx (project ex_sweet 0 ex_star0)))
                   (round (dy (project ex_sweet 0 ex_star0))) = Some w
        /\ window_fits ex_mp ex_dimX dimY w
        /\ slice_len (dimXmod ex_mp) (mx0 w) (mx1 w)
           = slice_len ex_dimX (x0 w) (x0 w + mx1 w - mx0 w)
        /\ slice_len (dimYmod ex_mp) (my0 w) (my1 w)
           = slice_len dimY (y0 w) (y0 w + my1 w - my0 w))
  /\ (forall n, params_ok ex_mp (removelast ex_files) ->
                cube_ok ex_dimX dimY n (simuCube ex_st0) -> Z.of_nat 0 + 2 < n ->
                exists st', star_step ex_mp (removelast ex_files) ex_sweet
                              ex_dimX dimY 0 (project ex_sweet 0 ex_star0) ex_st0
                            = Ret st').
Proof.
  apply (@C7_overlap_window_fits ex_mp (removelast ex_files) ex_sweet ex_dimX
           0%nat (project ex_sweet 0 ex_star0) ex_st0).
  - unfold ex_dimX. lia.
  - simpl. lia.
  - simpl. lia.
  - exact ex_star0_classified.
Defined.

(** A star 7 columns left of the target: the window is clipped on the
    left of the model array and starts 5 columns into the frame. *)
Example subsection_clipped :
  subsection ex_mp 8 dimY 7 0
  = Some {| x0 := 5; y0 := 0; mx0 := 0; mx1 := 3; my0 := 20; my1 := 2068 |}.
Proof. reflexivity. Qed.

(** A star so far to the left that the window starts beyond the model
    array is skipped. *)
Example subsection_skipped : subsection ex_mp 8 dimY (-9) 0 = None.
Proof. reflexivity. Qed.

(** *** Claim C8 *)

(** Claim C8.  A star whose projected position at an angle is outside the
    window x in [-162, 2047+185], y in [-154, 2047+174] gives nothing to
    that pass of the loop: the pass leaves the cube and the history it
    would leave if the star were not in the field at all. *)
Theorem C8_star_outside_field_contributes_nothing
    (mp : modelParam) (saveFiles : list ndarray3) (sweetSpot : sweet_spot)
    (dimX : Z) (kPA : nat) (APA : Z) (l1 l2 : list star) (s : star)
    (c : ndarray3) (ws : list cube_write) :
  outside_field (project sweetSpot (IZR APA) s) ->
  cube_and_writes
    (angle_step mp saveFiles sweetSpot dimX dimY kPA APA
       {| stars := l1 ++ s :: l2; simuCube := c; writes := ws |})
  = cube_and_writes
      (angle_step mp saveFiles sweetSpot dimX dimY kPA APA
         {| stars := l1 ++ l2; simuCube := c; writes := ws |})
  /\ angle_writes mp sweetSpot dimX dimY kPA APA (l1 ++ s :: l2)
     = angle_writes mp sweetSpot dimX dimY kPA APA (l1 ++ l2).
Proof.
  intros Hout. apply outside_field_not_in_FOV in Hout.
  assert (E : filter in_FOV (map (project sweetSpot (IZR APA)) (l1 ++ s :: l2))
              = filter in_FOV (map (project sweetSpot (IZR APA)) (l1 ++ l2))).
  { rewrite !map_app, !filter_app. simpl. now rewrite Hout. }
  split.
  - rewrite !angle_step_by_field. cbn [stars]. rewrite E.
    change {| stars := l1 ++ s :: l2; simuCube := c; writes := ws |}
      with (with_stars (l1 ++ s :: l2)
              {| stars := l1 ++ l2; simuCube := c; writes := ws |}).
    now rewrite foldM_with_stars, cube_and_writes_with_stars.
  - unfold angle_writes. now rewrite E.
Qed.

Lemma cos_PI2_0 : cos (PI / 2 + 0 / radeg) = 0%R.
Proof.
  replace (PI / 2 + 0 / radeg)%R with (PI / 2)%R by (unfold Rdiv; ring).
  apply cos_PI2.
Qed.

Lemma sin_PI2_0 : sin (PI / 2 + 0 / radeg) = 1%R.
Proof.
  replace (PI / 2 + 0 / radeg)%R with (PI / 2)%R by (unfold Rdiv; ring).
  apply sin_PI2.
Qed.

(** At position angle 0 the star 130 arcsec north of the target is 2000
    pixels left of the sweet spot, outside the field. *)
Lemma ex_far_outside_at_0 : outside_field (project ex_sweet 0 ex_far).
Proof.
  left. unfold project. cbn [x dRA dDEC ex_far ex_sweet sweet_x].
  rewrite cos_PI2_0, sin_PI2_0. unfold niriss_pixel_scale. lra.
Qed.

Lemma C8_witness_far_star :
  cube_and_writes
    (angle_step ex_mp (removelast ex_files) ex_sweet ex_dimX dimY 0 0
       {| stars := [ex_star0] ++ ex_far :: []; simuCube := ex_cube0;
          writes := [] |})
  = cube_and_writes
      (angle_step ex_mp (removelast ex_files) ex_sweet ex_dimX dimY 0 0
         {| stars := [ex_star0] ++ []; simuCube := ex_cube0; writes := [] |})
  /\ angle_writes ex_mp ex_sweet ex_dimX dimY 0 0 ([ex_star0] ++ ex_far :: [])
     = angle_writes ex_mp ex_sweet ex_dimX dimY 0 0 ([ex_star0] ++ []).
Proof.
  exact (@C8_star_outside_field_contributes_nothing ex_mp (removelast ex_files)
           ex_sweet ex_dimX 0%nat 0 [ex_star0] [] ex_far ex_cube0 []
           ex_far_outside_at_0).
Defined.

(** The same star is inside the field at position angle 270: a star
    dropped at one angle comes back at another. *)
Example ex_far_inside_at_270 : in_FOV (project ex_sweet 270 ex_far) = true.
Proof.
  assert (E : (PI / 2 + 270 / radeg = 2 * PI)%R).
  { unfold radeg. field. apply PI_neq0. }
  unfold in_FOV, project. cbn [x y dRA dDEC ex_far ex_sweet sweet_x sweet_y].
  rewrite E, cos_2PI, sin_2PI. unfold niriss_pixel_scale.
  rewrite !Rleb_true by lra. reflexivity.
Qed.

(** *** Claim C9 *)

(** What lines 38-47 do with a companion: one star is appended, its
    three magnitudes are the three inputs, and the [H] magnitudes of the
    catalogue stars are replaced by their [K] magnitudes. *)
Lemma read_field_companion (targetRA targetDEC : R) (info : list catalog_row)
    (b : companion) (f : field) :
  read_field targetRA targetDEC info (Some b) = Ret f ->
  List.length (allRA f) = S (List.length info)
  /\ Jmag f = map j_m info ++ [compJ b]
  /\ Hmag f = map k_m info ++ [compH b]
  /\ Kmag f = map k_m info ++ [compK b]
  /\ J_Hobs f = zip_with Rminus (Jmag f) (Hmag f)
  /\ H_Kobs f = zip_with Rminus (Hmag f) (Kmag f).
Proof.
  unfold read_field. intros H.
  apply bind_Ret in H. destruct H as (t & _ & H).
  apply bind_Ret in H. destruct H as (raT & _ & H).
  apply bind_Ret in H. destruct H as (decT & _ & H).
  injection H as <-. simpl.
  rewrite length_app, length_map. simpl.
  repeat split. lia.
Qed.

(** Claim C9 fails on the code.  The catalogue holds one star with
    J = 10, H = 9, K = 8 and a companion [5, 0, 10, 9.8, 9.7] is given.
    There are two stars afterwards and the companion has the magnitudes
    given, but the star of the catalogue has lost its H magnitude: its
    [Hmag] is its K magnitude 8, its J-H is 10 - 8 and not 10 - 9, its
    H-K is 8 - 8 and not 9 - 8. *)
Theorem C9_companion_overwrites_H_magnitudes :
  exists f,
    read_field 10 0 ex_info
      (Some {| deltaRA := 5; deltaDEC := 0; compJ := 10; compH := 98 / 10;
               compK := 97 / 10 |}) = Ret f
    /\ List.length (allRA f) = 2%nat
    /\ Jmag f = [10; 10]%R /\ Hmag f = [8; 98 / 10]%R
    /\ Kmag f = [8; 97 / 10]%R
    /\ nth 0 (J_Hobs f) 0%R = (10 - 8)%R
    /\ nth 0 (J_Hobs f) 0%R <> (10 - 9)%R
    /\ nth 0 (H_Kobs f) 0%R = (8 - 8)%R
    /\ nth 0 (H_Kobs f) 0%R <> (9 - 8)%R
    /\ nth 1 (J_Hobs f) 0%R = (10 - 98 / 10)%R
    /\ nth 1 (H_Kobs f) 0%R = (98 / 10 - 97 / 10)%R.
Proof.
  eexists. split; [reflexivity|]. simpl.
  repeat split; lra.
Qed.

(** *** Claim C10 *)

(** Claim C10.  At any angle, a star whose pixel offset rounds to (0, 0)
    adds nothing to plane [kPA + 2]: the loop body leaves the plane as it
    was and stores, if anything, by assignment; and whenever the loop
    body adds to a plane, the rounded offset of the star is not (0, 0). *)
Theorem C10_zero_offset_star_adds_nothing
    (mp : modelParam) (saveFiles : list ndarray3) (sweetSpot : sweet_spot)
    (dimX : Z) (kPA : nat) (s : star) (st st' : sim) :
  star_step mp saveFiles sweetSpot dimX dimY kPA s st = Ret st' ->
  writes st' = writes st ++ star_writes mp dimX dimY kPA s
  /\ (zero_offset s ->
      same_plane (simuCube st) (simuCube st') (Z.of_nat kPA + 2)
      /\ Forall (fun w => w_kind w = Assigned)
                (star_writes mp dimX dimY kPA s))
  /\ (forall w, In w (star_writes mp dimX dimY kPA s) ->
                w_kind w = Added -> ~ zero_offset s).
Proof.
  intros H.
  pose proof (star_step_writes _ _ _ _ _ _ _ _ H) as W.
  split; [exact W|]. split.
  - intros Hz.
    assert (Ht : targetb s = true).
    { destruct (targetb_spec s); [reflexivity | contradiction]. }
    assert (A : Forall (fun w => w_kind w = Assigned)
                       (star_writes mp dimX dimY kPA s)).
    { rewrite (star_writes_target _ _ _ _ _ Ht).
      destruct (has_window mp dimX dimY s && (kPA =? 0)%nat);
        repeat constructor. }
    split; [|exact A].
    destruct (star_step_extends _ _ _ _ _ _ _ _ H) as (_ & new & Wn & L & _ & F).
    rewrite W in Wn. apply app_inv_head in Wn. subst new.
    apply F. intros w Hw Hp.
    rewrite Forall_forall in A, L.
    specialize (A w Hw). specialize (L w Hw).
    destruct L as [(_ & Hpl & _) | (Hk & _)]; [lia | congruence].
  - intros w Hw Hk Hz.
    assert (Ht : targetb s = true).
    { destruct (targetb_spec s); [reflexivity | contradiction]. }
    rewrite (star_writes_target _ _ _ _ _ Ht) in Hw.
    destruct (has_window mp dimX dimY s && (kPA =? 0)%nat); simpl in Hw;
      [|contradiction].
    destruct Hw as [<-|[<-|[]]]; discriminate.
Qed.

(** At position angle 0 the field star 13 mas east of the target is a
    fifth of a pixel from it: its offset rounds to (0, 0). *)
Lemma ex_near_on_target : targetb (project ex_sweet 0 ex_near) = true.
Proof.
  unfold targetb, project. cbn [dx dy dRA dDEC ex_near].
  rewrite cos_PI2_0, sin_PI2_0. unfold niriss_pixel_scale.
  rewrite (@round_near _ 0), (@round_near _ 0); [reflexivity | |];
    simpl; lra.
Qed.

Lemma C10_witness_field_star_on_target :
  exists st',
    star_step ex_mp (removelast ex_files) ex_sweet ex_dimX dimY 0
              (project ex_sweet 0 ex_near) ex_st0 = Ret st'
    /\ writes st' = writes ex_st0
                    ++ star_writes ex_mp ex_dimX dimY 0 (project ex_sweet 0 ex_near)
    /\ (zero_offset (project ex_sweet 0 ex_near) ->
        same_plane (simuCube ex_st0) (simuCube st') (Z.of_nat 0 + 2)
        /\ Forall (fun w => w_kind w = Assigned)
                  (star_writes ex_mp ex_dimX dimY 0 (project ex_sweet 0 ex_near)))
    /\ (forall w,
          In w (star_writes ex_mp ex_dimX dimY 0 (project ex_sweet 0 ex_near)) ->
          w_kind w = Added -> ~ zero_offset (project ex_sweet 0 ex_near)).
Proof.
  destruct (@ex_target_step ex_st0 (project ex_sweet 0 ex_near)
              ex_near_on_target eq_refl) as (st' & H & _).
  { repeat split. }
  exists st'. split; [exact H|].
  exact (C10_zero_offset_star_adds_nothing _ _ _ _ _ _ _ H).
Defined.

End FieldProofs.

(* ================================================================= *)
(** ** Properties of the model grid *)

Module GridProofs.

Import Core.
Import GridSpec.
Import GridExamples.
Local Open Scope Q_scope.

(** *** Statements *)

Lemma mbind_ret {A B : Type} (m : M A) (f : A -> M B) (w w1 : world) (a : A) :
  m w = (Ret a, w1) -> mbind m f w = f a w1.
Proof. intros H. unfold mbind. now rewrite H. Qed.

Lemma mbind_raise {A B : Type} (m : M A) (f : A -> M B) (w w1 : world) (e : exn) :
  m w = (Raise e, w1) -> mbind m f w = (Raise e, w1).
Proof. intros H. unfold mbind. now rewrite H. Qed.

Lemma try_pass_never_raises (m : M unit) : never_raises (try_pass m).
Proof.
  intros w. unfold try_pass.
  destruct (m w) as [[[]|e] w']; eauto.
Qed.

Lemma for_each_never_raises {A : Type} (l : list A) (body : A -> M unit) :
  (forall a, never_raises (body a)) -> never_raises (for_each l body).
Proof.
  intros Hb. induction l as [|a l IH]; intros w; simpl.
  - unfold ret. eauto.
  - destruct (Hb a w) as (w1 & H1).
    rewrite (@mbind_ret _ _ _ _ _ _ _ H1). apply IH.
Qed.

Lemma print_never_raises (m : message) : never_raises (print m).
Proof. intros w. unfold print. eauto. Qed.

(** [load_flux] swallows every exception of its loop body. *)
Lemma load_flux_body_never_raises (get : Q -> Q -> Q -> M (option model)) :
  never_raises (load_flux_body get).
Proof.
  intros w. unfold load_flux_body, mbind at 1, get_self.
  destruct (array (self w)).
  - apply print_never_raises.
  - apply for_each_never_raises. intros (nt & teff).
    apply for_each_never_raises. intros (ng & logg0).
    apply for_each_never_raises. intros (nm & feh).
    apply try_pass_never_raises.
Qed.

(** *** [customize] *)

(** A call of [customize] that would keep no row of a consistent grid
    returns; it restores the table, and with it the ranges and the value
    lists, and it prints three lines.  The wavelength range and the
    number of bins stay as the call set them before it filtered the
    table. *)
Lemma customize_refused (tr lr fr wr : Q * Q) (nb : option Q) (w : world) :
  kept tr lr fr (self w) = [] ->
  ranges_consistent (self w) ->
  customize tr lr fr wr nb w
  = (Ret tt,
     {| self := with_wave (self w) wr (n_bins_or nb (self w));
        loads := loads w;
        stdout := stdout w ++ [MsgSummary 0 (List.length (data (self w)));
                               MsgWouldLeaveZero; MsgNotUpdated] |}).
Proof.
  intros Hk (T0 & T1 & L0 & L1 & F0 & F1 & Tv & Lv & Fv).
  unfold kept in Hk.
  unfold customize, mbind, get_self, set_self, print, ret, lift.
  cbn [self loads stdout data with_wave with_data].
  rewrite Hk.
  cbn [List.length Nat.eqb self loads stdout data with_wave with_data].
  rewrite T0, T1, L0, L1, F0, F1.
  rewrite <- Tv, <- Lv, <- Fv, <- !surjective_pairing, <- !app_assoc.
  unfold n_bins_or. destruct (self w). reflexivity.
Qed.

Lemma ex_grid_consistent : ranges_consistent ex_grid.
Proof. repeat split. Qed.

(** Claim C2 fails on the code.  The grid of one model (Teff 5000) is
    customized to the Teff range 6000-7000, which keeps no model, with
    [wave_rng = (1, 2)] and [n_bins = 100].  The call returns without an
    error and leaves the table, the three ranges and the three value
    lists as they were, but the grid's wavelength range is now (1, 2)
    where it was (0, 40), and its number of bins is 100 where it was
    1E10. *)
Theorem C2_refused_customize_keeps_new_wave_rng_and_n_bins :
  let r := customize (6000, 7000) (0, 6) (-3, 3) (1, 2) (Some 100) ex_world in
  let g' := self (snd r) in
  fst r = Ret tt
  /\ data g' = data ex_grid
  /\ Teff_rng g' = Teff_rng ex_grid /\ logg_rng g' = logg_rng ex_grid
  /\ FeH_rng g' = FeH_rng ex_grid
  /\ Teff_vals g' = Teff_vals ex_grid /\ logg_vals g' = logg_vals ex_grid
  /\ FeH_vals g' = FeH_vals ex_grid
  /\ stdout (snd r) = [MsgSummary 0 1; MsgWouldLeaveZero; MsgNotUpdated]
  /\ wave_rng ex_grid = (0, 40) /\ wave_rng g' = (1, 2)
  /\ n_bins ex_grid = 10000000000 /\ n_bins g' = 100.
Proof.
  rewrite (@customize_refused (6000, 7000) (0, 6) (-3, 3) (1, 2) (Some 100)
             ex_world eq_refl ex_grid_consistent).
  cbn. repeat split.
Qed.

(** *** [get] outside the grid *)

Lemma in_range_outside (rng : Q * Q) (v : Q) :
  outside rng v -> in_range rng v = false.
Proof.
  unfold outside, in_range. intros [H|H].
  - destruct (Qle_bool (fst rng) v) eqn:E; [|reflexivity].
    apply Qle_bool_iff in E. exfalso. exact (Qlt_not_le _ _ H E).
  - destruct (Qle_bool v (snd rng)) eqn:E; [|now rewrite andb_false_r].
    apply Qle_bool_iff in E. exfalso. exact (Qlt_not_le _ _ H E).
Qed.

Lemma get_outside_grid (disk : string -> option fits_file) (depth : nat)
    (T l F : Q) (w : world) :
  in_grid (self w) T l F = false ->
  get disk depth T l F w = (Ret None, printed w (MsgNotInGrid T l F)).
Proof.
  intros H. unfold get, get_body, mbind, get_self. now rewrite H.
Qed.

(** Claim C3, as the code has it.  When any of the three parameters is
    outside the recorded range of its axis, [get] prints the line
    "model not in grid" and returns [None].  It raises no error; the
    object is as it was and no file has been read, so no model data is
    loaded and nothing is interpolated. *)
Theorem C3_get_outside_grid_returns_None
    (disk : string -> option fits_file) (depth : nat) (T l F : Q) (w : world) :
  outside (Teff_rng (self w)) T \/ outside (logg_rng (self w)) l
  \/ outside (FeH_rng (self w)) F ->
  get disk depth T l F w = (Ret None, printed w (MsgNotInGrid T l F))
  /\ self (snd (get disk depth T l F w)) = self w
  /\ loads (snd (get disk depth T l F w)) = loads w.
Proof.
  intros H.
  assert (E : in_grid (self w) T l F = false).
  { unfold in_grid. destruct H as [H|[H|H]];
      rewrite (in_range_outside H); now rewrite ?andb_false_r. }
  rewrite (@get_outside_grid disk depth T l F w E). repeat split.
Qed.

Lemma C3_witness_hot_star :
  get ex_disk 1 9000 (45 # 10) 0 ex_world
  = (Ret None, printed ex_world (MsgNotInGrid 9000 (45 # 10) 0))
  /\ self (snd (get ex_disk 1 9000 (45 # 10) 0 ex_world)) = self ex_world
  /\ loads (snd (get ex_disk 1 9000 (45 # 10) 0 ex_world)) = loads ex_world.
Proof.
  apply (@C3_get_outside_grid_returns_None ex_disk 1 9000 (45 # 10) 0 ex_world).
  left. right. reflexivity.
Defined.

(** Claim C3 as it is written fails: for Teff 9000 on the grid whose only
    model has Teff 5000, [get] returns [None]; it raises nothing. *)
Lemma C3_counterexample_no_error_raised :
  fst (get ex_disk 1 9000 (45 # 10) 0 ex_world) = Ret None
  /\ forall e, fst (get ex_disk 1 9000 (45 # 10) 0 ex_world) <> Raise e.
Proof.
  split; [reflexivity | intros e; discriminate].
Qed.

(** *** [grid_interp] *)

Lemma load_flux_never_raises (disk : string -> option fits_file) (d : nat) :
  never_raises (load_flux disk (S d)).
Proof. simpl. apply load_flux_body_never_raises. Qed.

(** Whatever [load_flux] does, [grid_interp] ends in an exception: the
    one [load_flux] raised, [AttributeError] when the array is still the
    string it was created as, [UnboundLocalError] on line 542 otherwise. *)
Lemma grid_interp_body_raises (lf : M unit) (T l F : Q) (w : world) :
  exists e w', grid_interp_body lf T l F w = (Raise e, w')
    /\ (e = UnboundLocalError \/ e = AttributeError
        \/ exists w0, lf w0 = (Raise e, w')).
Proof.
  unfold grid_interp_body, mbind at 1, get_self.
  destruct (array (self w)) as [a|] eqn:Ea.
  - unfold mbind, ret, get_self, raise. rewrite Ea. eauto 6.
  - unfold mbind at 1. unfold mbind at 1, print.
    destruct (lf _) as [[[]|e] w1] eqn:El.
    + unfold mbind, get_self, raise.
      destruct (array (self w1)); eauto 6.
    + exists e, w1. split; [reflexivity|]. right. right. eauto.
Qed.

Lemma grid_interp_raises (disk : string -> option fits_file) (depth : nat)
    (T l F : Q) (w : world) :
  exists e w', grid_interp disk depth T l F w = (Raise e, w')
    /\ (e = UnboundLocalError \/ e = AttributeError \/ e = RecursionError).
Proof.
  unfold grid_interp.
  destruct (grid_interp_body_raises (load_flux disk depth) T l F w)
    as (e & w' & H & He).
  exists e, w'. split; [exact H|].
  destruct He as [He|[He|(w0 & Hw0)]]; [now left | now right; left |].
  destruct depth as [|d].
  - simpl in Hw0. unfold raise in Hw0. injection Hw0 as <- _. now right; right.
  - destruct (load_flux_never_raises disk d w0) as (w1 & Hw1).
    rewrite Hw1 in Hw0. discriminate.
Qed.

(** Inside the recorded ranges and off the grid points, [get] calls
    [grid_interp] and ends in its exception. *)
Lemma get_off_grid_raises (disk : string -> option fits_file) (depth : nat)
    (T l F : Q) (w : world) :
  in_grid (self w) T l F = true ->
  existsb (matches T l F) (data (self w)) = false ->
  exists e w', get disk depth T l F w = (Raise e, w').
Proof.
  intros Hin Hoff. unfold get, get_body, mbind at 1, get_self.
  rewrite Hin, Hoff.
  destruct (grid_interp_raises disk depth T l F w) as (e & w' & H & _).
  unfold mbind. rewrite H. eauto.
Qed.

(** Claim C4 fails on the code.  [grid_interp] never returns a
    spectrum: every call ends in an exception, because line 542 reads
    [new_flux] before line 546 assigns it.  At the grid point
    (5000, 4.5, 0) of the grid of one model, [get] returns the stored
    wavelengths and fluxes, and [grid_interp] raises
    [UnboundLocalError] after it has loaded the flux array. *)
Theorem C4_grid_interp_raises_at_grid_point :
  (forall disk depth T l F w, exists e,
      fst (grid_interp disk depth T l F w) = Raise e)
  /\ (exists d,
        fst (get ex_disk 1 5000 (45 # 10) 0 ex_world) = Ret (Some (OnGrid d))
        /\ sd_flux d = [[1; 2]; [4; 5]]
        /\ List.length (sd_wave d) = 2%nat)
  /\ fst (grid_interp ex_disk 1 5000 (45 # 10) 0 ex_world)
     = Raise UnboundLocalError
  /\ option_map shape5 (array (self (snd (grid_interp ex_disk 1 5000 (45 # 10) 0
                                            ex_world))))
     = Some (1%nat, 1%nat, 1%nat, 2%nat, 2%nat).
Proof.
  split; [|split; [|split]].
  - intros disk depth T l F w.
    destruct (grid_interp_raises disk depth T l F w) as (e & w' & H & _).
    exists e. now rewrite H.
  - eexists. split; [vm_compute; reflexivity|]. split; reflexivity.
  - vm_compute. reflexivity.
  - vm_compute. reflexivity.
Qed.

End GridProofs.

(* ================================================================= *)
(** ** More on the field simulation: errors, geometry, compositing *)

Module FieldExtras.

Import SossFieldSim.
Import FieldSpec.
Import FieldExamples.
Import FieldProofs.
Local Open Scope Z_scope.

(** *** When the run returns and when it raises *)

Lemma setup_stars_length (targetRA targetDEC : R) (info : list catalog_row)
    (binComp : option companion) (dimX : Z) (mp : modelParam)
    (t : nat) (ss : sweet_spot) (st0 : sim) :
  setup targetRA targetDEC info binComp dimX mp = Ret (t, ss, st0) ->
  List.length (stars st0)
  = (List.length info + match binComp with Some _ => 1 | None => 0 end)%nat.
Proof.
  unfold setup. intros H.
  apply bind_Ret in H. destruct H as (f & Hf & H).
  apply bind_Ret in H. destruct H as (raT & _ & H).
  apply bind_Ret in H. destruct H as (decT & _ & H).
  apply bind_Ret in H. destruct H as (starsT & _ & H).
  apply bind_Ret in H. destruct H as (jT & _ & H).
  apply bind_Ret in H. destruct H as (cube & _ & H).
  injection H as <- <- <-. simpl.
  apply read_field_lengths in Hf. simpl in Hf.
  unfold build_stars. rewrite length_map, length_seq. tauto.
Qed.

Lemma sweep_stars_length (mp : modelParam) (saveFiles : list ndarray3)
    (sweetSpot : sweet_spot) (dimX dimY : Z) (PAtab : list Z)
    (kPAs : list nat) (st st' : sim) :
  sweep mp saveFiles sweetSpot dimX dimY PAtab kPAs st = Ret st' ->
  List.length (stars st') = List.length (stars st).
Proof.
  unfold sweep. intros H.
  apply (@foldM_invariant _ _ _ (fun _ => True)
           (fun s s' => List.length (stars s') = List.length (stars s))) in H;
    auto.
  - intros; congruence.
  - intros k s s' _ Hs.
    apply bind_Ret in Hs. destruct Hs as (APA & _ & Hs).
    rewrite (angle_step_stars _ _ _ _ _ _ _ _ Hs). apply length_map.
  - apply Forall_forall. trivial.
Qed.

(** A run returns when the catalogue is not empty, the colour table has
    three arrays of one non-zero length, the frame width is not negative
    and the arrays of the save files have the declared shapes.  The cube
    it returns has 362 planes of 2048 rows and [dimX] columns, and there
    is one star for every row of the catalogue, and one more with a
    companion. *)
Theorem run_returns_cube (targetRA targetDEC : R) (info : list catalog_row)
    (binComp : option companion) (dimX : Z) (mp : modelParam)
    (files : list ndarray3) :
  info <> [] ->
  jhMod mp <> [] ->
  List.length (jhMod mp) = List.length (hkMod mp) ->
  List.length (teffMod mp) = List.length (jhMod mp) ->
  0 <= dimX ->
  params_ok mp (removelast files) ->
  exists st',
    sossFieldSim targetRA targetDEC info binComp dimX mp files = Ret st'
    /\ dim0 (simuCube st') = 362 /\ dim1 (simuCube st') = 2048
    /\ dim2 (simuCube st') = dimX
    /\ List.length (stars st')
       = (List.length info + match binComp with Some _ => 1 | None => 0 end)%nat.
Proof.
  intros Hinfo Hne Hl1 Hl2 HX Hp.
  destruct (@sossFieldSim_returns targetRA targetDEC info binComp dimX mp files
              Hinfo Hne Hl1 Hl2 HX Hp) as (st' & H).
  exists st'. split; [exact H|].
  unfold sossFieldSim in H.
  apply bind_Ret in H. destruct H as (((t & ss) & st0) & Hs & H).
  cbn [fst snd] in H.
  destruct (setup_spec _ _ _ _ _ _ Hs) as (_ & _ & _ & _ & (C0 & C1 & C2) & _).
  destruct (sweep_extends _ _ _ _ _ _ _ _ H) as ((E0 & E1 & E2) & _).
  rewrite (sweep_stars_length _ _ _ _ _ _ _ _ H), (setup_stars_length _ _ _ _ _ _ Hs).
  rewrite E0, E1, E2, C0, C1, C2.
  destruct nPA_360 as [-> _]. repeat split.
Qed.

Lemma run_returns_cube_witness :
  exists st',
    sossFieldSim 10 0 ex_info (Some ex_twin) ex_dimX ex_mp ex_files = Ret st'
    /\ dim0 (simuCube st') = 362 /\ dim1 (simuCube st') = 2048
    /\ dim2 (simuCube st') = ex_dimX
    /\ List.length (stars st') = (List.length ex_info + 1)%nat.
Proof.
  apply (@run_returns_cube 10 0 ex_info (Some ex_twin) ex_dimX ex_mp ex_files).
  - discriminate.
  - discriminate.
  - reflexivity.
  - reflexivity.
  - unfold ex_dimX. lia.
  - exact ex_params_ok.
Defined.

(** With an empty catalogue [np.argmin] of line 34 raises: the run ends
    in [ValueError], with or without a companion. *)
Theorem empty_catalogue_raises (targetRA targetDEC : R)
    (binComp : option companion) (dimX : Z) (mp : modelParam)
    (files : list ndarray3) :
  sossFieldSim targetRA targetDEC [] binComp dimX mp files = Raise ValueError.
Proof. reflexivity. Qed.

(** With an empty colour table [np.argmin] of line 70 raises for the
    first star: the run ends in [ValueError]. *)
Theorem empty_colour_table_raises (targetRA targetDEC : R)
    (info : list catalog_row) (binComp : option companion) (dimX : Z)
    (mp : modelParam) (files : list ndarray3) :
  info <> [] -> jhMod mp = [] -> hkMod mp = [] ->
  sossFieldSim targetRA targetDEC info binComp dimX mp files = Raise ValueError.
Proof.
  intros Hinfo Hj Hh. unfold sossFieldSim, setup.
  destruct (read_field_returns targetRA targetDEC binComp Hinfo) as (f & Hf).
  rewrite Hf. cbn [bind].
  apply read_field_lengths in Hf. cbn zeta in Hf.
  destruct Hf as (L1 & L2 & L3 & L4 & L5 & L6 & Hlt & Hn).
  destruct (@index_lt _ (allRA f) (targetIndex f) Hlt) as (raT & ->). cbn [bind].
  destruct (@index_lt _ (allDEC f) (targetIndex f) ltac:(lia)) as (decT & ->).
  cbn [bind].
  assert (E : assign_all_Teff mp f (List.length (allRA f)) = Raise ValueError).
  { unfold assign_all_Teff.
    destruct (List.length (allRA f)) as [|n] eqn:En; [lia|].
    cbn [seq mapM].
    destruct (@index_lt _ (J_Hobs f) 0%nat ltac:(lia)) as (jh & ->). cbn [bind].
    destruct (@index_lt _ (H_Kobs f) 0%nat ltac:(lia)) as (hk & ->). cbn [bind].
    unfold assign_Teff, color_separation. rewrite Hj, Hh. reflexivity. }
  rewrite E. reflexivity.
Qed.

Lemma empty_colour_table_raises_witness :
  sossFieldSim 10 0 ex_info None ex_dimX
    {| models := ex_models; modelPadX := 2; modelPadY := 20;
       dimXmod := 10; dimYmod := 2100;
       jhMod := []; hkMod := []; teffMod := [] |} ex_files
  = Raise ValueError.
Proof.
  apply empty_colour_table_raises.
  - discriminate.
  - reflexivity.
  - reflexivity.
Defined.

(** A negative frame width makes [np.zeros] of line 97 raise: the run
    ends in [ValueError] before the loop starts. *)
Theorem negative_dimX_raises (targetRA targetDEC : R)
    (info : list catalog_row) (binComp : option companion) (dimX : Z)
    (mp : modelParam) (files : list ndarray3) :
  info <> [] ->
  jhMod mp <> [] ->
  List.length (jhMod mp) = List.length (hkMod mp) ->
  List.length (teffMod mp) = List.length (jhMod mp) ->
  dimX < 0 ->
  sossFieldSim targetRA targetDEC info binComp dimX mp files = Raise ValueError.
Proof.
  intros Hinfo Hne Hl1 Hl2 HX.
  destruct (@setup_returns targetRA targetDEC info binComp 0 mp
              Hinfo Hne Hl1 Hl2 ltac:(lia)) as (r & Hr).
  unfold sossFieldSim, setup in *.
  destruct (read_field targetRA targetDEC info binComp) as [f|e];
    cbn [bind] in *; [|discriminate].
  destruct (index (allRA f) (targetIndex f)) as [raT|e];
    cbn [bind] in *; [|discriminate].
  destruct (index (allDEC f) (targetIndex f)) as [decT|e];
    cbn [bind] in *; [|discriminate].
  destruct (assign_all_Teff mp f _) as [starsT|e];
    cbn [bind] in *; [|discriminate].
  destruct (index (Jmag f) (targetIndex f)) as [jT|e];
    cbn [bind] in *; [|discriminate].
  unfold zeros.
  destruct (Z.ltb_spec dimX 0); [|lia].
  rewrite !orb_true_r. reflexivity.
Qed.

Lemma negative_dimX_raises_witness :
  sossFieldSim 10 0 ex_info None (-1) ex_mp ex_files = Raise ValueError.
Proof.
  apply negative_dimX_raises.
  - discriminate.
  - discriminate.
  - reflexivity.
  - reflexivity.
  - lia.
Defined.

(** *** The projection is a rotation *)

Lemma sin2_cos2_mult (a : R) : (sin a * sin a + cos a * cos a = 1)%R.
Proof. pose proof (sin2_cos2 a) as H. unfold Rsqr in H. exact H. Qed.

(** The projection keeps the separation of a star from the target: at
    every position angle the pixel offset has the length of the angular
    offset, in pixels. *)
Theorem projection_keeps_separation (sweetSpot : sweet_spot) (APA : R) (s : star) :
  (dx (project sweetSpot APA s) * dx (project sweetSpot APA s)
   + dy (project sweetSpot APA s) * dy (project sweetSpot APA s)
   = (dRA s * dRA s + dDEC s * dDEC s)
     / (niriss_pixel_scale * niriss_pixel_scale))%R.
Proof.
  unfold project. cbn [dx dy].
  set (c := cos (PI / 2 + APA / radeg)). set (n := sin (PI / 2 + APA / radeg)).
  assert (H : (n * n + c * c = 1)%R) by apply sin2_cos2_mult.
  unfold niriss_pixel_scale.
  replace ((c * dRA s - n * dDEC s) / (65 / 1000)
           * ((c * dRA s - n * dDEC s) / (65 / 1000))
           + (n * dRA s + c * dDEC s) / (65 / 1000)
             * ((n * dRA s + c * dDEC s) / (65 / 1000)))%R
    with ((n * n + c * c) * (dRA s * dRA s + dDEC s * dDEC s)
          / (65 / 1000 * (65 / 1000)))%R by field.
  rewrite H. field.
Qed.






(** *** The flux scale *)

Lemma fluxscale_as_exp (sweetSpot : sweet_spot) (s : star) :
  fluxscale_of sweetSpot s
  = exp (- (4 / 10) * (jmag s - sweet_jmag sweetSpot) * ln 10).
Proof. reflexivity. Qed.


(** *** Which model pixel lands on which frame pixel *)

Lemma subsection_None_inv (mp : modelParam) (dimX dimY intx inty : Z) :
  subsection mp dimX dimY intx inty = None ->
  no_overlap mp dimX dimY intx inty.
Proof.
  intros H.
  destruct (Z_gt_dec (modelPadX mp - intx) (dimXmod mp)) as [|N1];
    [left; assumption|].
  destruct (Z_gt_dec (modelPadY mp - inty) (dimYmod mp)) as [|N2];
    [right; left; assumption|].
  destruct (Z_lt_dec (modelPadX mp - intx + dimX) 0) as [|N3];
    [right; right; left; assumption|].
  destruct (Z_lt_dec (modelPadY mp - inty + dimY) 0) as [|N4];
    [right; right; right; assumption|].
  assert (Hn : ~ no_overlap mp dimX dimY intx inty)
    by (unfold no_overlap; lia).
  destruct (subsection_some Hn) as (w & Hw & _). congruence.
Qed.

(** The model pixel that the loop body puts on frame pixel [(y, x)] for
    a star of rounded offset [(intx, inty)]. *)
Lemma contribution_closed_form (mp : modelParam) (sweetSpot : sweet_spot)
    (dimX dimY : Z) (s : star) (k : nat) (y x : Z) :
  0 <= dimX -> 0 <= dimY -> 0 <= dimXmod mp -> 0 <= dimYmod mp ->
  where_first (teffMod mp) (T s) = Some k ->
  targetb s = false ->
  contribution mp sweetSpot dimX dimY s y x
  = if (0 <=? y) && (y <? dimY) && (0 <=? x) && (x <? dimX)
       && (0 <=? y + modelPadY mp - round (dy s))
       && (y + modelPadY mp - round (dy s) <? dimYmod mp)
       && (0 <=? x + modelPadX mp - round (dx s))
       && (x + modelPadX mp - round (dx s) <? dimXmod mp)
    then (at3 (models mp) (Z.of_nat k) (y + modelPadY mp - round (dy s))
              (x + modelPadX mp - round (dx s))
          * fluxscale_of sweetSpot s)%R
    else 0%R.
Proof.
  intros HX HY HXm HYm Hk Ht. unfold contribution. rewrite Hk, Ht.
  cbn [negb andb].
  set (intx := round (dx s)). set (inty := round (dy s)).
  destruct (subsection mp dimX dimY intx inty) as [w|] eqn:Ew.
  - assert (Hn : ~ no_overlap mp dimX dimY intx inty).
    { intros Hn. rewrite (subsection_none Hn) in Ew. discriminate. }
    destruct (subsection_some Hn) as (w' & Hw' & E1 & E2 & E3 & E4 & E5 & E6).
    rewrite Ew in Hw'. injection Hw' as <-.
    unfold no_overlap in Hn.
    match goal with |- (if ?a then _ else _) = (if ?b then _ else _) =>
      destruct a eqn:Ea; destruct b eqn:Eb end.
    + rewrite !andb_true_iff, !Z.leb_le, !Z.ltb_lt in Ea.
      f_equal. f_equal; lia.
    + exfalso. apply not_true_iff_false in Eb. apply Eb.
      rewrite !andb_true_iff, !Z.leb_le, !Z.ltb_lt in *. lia.
    + exfalso. apply not_true_iff_false in Ea. apply Ea.
      rewrite !andb_true_iff, !Z.leb_le, !Z.ltb_lt in *. lia.
    + reflexivity.
  - apply subsection_None_inv in Ew. unfold no_overlap in Ew.
    match goal with |- _ = (if ?b then _ else _) => destruct b eqn:Eb end;
      [|reflexivity].
    exfalso. rewrite !andb_true_iff, !Z.leb_le, !Z.ltb_lt in Eb. lia.
Qed.

(** For a field star the loop body adds to frame pixel [(y, x)] of plane
    [kPA + 2] the scaled model pixel
    [(y + modelPadY - inty, x + modelPadX - intx)], when that pixel
    exists in the model array, and nothing otherwise: the clipping of
    the window moves no pixel. *)
Theorem field_star_pixel_alignment (mp : modelParam) (saveFiles : list ndarray3)
    (sweetSpot : sweet_spot) (dimX : Z) (kPA : nat) (s : star)
    (st st' : sim) (n : Z) (k : nat) :
  params_ok mp saveFiles -> 0 <= dimX ->
  cube_ok dimX dimY n (simuCube st) ->
  where_first (teffMod mp) (T s) = Some k ->
  ~ zero_offset s ->
  star_step mp saveFiles sweetSpot dimX dimY kPA s st = Ret st' ->
  forall y x,
    at3 (simuCube st') (Z.of_nat kPA + 2) y x
    = (at3 (simuCube st) (Z.of_nat kPA + 2) y x
       + if (0 <=? y) && (y <? dimY) && (0 <=? x) && (x <? dimX)
            && (0 <=? y + modelPadY mp - round (dy s))
            && (y + modelPadY mp - round (dy s) <? dimYmod mp)
            && (0 <=? x + modelPadX mp - round (dx s))
            && (x + modelPadX mp - round (dx s) <? dimXmod mp)
         then at3 (models mp) (Z.of_nat k) (y + modelPadY mp - round (dy s))
                  (x + modelPadX mp - round (dx s))
              * fluxscale_of sweetSpot s
         else 0)%R.
Proof.
  intros Hp HX Hc Hk Hnz H y x.
  rewrite (@star_step_plane _ _ _ _ _ _ _ _ _ Hp HX Hc H y x).
  destruct Hp as (HXm & HYm & _).
  rewrite (@contribution_closed_form mp sweetSpot dimX dimY s k y x);
    try assumption; try (unfold dimY; lia).
  - reflexivity.
  - destruct (targetb_spec s); [contradiction | reflexivity].
Qed.

Lemma ex_shifted_not_target : ~ zero_offset ex_shifted.
Proof.
  intros [Hx _]. simpl in Hx. rewrite round_IZR in Hx. discriminate.
Qed.

Lemma field_star_pixel_alignment_witness :
  exists st',
    star_step ex_mp (removelast ex_files) ex_sweet ex_dimX dimY 1
              ex_shifted ex_st0 = Ret st'
    /\ forall y x,
         at3 (simuCube st') (Z.of_nat 1 + 2) y x
         = (at3 (simuCube ex_st0) (Z.of_nat 1 + 2) y x
            + if (0 <=? y) && (y <? dimY) && (0 <=? x) && (x <? ex_dimX)
                 && (0 <=? y + modelPadY ex_mp - round (dy ex_shifted))
                 && (y + modelPadY ex_mp - round (dy ex_shifted) <? dimYmod ex_mp)
                 && (0 <=? x + modelPadX ex_mp - round (dx ex_shifted))
                 && (x + modelPadX ex_mp - round (dx ex_shifted) <? dimXmod ex_mp)
              then at3 (models ex_mp) (Z.of_nat 0)
                       (y + modelPadY ex_mp - round (dy ex_shifted))
                       (x + modelPadX ex_mp - round (dx ex_shifted))
                   * fluxscale_of ex_sweet ex_shifted
              else 0)%R.
Proof.
  assert (Hc : cube_ok ex_dimX dimY 362 (simuCube ex_st0)) by (repeat split).
  destruct (@star_step_returns ex_mp (removelast ex_files) ex_sweet ex_dimX
              1%nat ex_shifted ex_st0 362 ex_params_ok
              ltac:(unfold ex_dimX; lia) (or_introl eq_refl) Hc ltac:(lia))
    as (st' & H & _).
  exists st'. split; [exact H|].
  exact (@field_star_pixel_alignment ex_mp (removelast ex_files) ex_sweet
           ex_dimX 1%nat ex_shifted ex_st0 st' 362 0%nat ex_params_ok
           ltac:(unfold ex_dimX; lia) Hc (where_first_hd _ _)
           ex_shifted_not_target H).
Defined.

(** *** Compositing is additive *)













(** *** The field arrays *)






(** *** The companion *)






(** *** A field of the target alone *)

Lemma contribution_target (mp : modelParam) (sweetSpot : sweet_spot)
    (dimX dimY : Z) (s : star) (y x : Z) :
  targetb s = true -> contribution mp sweetSpot dimX dimY s y x = 0%R.
Proof.
  intros Ht. unfold contribution. rewrite Ht.
  destruct (where_first _ _); [|reflexivity].
  destruct (subsection _ _ _ _ _); reflexivity.
Qed.

Lemma field_sum_coincident (mp : modelParam) (sweetSpot : sweet_spot)
    (dimX dimY : Z) (APA : R) (l : list star) (y x : Z) :
  sweet_x sweetSpot = 856%R -> sweet_y sweetSpot = 107%R ->
  Forall (fun s => dRA s = 0%R /\ dDEC s = 0%R) l ->
  field_sum mp sweetSpot dimX dimY
    (filter in_FOV (map (project sweetSpot APA) l)) y x = 0%R.
Proof.
  intros Sx Sy Hl. induction Hl as [|s l (Ha & Hd) _ IH]; [reflexivity|].
  simpl.
  destruct (projected_target sweetSpot APA s Sx Sy Ha Hd) as (Hf & Ht).
  rewrite Hf. simpl. rewrite IH, (contribution_target _ _ _ _ _ _ _ Ht). lra.
Qed.

(** When the catalogue holds one star and no companion is given, the
    field is the target alone and every angle plane of the result is
    zero: there is nothing to contaminate the target. *)
Theorem target_alone_leaves_angle_planes_empty (targetRA targetDEC : R)
    (r : catalog_row) (dimX : Z) (mp : modelParam) (files : list ndarray3)
    (st' : sim) (k : nat) (y x : Z) :
  sossFieldSim targetRA targetDEC [r] None dimX mp files = Ret st' ->
  params_ok mp (removelast files) ->
  (k < 360)%nat ->
  at3 (simuCube st') (Z.of_nat k + 2) y x = 0%R.
Proof.
  intros H Hp Hk.
  destruct (run_history _ _ _ _ _ _ _ H)
    as (t & ss & st0 & st1 & Hs & _ & _ & _ & _ & _ & _ & _ & Hsum & _).
  rewrite (Hsum Hp k y x Hk).
  destruct (setup_spec _ _ _ _ _ _ Hs)
    as (Sx & Sy & _ & _ & _ & _ & _ & s & Hn & Ha & Hd & _).
  pose proof (setup_stars_length _ _ _ _ _ _ Hs) as Hlen. simpl in Hlen.
  destruct (stars st0) as [|s0 [|s1 l]]; try discriminate.
  assert (Ht : (t < List.length [s0])%nat)
    by (apply nth_error_Some; congruence).
  simpl in Ht. replace t with 0%nat in Hn by lia. injection Hn as ->.
  apply field_sum_coincident; try assumption.
  repeat constructor; assumption.
Qed.

Lemma target_alone_witness :
  exists st',
    sossFieldSim 10 0 [ex_row0] None ex_dimX ex_mp ex_files = Ret st'
    /\ at3 (simuCube st') (Z.of_nat 90 + 2) 100 1 = 0%R.
Proof.
  destruct (@sossFieldSim_returns 10 0 [ex_row0] None ex_dimX ex_mp ex_files
              ltac:(discriminate) ltac:(discriminate) eq_refl eq_refl
              ltac:(unfold ex_dimX; lia) ex_params_ok) as (st' & H).
  exists st'. split; [exact H|].
  exact (@target_alone_leaves_angle_planes_empty 10 0 ex_row0 ex_dimX ex_mp
           ex_files st' 90%nat 100 1 H ex_params_ok ltac:(lia)).
Defined.

(** *** What the reference planes hold *)

Lemma frame_hit_window (mp : modelParam) (dimX dimY : Z) (y x : Z) (w : window) :
  subsection mp dimX dimY 0 0 = Some w ->
  frame_hit mp dimX dimY y x
  = (y0 w <=? y) && (y <? y0 w + (my1 w - my0 w))
    && (x0 w <=? x) && (x <? x0 w + (mx1 w - mx0 w))
  /\ (frame_hit mp dimX dimY y x = true ->
      my0 w + (y - y0 w) = y + modelPadY mp
      /\ mx0 w + (x - x0 w) = x + modelPadX mp).
Proof.
  intros Ew.
  assert (Hn : ~ no_overlap mp dimX dimY 0 0).
  { intros Hn. rewrite (subsection_none Hn) in Ew. discriminate. }
  destruct (subsection_some Hn) as (w' & Hw' & E1 & E2 & E3 & E4 & E5 & E6).
  rewrite Ew in Hw'. injection Hw' as <-.
  unfold no_overlap in Hn. unfold frame_hit. split.
  - apply eq_true_iff_eq.
    rewrite !andb_true_iff, !Z.leb_le, !Z.ltb_lt. lia.
  - rewrite !andb_true_iff, !Z.leb_le, !Z.ltb_lt. lia.
Qed.

Lemma frame_hit_no_window (mp : modelParam) (dimX dimY : Z) (y x : Z) :
  subsection mp dimX dimY 0 0 = None -> frame_hit mp dimX dimY y x = false.
Proof.
  intros Ew. apply subsection_None_inv in Ew. unfold no_overlap in Ew.
  apply not_true_iff_false. unfold frame_hit.
  rewrite !andb_true_iff, !Z.leb_le, !Z.ltb_lt. lia.
Qed.

(** What the loop body does to planes 0 and 1 at the first angle. *)
Lemma star_step_reference_plane (mp : modelParam) (saveFiles : list ndarray3)
    (sweetSpot : sweet_spot) (dimX : Z) (s : star) (st st' : sim) (n : Z)
    (o : Z) :
  params_ok mp saveFiles -> 0 <= dimX ->
  cube_ok dimX dimY n (simuCube st) ->
  o = 0 \/ o = 1 ->
  star_step mp saveFiles sweetSpot dimX dimY 0 s st = Ret st' ->
  forall y x,
    at3 (simuCube st') o y x
    = if targetb s && frame_hit mp dimX dimY y x
      then reference_trace mp saveFiles sweetSpot o s y x
      else at3 (simuCube st) o y x.
Proof.
  intros (HXm & HYm & M1 & M2 & _ & _ & Hfiles) HX (C0 & C1 & C2) Ho H y x.
  pose proof (star_step_extends _ _ _ _ _ _ _ _ H) as (_ & new & Wn & L & _ & Fr).
  pose proof (star_step_writes _ _ _ _ _ _ _ _ H) as W.
  rewrite W in Wn. apply app_inv_head in Wn. subst new.
  destruct (targetb s) eqn:Ht; cbn [andb].
  2: { (* a field star stores into the plane of the angle *)
    apply Fr. intros w Hw Hp.
    rewrite Forall_forall in L. specialize (L w Hw).
    destruct L as [(_ & _ & _ & Hz) | (_ & Hpl & _)].
    - assert (Hws : w_star w = s).
      { unfold star_writes in Hw.
        destruct (subsection _ _ _ _ _); [|contradiction].
        rewrite Ht in Hw. simpl in Hw. destruct Hw as [<-|[]]. reflexivity. }
      rewrite Hws in Hz. destruct (targetb_spec s); [discriminate | contradiction].
    - lia. }
  assert (Hxy : round (dx s) = 0 /\ round (dy s) = 0).
  { destruct (targetb_spec s) as [Hz|]; [exact Hz | discriminate]. }
  destruct Hxy as [Hx Hy].
  unfold star_step in H. rewrite Hx, Hy in H.
  apply bind_Ret in H. destruct H as (k & Hk & H).
  destruct (where_first (teffMod mp) (T s)) as [k'|] eqn:Ek; [|discriminate].
  injection Hk as ->.
  destruct (subsection mp dimX dimY 0 0) as [w|] eqn:Ew.
  2: { injection H as <-.
       now rewrite (@frame_hit_no_window mp dimX dimY y x Ew). }
  assert (F : window_fits mp dimX dimY w).
  { eapply window_fits_of_subsection; try eassumption. unfold dimY. lia. }
  destruct (@frame_hit_window mp dimX dimY y x w Ew) as (Ehit & Epix).
  cbn in H.
  apply bind_Ret in H. destruct H as (st1 & H1 & H2).
  injection H2 as <-.
  apply bind_Ret in H1. destruct H1 as (m & Hm & H1).
  apply index_Ret in Hm.
  rewrite Forall_forall in Hfiles.
  destruct (Hfiles m (nth_error_In _ _ Hm)) as (m0 & m1 & m2).
  apply bind_Ret in H1. destruct H1 as (v0 & Hv0 & H1).
  apply bind_Ret in H1. destruct H1 as (c0 & Hc0 & H1).
  apply bind_Ret in H1. destruct H1 as (v1 & Hv1 & H1).
  apply bind_Ret in H1. destruct H1 as (c1 & Hc1 & H1).
  injection H1 as <-. cbn [simuCube].
  unfold view in Hv0, Hv1.
  apply bind_Ret in Hv0. destruct Hv0 as (k0 & Hk0 & Hv0).
  apply scalar_index_nonneg in Hk0; [|lia]. destruct Hk0 as [-> _].
  injection Hv0 as <-.
  apply bind_Ret in Hv1. destruct Hv1 as (k1 & Hk1 & Hv1).
  apply scalar_index_nonneg in Hk1; [|lia]. destruct Hk1 as [-> _].
  injection Hv1 as <-.
  assert (Hp0 : 0 <= 0) by lia. assert (Hp1 : 0 <= 1) by lia.
  destruct (store_inv _ _ _ _ _ _ _ Hp0 Hc0) as (_ & (D0 & D1 & D2) & Hat0).
  destruct (store_inv _ _ _ _ _ _ _ Hp1 Hc1) as (_ & _ & Hat1).
  destruct F as (B1 & B2 & B3 & B4 & S1 & S2 & S3 & S4 & L1 & L2 & L3 & L4).
  unfold reference_trace. rewrite Ek, Hm.
  rewrite Hat1, D1, D2, C1, C2, S3, S4, L2, L4. clear Hat1.
  rewrite Hat0, C1, C2, S3, S4, L2, L4. clear Hat0.
  cbn [rows cols at2 scale]. rewrite m1, m2, S1, S2, L1, L3.
  rewrite Ehit.
  assert (Hb : forall h i, 0 <= i < h ->
                 (if h =? 1 then 0 else i) = i).
  { intros h i Hi. destruct (Z.eqb_spec h 1); lia. }
  destruct ((y0 w <=? y) && (y <? y0 w + (my1 w - my0 w))
            && (x0 w <=? x) && (x <? x0 w + (mx1 w - mx0 w))) eqn:Ein.
  - rewrite <- Ehit in Epix. destruct (Epix eq_refl) as (Py & Px).
    rewrite !andb_true_iff, !Z.leb_le, !Z.ltb_lt in Ein.
    unfold assign, bcast_index.
    rewrite !Hb by lia. rewrite Py, Px.
    destruct Ho as [-> | ->]; cbn [Z.eqb andb];
      repeat match goal with
             | |- context [?a <=? ?b] =>
                 destruct (Z.leb_spec a b); [|lia]
             | |- context [?a <? ?b] =>
                 destruct (Z.ltb_spec a b); [|lia]
             end; reflexivity.
  - destruct Ho as [-> | ->]; cbn [Z.eqb Pos.eqb andb];
      rewrite Ein; reflexivity.
Qed.

Lemma angle_step_reference_plane (mp : modelParam) (saveFiles : list ndarray3)
    (sweetSpot : sweet_spot) (dimX : Z) (APA : Z) (st st' : sim) (n : Z)
    (o : Z) :
  params_ok mp saveFiles -> 0 <= dimX ->
  cube_ok dimX dimY n (simuCube st) ->
  o = 0 \/ o = 1 ->
  angle_step mp saveFiles sweetSpot dimX dimY 0 APA st = Ret st' ->
  forall y x,
    at3 (simuCube st') o y x
    = fold_left
        (fun acc s => if targetb s && frame_hit mp dimX dimY y x
                      then reference_trace mp saveFiles sweetSpot o s y x
                      else acc)
        (filter in_FOV (map (project sweetSpot (IZR APA)) (stars st)))
        (at3 (simuCube st) o y x).
Proof.
  intros Hp HX Hc Ho H y x. unfold angle_step in H.
  change (simuCube st) with
    (simuCube {| stars := map (project sweetSpot (IZR APA)) (stars st);
                 simuCube := simuCube st; writes := writes st |}) in Hc |- *.
  revert H Hc.
  generalize {| stars := map (project sweetSpot (IZR APA)) (stars st);
                simuCube := simuCube st; writes := writes st |}.
  induction (filter in_FOV (map (project sweetSpot (IZR APA)) (stars st)))
    as [|s l IH]; intros st0 H Hc; simpl in H.
  - injection H as <-. reflexivity.
  - apply bind_Ret in H. destruct H as (st1 & H1 & H2).
    assert (Hc1 : cube_ok dimX dimY n (simuCube st1)).
    { destruct (star_step_extends _ _ _ _ _ _ _ _ H1) as ((E0 & E1 & E2) & _).
      destruct Hc as (C0 & C1 & C2). repeat split; congruence. }
    rewrite (IH _ H2 Hc1). simpl.
    now rewrite (@star_step_reference_plane _ _ _ _ _ _ _ _ _ Hp HX Hc Ho H1 y x).
Qed.

Lemma filter_nil_inv {A : Type} (f : A -> bool) (l : list A) :
  filter f l = [] -> Forall (fun z => f z = false) l.
Proof.
  induction l as [|z l IH]; intros H; [constructor|].
  simpl in H. destruct (f z) eqn:E; [discriminate|].
  constructor; auto.
Qed.

Lemma filter_last_split {A : Type} (f : A -> bool) (l l' : list A) (s : A) :
  filter f l = l' ++ [s] ->
  exists a b, l = a ++ s :: b /\ f s = true
              /\ Forall (fun z => f z = false) b.
Proof.
  revert l'. induction l as [|z l IH]; intros l' H; simpl in H.
  - destruct l'; discriminate.
  - destruct (f z) eqn:E.
    + destruct l' as [|z' l''].
      * injection H as -> H. exists [], l. repeat split; auto.
        now apply filter_nil_inv.
      * injection H as -> H. destruct (IH _ H) as (a & b & -> & Hs & Hb).
        exists (z' :: a), b. repeat split; auto.
    + destruct (IH _ H) as (a & b & -> & Hs & Hb).
      exists (z :: a), b. repeat split; auto.
Qed.

Lemma reference_fold (mp : modelParam) (saveFiles : list ndarray3)
    (sweetSpot : sweet_spot) (dimX dimY : Z) (o y x : Z) (l l' : list star)
    (s : star) (init : R) :
  filter (fun s => targetb s && has_window mp dimX dimY s) l = l' ++ [s] ->
  fold_left
    (fun acc s => if targetb s && frame_hit mp dimX dimY y x
                  then reference_trace mp saveFiles sweetSpot o s y x
                  else acc) l init
  = if frame_hit mp dimX dimY y x
    then reference_trace mp saveFiles sweetSpot o s y x
    else init.
Proof.
  intros H.
  destruct (frame_hit mp dimX dimY y x) eqn:Eh.
  - destruct (@filter_last_split _ _ _ _ _ H) as (a & b & -> & Hs & Hb).
    apply andb_prop in Hs. destruct Hs as [Hs _].
    rewrite fold_left_app. simpl. rewrite Hs. simpl. clear H.
    induction Hb as [|z b Hz _ IH]; [reflexivity|].
    simpl. rewrite andb_true_r.
    destruct (targetb z) eqn:Ez; [|exact IH].
    exfalso. simpl in Hz.
    rewrite (@has_window_target mp dimX dimY z Ez) in Hz.
    destruct (subsection mp dimX dimY 0 0) eqn:Ew; [discriminate|].
    rewrite (@frame_hit_no_window mp dimX dimY y x Ew) in Eh. discriminate.
  - clear H. revert init. induction l as [|z l IH]; intros init; [reflexivity|].
    simpl. rewrite andb_false_r. apply IH.
Qed.

(** After a run, planes 0 and 1 hold the order-1 and order-2 traces of
    the last star that the first angle took for the target, scaled for
    that star: frame pixel [(y, x)] holds model pixel
    [(y + modelPadY, x + modelPadX)] where the model array has one, and
    0 elsewhere. *)
Theorem reference_planes_hold_last_target_trace
    (targetRA targetDEC : R) (info : list catalog_row)
    (binComp : option companion) (dimX : Z) (mp : modelParam)
    (files : list ndarray3) (st' : sim) (t : nat) (ss : sweet_spot)
    (st0 : sim) (l : list star) (s : star) (o y x : Z) :
  sossFieldSim targetRA targetDEC info binComp dimX mp files = Ret st' ->
  setup targetRA targetDEC info binComp dimX mp = Ret (t, ss, st0) ->
  params_ok mp (removelast files) ->
  reference_writers mp ss dimX dimY 0 (stars st0) = l ++ [s] ->
  o = 0 \/ o = 1 ->
  at3 (simuCube st') o y x
  = if frame_hit mp dimX dimY y x
    then reference_trace mp (removelast files) ss o s y x
    else 0%R.
Proof.
  intros H Hs Hp Hw Ho.
  destruct (run_history _ _ _ _ _ _ _ H)
    as (t' & ss' & st0' & st1 & Hs' & H1 & _ & _ & _ & _ & P0 & P1 & _).
  rewrite Hs in Hs'. injection Hs' as <- <- <-.
  destruct (setup_spec _ _ _ _ _ _ Hs) as (_ & _ & _ & HX & Hc & Hz & _).
  assert (E : at3 (simuCube st') o y x = at3 (simuCube st1) o y x).
  { destruct Ho as [-> | ->]; [apply P0 | apply P1]. }
  rewrite E.
  rewrite (@angle_step_reference_plane _ _ _ _ _ _ _ _ _ Hp HX Hc Ho H1 y x).
  unfold reference_writers in Hw.
  rewrite (reference_fold mp (removelast files) ss dimX dimY o y x _ _ _
             (at3 (simuCube st0) o y x) Hw).
  now rewrite Hz.
Qed.

Lemma ex_reference_writers :
  reference_writers ex_mp ex_sweet ex_dimX dimY 0 (stars ex_st0)
  = [project ex_sweet 0 ex_star0] ++ [project ex_sweet 0 ex_star1].
Proof.
  rewrite (@reference_writers_coincident ex_mp ex_sweet ex_dimX dimY 0
             (stars ex_st0) eq_refl eq_refl ex_stars_coincide)
    by (rewrite ex_window; discriminate).
  reflexivity.
Qed.

Lemma reference_planes_witness :
  exists st',
    sossFieldSim 10 0 ex_info (Some ex_twin) ex_dimX ex_mp ex_files = Ret st'
    /\ at3 (simuCube st') 1 5 2
       = if frame_hit ex_mp ex_dimX dimY 5 2
         then reference_trace ex_mp (removelast ex_files) ex_sweet 1
                (project ex_sweet 0 ex_star1) 5 2
         else 0%R.
Proof.
  destruct ex_run_returns as (st' & H).
  exists st'. split; [exact H|].
  exact (@reference_planes_hold_last_target_trace 10 0 ex_info (Some ex_twin)
           ex_dimX ex_mp ex_files st' 0%nat ex_sweet ex_st0
           [project ex_sweet 0 ex_star0] (project ex_sweet 0 ex_star1) 1 5 2
           H ex_setup ex_params_ok ex_reference_writers (or_intror eq_refl)).
Defined.

End FieldExtras.

(* ================================================================= *)
(** ** More on the model grid: [customize], [get] and [load_flux] *)

Module GridExtras.
Import Py Core GridSpec GridExamples GridProofs GridFrame GridCutExamples.
Local Open Scope Q_scope.

Lemma Qlt_bool_true (a b : Q) : Qlt_bool a b = true <-> a < b.
Proof.
  unfold Qlt_bool. rewrite negb_true_iff.
  split.
  - intros H. apply Qnot_le_lt. intros Hle.
    apply Qle_bool_iff in Hle. congruence.
  - intros H. destruct (Qle_bool b a) eqn:E; [|reflexivity].
    apply Qle_bool_iff in E. exfalso. exact (Qlt_not_le _ _ H E).
Qed.

Lemma Qlt_bool_false (a b : Q) : Qlt_bool a b = false <-> b <= a.
Proof.
  unfold Qlt_bool. rewrite negb_false_iff. apply Qle_bool_iff.
Qed.

Lemma fold_min_spec (t : list Q) : forall a,
  let m := fold_left (fun m v => if Qlt_bool v m then v else m) t a in
  m <= a /\ (forall v, In v t -> m <= v) /\ In m (a :: t).
Proof.
  induction t as [|b t IH]; intros a; cbn [fold_left].
  - split; [apply Qle_refl|]. split; [intros v []|now left].
  - destruct (Qlt_bool b a) eqn:E.
    + apply Qlt_bool_true in E.
      destruct (IH b) as (H1 & H2 & H3). split; [|split].
      * eapply Qle_trans; [exact H1|]. now apply Qlt_le_weak.
      * intros v [<-|Hv]; [exact H1|now apply H2].
      * right. exact H3.
    + apply Qlt_bool_false in E.
      destruct (IH a) as (H1 & H2 & H3). split; [|split].
      * exact H1.
      * intros v [<-|Hv]; [eapply Qle_trans; eauto|now apply H2].
      * destruct H3 as [H3|H3]; [now left|right; now right].
Qed.

Lemma fold_max_spec (t : list Q) : forall a,
  let m := fold_left (fun m v => if Qlt_bool m v then v else m) t a in
  a <= m /\ (forall v, In v t -> v <= m) /\ In m (a :: t).
Proof.
  induction t as [|b t IH]; intros a; cbn [fold_left].
  - split; [apply Qle_refl|]. split; [intros v []|now left].
  - destruct (Qlt_bool a b) eqn:E.
    + apply Qlt_bool_true in E.
      destruct (IH b) as (H1 & H2 & H3). split; [|split].
      * eapply Qle_trans; [|exact H1]. now apply Qlt_le_weak.
      * intros v [<-|Hv]; [exact H1|now apply H2].
      * right. exact H3.
    + apply Qlt_bool_false in E.
      destruct (IH a) as (H1 & H2 & H3). split; [|split].
      * exact H1.
      * intros v [<-|Hv]; [eapply Qle_trans; eauto|now apply H2].
      * destruct H3 as [H3|H3]; [now left|right; now right].
Qed.

Lemma py_min_spec (l : list Q) (m : Q) :
  py_min l = Ret m -> In m l /\ forall v, In v l -> m <= v.
Proof.
  destruct l as [|a t]; [discriminate|]. cbn [py_min]. intros [= <-].
  destruct (fold_min_spec t a) as (H1 & H2 & H3). split; [exact H3|].
  intros v [<-|Hv]; [exact H1|now apply H2].
Qed.

Lemma py_max_spec (l : list Q) (m : Q) :
  py_max l = Ret m -> In m l /\ forall v, In v l -> v <= m.
Proof.
  destruct l as [|a t]; [discriminate|]. cbn [py_max]. intros [= <-].
  destruct (fold_max_spec t a) as (H1 & H2 & H3). split; [exact H3|].
  intros v [<-|Hv]; [exact H1|now apply H2].
Qed.

Lemma py_min_returns (l : list Q) : l <> [] -> exists m, py_min l = Ret m.
Proof. destruct l; [congruence|]. intros _. cbn. eauto. Qed.

Lemma py_max_returns (l : list Q) : l <> [] -> exists m, py_max l = Ret m.
Proof. destruct l; [congruence|]. intros _. cbn. eauto. Qed.

Lemma new_table_nonempty (tr lr fr : Q * Q) (g : ModelGrid) :
  data g <> [] -> new_table tr lr fr g <> [].
Proof.
  intros H. unfold new_table. destruct (kept tr lr fr g) eqn:E; [exact H|].
  discriminate.
Qed.

(** What a call of [customize] on a table that is not empty does. *)
Lemma customize_result (tr lr fr wr : Q * Q) (nb : option Q) (w : world) :
  data (self w) <> [] ->
  exists tmin tmax lmin lmax fmin fmax msgs,
    let d := new_table tr lr fr (self w) in
    py_min (map Teff d) = Ret tmin /\ py_max (map Teff d) = Ret tmax
    /\ py_min (map logg d) = Ret lmin /\ py_max (map logg d) = Ret lmax
    /\ py_min (map FeH d) = Ret fmin /\ py_max (map FeH d) = Ret fmax
    /\ customize tr lr fr wr nb w
       = (Ret tt,
          {| self := with_ranges
                       (with_data (with_wave (self w) wr (n_bins_or nb (self w))) d)
                       (tmin, tmax) (lmin, lmax) (fmin, fmax)
                       (unique (map Teff d)) (unique (map logg d))
                       (unique (map FeH d));
             loads := loads w;
             stdout := stdout w ++ msgs |}).
Proof.
  intros Hd.
  pose proof (@new_table_nonempty tr lr fr (self w) Hd) as Hn.
  set (d := new_table tr lr fr (self w)) in *.
  assert (Hm : forall f : row -> Q, map f d <> []).
  { intros f H. apply map_eq_nil in H. contradiction. }
  destruct (py_min_returns (Hm Teff)) as (tmin & T0).
  destruct (py_max_returns (Hm Teff)) as (tmax & T1).
  destruct (py_min_returns (Hm logg)) as (lmin & L0).
  destruct (py_max_returns (Hm logg)) as (lmax & L1).
  destruct (py_min_returns (Hm FeH)) as (fmin & F0).
  destruct (py_max_returns (Hm FeH)) as (fmax & F1).
  exists tmin, tmax, lmin, lmax, fmin, fmax.
  unfold customize, mbind, get_self, set_self, print, ret, lift.
  cbn [self loads stdout data with_wave with_data].
  fold (kept tr lr fr (self w)).
  subst d. unfold new_table in *.
  destruct (kept tr lr fr (self w)) as [|r0 k] eqn:Ek.
  - exists [MsgSummary 0 (List.length (data (self w)));
            MsgWouldLeaveZero; MsgNotUpdated].
    cbn [List.length Nat.eqb self loads stdout data with_wave with_data].
    rewrite T0, T1, L0, L1, F0, F1, <- !app_assoc.
    repeat split; reflexivity.
  - exists [MsgSummary (List.length (r0 :: k)) (List.length (data (self w)))].
    cbn [List.length Nat.eqb self loads stdout data with_wave with_data].
    rewrite T0, T1, L0, L1, F0, F1.
    repeat split; reflexivity.
Qed.


Lemma in_range_true (rng : Q * Q) (v : Q) :
  in_range rng v = true <-> fst rng <= v /\ v <= snd rng.
Proof.
  unfold in_range. rewrite andb_true_iff, !Qle_bool_iff. tauto.
Qed.

(** In a grid whose ranges are those of its table, every row of the
    table is inside the ranges. *)
Lemma consistent_rows_in_grid (g : ModelGrid) (r : row) :
  ranges_consistent g -> In r (data g) ->
  in_grid g (Teff r) (logg r) (FeH r) = true.
Proof.
  intros (T0 & T1 & L0 & L1 & F0 & F1 & _) Hr.
  apply py_min_spec in T0, L0, F0. apply py_max_spec in T1, L1, F1.
  unfold in_grid. rewrite !andb_true_iff, !in_range_true.
  repeat split;
    first [apply T0 | apply T1 | apply L0 | apply L1 | apply F0 | apply F1];
    now apply in_map.
Qed.

(** Whatever the recorded ranges were, a call of [customize] on a
    table that is not empty returns, never leaves the table empty and
    leaves the recorded ranges and value lists those of the table: every
    row of the table is then inside the recorded ranges.  It reads no
    file. *)
Theorem customize_restores_invariant (tr lr fr wr : Q * Q) (nb : option Q)
    (w : world) :
  data (self w) <> [] ->
  exists w',
    customize tr lr fr wr nb w = (Ret tt, w')
    /\ data (self w') = new_table tr lr fr (self w)
    /\ data (self w') <> []
    /\ ranges_consistent (self w')
    /\ (forall r, In r (data (self w')) ->
          in_grid (self w') (Teff r) (logg r) (FeH r) = true)
    /\ loads w' = loads w.
Proof.
  intros Hd.
  destruct (@customize_result tr lr fr wr nb w Hd)
    as (tmin & tmax & lmin & lmax & fmin & fmax & msgs & T0 & T1 & L0 & L1
        & F0 & F1 & E).
  eexists. split; [exact E|].
  cbn [self loads data with_ranges with_data].
  assert (Hc : ranges_consistent
                 (with_ranges
                    (with_data (with_wave (self w) wr (n_bins_or nb (self w)))
                       (new_table tr lr fr (self w)))
                    (tmin, tmax) (lmin, lmax) (fmin, fmax)
                    (unique (map Teff (new_table tr lr fr (self w))))
                    (unique (map logg (new_table tr lr fr (self w))))
                    (unique (map FeH (new_table tr lr fr (self w)))))).
  { unfold ranges_consistent. cbn. repeat split; assumption. }
  split; [reflexivity|]. split; [now apply new_table_nonempty|].
  split; [exact Hc|]. split; [|reflexivity].
  intros r Hr. now apply consistent_rows_in_grid.
Qed.

Lemma customize_restores_invariant_witness :
  exists w',
    customize (4000, 6000) (0, 6) (-3, 3) (1, 2) None ex_two_world
    = (Ret tt, w')
    /\ data (self w')
       = new_table (4000, 6000) (0, 6) (-3, 3) (self ex_two_world)
    /\ data (self w') <> []
    /\ ranges_consistent (self w')
    /\ (forall r, In r (data (self w')) ->
          in_grid (self w') (Teff r) (logg r) (FeH r) = true)
    /\ loads w' = loads ex_two_world.
Proof.
  apply (@customize_restores_invariant (4000, 6000) (0, 6) (-3, 3) (1, 2)
           None ex_two_world).
  discriminate.
Defined.

Lemma kept_In (tr lr fr : Q * Q) (g : ModelGrid) (r : row) :
  In r (kept tr lr fr g) <-> In r (data g) /\ row_in tr lr fr r = true.
Proof. unfold kept, row_in. apply filter_In. Qed.

Lemma within_of_rows (f : row -> Q) (rng : Q * Q) (d : list row) (lo hi : Q) :
  (forall r, In r d -> in_range rng (f r) = true) ->
  py_min (map f d) = Ret lo -> py_max (map f d) = Ret hi ->
  within (lo, hi) rng.
Proof.
  intros Hr H0 H1.
  apply py_min_spec in H0. apply py_max_spec in H1.
  destruct H0 as (H0 & _), H1 as (H1 & _).
  apply in_map_iff in H0, H1.
  destruct H0 as (r0 & <- & R0), H1 as (r1 & <- & R1).
  split; cbn [fst snd].
  - apply Hr in R0. now apply in_range_true in R0.
  - apply Hr in R1. now apply in_range_true in R1.
Qed.

(** A cut that keeps a row: the new table holds exactly the rows
    of the old one inside the three requested ranges, and the ranges the
    object records afterwards lie within the requested ones. *)
Theorem customize_cut_within_request (tr lr fr wr : Q * Q) (nb : option Q)
    (w w' : world) :
  kept tr lr fr (self w) <> [] ->
  customize tr lr fr wr nb w = (Ret tt, w') ->
  (forall r, In r (data (self w')) <->
             In r (data (self w)) /\ row_in tr lr fr r = true)
  /\ within (Teff_rng (self w')) tr
  /\ within (logg_rng (self w')) lr
  /\ within (FeH_rng (self w')) fr.
Proof.
  intros Hk E.
  assert (Hd : data (self w) <> []).
  { intros H. apply Hk. unfold kept. now rewrite H. }
  destruct (@customize_result tr lr fr wr nb w Hd)
    as (tmin & tmax & lmin & lmax & fmin & fmax & msgs & T0 & T1 & L0 & L1
        & F0 & F1 & E').
  rewrite E in E'. injection E' as ->.
  cbn [self data with_ranges with_data Teff_rng logg_rng FeH_rng].
  assert (Hn : new_table tr lr fr (self w) = kept tr lr fr (self w)).
  { unfold new_table. destruct (kept tr lr fr (self w)); congruence. }
  rewrite Hn in *.
  assert (Hin : forall r, In r (kept tr lr fr (self w)) ->
                          row_in tr lr fr r = true).
  { intros r Hr. now apply kept_In in Hr. }
  split; [intros r; apply kept_In|].
  split; [|split].
  - eapply within_of_rows with (f := Teff); eauto.
    intros r Hr. apply Hin in Hr. unfold row_in in Hr.
    now apply andb_true_iff in Hr as (Hr%andb_true_iff & _).
  - eapply within_of_rows with (f := logg); eauto.
    intros r Hr. apply Hin in Hr. unfold row_in in Hr.
    now apply andb_true_iff in Hr as (Hr%andb_true_iff & _).
  - eapply within_of_rows with (f := FeH); eauto.
    intros r Hr. apply Hin in Hr. unfold row_in in Hr.
    now apply andb_true_iff in Hr as (_ & Hr).
Qed.


Lemma ex_customize_cut :
  customize (4000, 6000) (0, 6) (-3, 3) (1, 2) None ex_two_world
  = (Ret tt, ex_cut_world).
Proof. reflexivity. Qed.

Lemma customize_cut_within_request_witness :
  (forall r, In r (data (self ex_cut_world)) <->
             In r (data (self ex_two_world))
             /\ row_in (4000, 6000) (0, 6) (-3, 3) r = true)
  /\ within (Teff_rng (self ex_cut_world)) (4000, 6000)
  /\ within (logg_rng (self ex_cut_world)) (0, 6)
  /\ within (FeH_rng (self ex_cut_world)) (-3, 3).
Proof.
  apply (@customize_cut_within_request (4000, 6000) (0, 6) (-3, 3) (1, 2)
           None ex_two_world ex_cut_world);
    [discriminate|exact ex_customize_cut].
Defined.

Lemma filter_idem {A : Type} (f : A -> bool) (l : list A) :
  filter f (filter f l) = filter f l.
Proof.
  induction l as [|a l IH]; [reflexivity|]. cbn [filter].
  destruct (f a) eqn:E; [|exact IH]. cbn [filter]. now rewrite E, IH.
Qed.

(** The table a second, identical call leaves is the one the first call
    left. *)
Lemma new_table_idem (tr lr fr : Q * Q) (g g1 : ModelGrid) :
  data g1 = new_table tr lr fr g -> new_table tr lr fr g1 = data g1.
Proof.
  intros H. unfold new_table in *. unfold kept in *. rewrite H.
  destruct (filter _ (data g)) as [|r0 k] eqn:E.
  - now rewrite E.
  - rewrite <- E, filter_idem, E. reflexivity.
Qed.

Lemma n_bins_or_idem (nb : option Q) (g g1 : ModelGrid) :
  n_bins g1 = n_bins_or nb g -> n_bins_or nb g1 = n_bins g1.
Proof.
  unfold n_bins_or. intros H. destruct nb as [q|]; [|reflexivity].
  destruct (Qeq_bool q 0); [reflexivity|]. now rewrite H.
Qed.

(** A second call of [customize] with the arguments of the first
    changes nothing in the object. *)
Theorem customize_twice_is_once (tr lr fr wr : Q * Q) (nb : option Q)
    (w w1 w2 : world) :
  data (self w) <> [] ->
  customize tr lr fr wr nb w = (Ret tt, w1) ->
  customize tr lr fr wr nb w1 = (Ret tt, w2) ->
  self w2 = self w1.
Proof.
  intros Hd E1 E2.
  destruct (@customize_result tr lr fr wr nb w Hd)
    as (tmin & tmax & lmin & lmax & fmin & fmax & msgs & T0 & T1 & L0 & L1
        & F0 & F1 & E).
  rewrite E1 in E. injection E as ->.
  assert (Hd1 : data (with_ranges
                  (with_data (with_wave (self w) wr (n_bins_or nb (self w)))
                     (new_table tr lr fr (self w)))
                  (tmin, tmax) (lmin, lmax) (fmin, fmax)
                  (unique (map Teff (new_table tr lr fr (self w))))
                  (unique (map logg (new_table tr lr fr (self w))))
                  (unique (map FeH (new_table tr lr fr (self w)))))
                = new_table tr lr fr (self w)) by reflexivity.
  set (g1 := with_ranges _ _ _ _ _ _ _) in *.
  assert (Hd1' : data g1 <> []).
  { rewrite Hd1. now apply new_table_nonempty. }
  destruct (@customize_result tr lr fr wr nb
              {| self := g1; loads := loads w; stdout := stdout w ++ msgs |}
              Hd1')
    as (tmin' & tmax' & lmin' & lmax' & fmin' & fmax' & msgs' & T0' & T1'
        & L0' & L1' & F0' & F1' & E').
  rewrite E2 in E'. injection E' as ->.
  cbn [self] in *.
  rewrite (@new_table_idem tr lr fr (self w) g1 Hd1) in *.
  rewrite Hd1 in *.
  assert (Hn : n_bins_or nb g1 = n_bins_or nb (self w)).
  { now rewrite (@n_bins_or_idem nb (self w) g1 eq_refl). }
  rewrite Hn.
  rewrite T0 in T0'. rewrite T1 in T1'. rewrite L0 in L0'.
  rewrite L1 in L1'. rewrite F0 in F0'. rewrite F1 in F1'.
  injection T0' as <-. injection T1' as <-. injection L0' as <-.
  injection L1' as <-. injection F0' as <-. injection F1' as <-.
  reflexivity.
Qed.

Lemma customize_twice_is_once_witness :
  self {| self := self ex_cut_world; loads := [];
          stdout := [MsgSummary 1 2; MsgSummary 1 1] |}
  = self ex_cut_world.
Proof.
  apply (@customize_twice_is_once (4000, 6000) (0, 6) (-3, 3) (1, 2) None
           ex_two_world ex_cut_world _);
    [discriminate|exact ex_customize_cut|reflexivity].
Defined.

Lemma outside_within (inner outer : Q * Q) (v : Q) :
  within inner outer -> outside outer v -> outside inner v.
Proof.
  intros (H0 & H1) [H|H]; [left|right].
  - eapply Qlt_le_trans; eauto.
  - eapply Qle_lt_trans; eauto.
Qed.

(** After a cut that keeps a row, [get] with a parameter outside
    the range requested for it prints the line and returns [None]: the
    cut puts the models outside the request out of reach. *)
Theorem get_outside_customized_range
    (disk : string -> option fits_file) (depth : nat)
    (tr lr fr wr : Q * Q) (nb : option Q) (w w1 : world) (T l F : Q) :
  kept tr lr fr (self w) <> [] ->
  customize tr lr fr wr nb w = (Ret tt, w1) ->
  outside tr T \/ outside lr l \/ outside fr F ->
  get disk depth T l F w1 = (Ret None, printed w1 (MsgNotInGrid T l F)).
Proof.
  intros Hk E Ho.
  destruct (@customize_cut_within_request tr lr fr wr nb w w1 Hk E)
    as (_ & WT & WL & WF).
  apply get_outside_grid. unfold in_grid.
  destruct Ho as [Ho|[Ho|Ho]].
  - rewrite (@in_range_outside _ _ (outside_within WT Ho)). reflexivity.
  - rewrite (@in_range_outside _ _ (outside_within WL Ho)).
    now rewrite andb_false_r.
  - rewrite (@in_range_outside _ _ (outside_within WF Ho)).
    now rewrite andb_false_r.
Qed.

Lemma get_outside_customized_range_witness :
  get ex_disk 1 7000 4 0 ex_cut_world
  = (Ret None, printed ex_cut_world (MsgNotInGrid 7000 4 0)).
Proof.
  apply (@get_outside_customized_range ex_disk 1 (4000, 6000) (0, 6) (-3, 3)
           (1, 2) None ex_two_world ex_cut_world 7000 4 0);
    [discriminate|exact ex_customize_cut|].
  left. right. reflexivity.
Defined.


(** *** [get] at a grid point *)









Lemma ex_file_wave : file_wave ex_grid ex_file = microns [10000; 20000; 500000].
Proof. reflexivity. Qed.







(** *** What the three methods leave alone *)

Lemma keeps_mbind {A B : Type} (m : M A) (f : A -> M B) :
  keeps_table m -> (forall a, keeps_table (f a)) -> keeps_table (mbind m f).
Proof.
  intros Hm Hf w. unfold mbind. specialize (Hm w).
  destruct (m w) as [[a|e] w1]; cbn [snd] in *.
  - specialize (Hf a w1). unfold same_table in *. congruence.
  - exact Hm.
Qed.

Lemma keeps_try_pass (m : M unit) : keeps_table m -> keeps_table (try_pass m).
Proof.
  intros Hm w. unfold try_pass. specialize (Hm w).
  destruct (m w) as [[a|e] w1]; exact Hm.
Qed.

Lemma keeps_for_each {A : Type} (l : list A) (body : A -> M unit) :
  (forall a, keeps_table (body a)) -> keeps_table (for_each l body).
Proof.
  intros Hb. induction l as [|a l IH]; cbn [for_each].
  - intros w. reflexivity.
  - apply keeps_mbind; auto.
Qed.

Lemma keeps_getdata (disk : string -> option fits_file) (p : string) :
  keeps_table (getdata disk p).
Proof. intros w. unfold getdata. now destruct (disk p). Qed.

Lemma keeps_print (m : message) : keeps_table (print m).
Proof. intros w. reflexivity. Qed.

Lemma keeps_lift {A : Type} (o : outcome A) : keeps_table (lift o).
Proof. intros w. reflexivity. Qed.

Lemma keeps_ret {A : Type} (a : A) : keeps_table (ret a).
Proof. intros w. reflexivity. Qed.

Lemma keeps_raise {A : Type} (e : exn) : keeps_table (@raise A e).
Proof. intros w. reflexivity. Qed.

Lemma keeps_get_self {A : Type} (f : ModelGrid -> M A) :
  (forall g, keeps_table (f g)) -> keeps_table (mbind get_self f).
Proof. intros H. apply keeps_mbind; [intros w; reflexivity|exact H]. Qed.

Lemma get_body_keeps (disk : string -> option fits_file)
    (gi : Q -> Q -> Q -> M grid_point) (T l F : Q) :
  (forall T l F, keeps_table (gi T l F)) -> keeps_table (get_body disk gi T l F).
Proof.
  intros Hgi. unfold get_body. apply keeps_get_self. intros g.
  destruct (in_grid g T l F).
  - destruct (existsb (matches T l F) (data g)).
    + destruct (filter (matches T l F) (data g)) as [|r [|r2 rest]];
        [apply keeps_raise| |apply keeps_raise].
      apply keeps_mbind; [apply keeps_getdata|intros f0].
      apply keeps_mbind; [apply keeps_getdata|intros f1].
      apply keeps_mbind.
      * destruct (CRVAL1 g).
        -- apply keeps_mbind; [apply keeps_lift|intros; apply keeps_ret].
        -- apply keeps_mbind; [apply keeps_getdata|intros; apply keeps_ret].
      * intros rw. apply keeps_mbind; [apply keeps_lift|intros fl].
        apply keeps_mbind; [apply keeps_lift|intros wv]. apply keeps_ret.
    + apply keeps_mbind; [apply Hgi|intros; apply keeps_ret].
  - apply keeps_mbind; [apply keeps_print|intros; apply keeps_ret].
Qed.

Lemma grid_interp_body_keeps (lf : M unit) (T l F : Q) :
  keeps_table lf -> keeps_table (grid_interp_body lf T l F).
Proof.
  intros Hlf. unfold grid_interp_body. apply keeps_get_self. intros g.
  apply keeps_mbind.
  - destruct (array g); [apply keeps_ret|].
    apply keeps_mbind; [apply keeps_print|intros; exact Hlf].
  - intros _. apply keeps_get_self. intros g1.
    destruct (array g1); apply keeps_raise.
Qed.

(** The statements of the loop body that follow the call of [get]. *)
Lemma store_flux_keeps (Tn Gn Mn nt ng nm : nat) (m : model) :
  keeps_table
    (mbind get_self (fun g1 =>
     mbind (match array g1 with
            | None =>
                set_self (with_array g1
                  (Some {| shape5 := (Tn, Gn, Mn,
                                      fst (shape2 (flux_of m)),
                                      snd (shape2 (flux_of m)));
                           cell := fun _ _ _ =>
                             zero_cell (fst (shape2 (flux_of m)))
                                       (snd (shape2 (flux_of m))) |}))
            | Some _ => ret tt
            end) (fun _ =>
     mbind get_self (fun g2 =>
     match array g2 with
     | None => raise TypeError
     | Some a =>
         mbind (lift (set_cell a nt ng nm (flux_of m))) (fun a' =>
         mbind (set_self (with_array g2 (Some a'))) (fun _ =>
         mbind get_self (fun g3 =>
         set_self (with_wavelength g3 (wave_of m)))))
     end)))).
Proof.
  intros w. unfold mbind, get_self, set_self, lift, raise, ret.
  destruct (array (self w)) as [a|] eqn:Ea;
    cbn [self loads stdout array with_array]; rewrite ?Ea.
  - destruct (set_cell a nt ng nm (flux_of m)); reflexivity.
  - destruct (set_cell _ nt ng nm (flux_of m)); reflexivity.
Qed.

Lemma load_flux_body_keeps (get : Q -> Q -> Q -> M (option model)) :
  (forall T l F, keeps_table (get T l F)) -> keeps_table (load_flux_body get).
Proof.
  intros Hget. unfold load_flux_body. apply keeps_get_self. intros g.
  destruct (array g); [apply keeps_print|].
  apply keeps_for_each. intros (nt & teff).
  apply keeps_for_each. intros (ng & logg0).
  apply keeps_for_each. intros (nm & feh).
  apply keeps_try_pass. apply keeps_mbind; [apply Hget|].
  intros [m|]; [|apply keeps_raise].
  apply store_flux_keeps.
Qed.

Lemma load_flux_keeps (disk : string -> option fits_file) (depth : nat) :
  keeps_table (load_flux disk depth).
Proof.
  induction depth as [|d IH]; cbn [load_flux]; [apply keeps_raise|].
  apply load_flux_body_keeps. intros T l F.
  apply get_body_keeps. intros T' l' F'.
  now apply grid_interp_body_keeps.
Qed.

(** [load_flux], [grid_interp] and [get] change nothing in the
    object but the flux array and its wavelengths, whether they return
    or raise: the table, the ranges, the value lists, [wave_rng] and
    [n_bins] are as before.  [load_flux] itself never raises, and when
    the array is loaded already it only prints a line. *)
Theorem loading_keeps_the_table (disk : string -> option fits_file)
    (depth : nat) (T l F : Q) (w : world) :
  same_table (self w) (self (snd (get disk depth T l F w)))
  /\ same_table (self w) (self (snd (grid_interp disk depth T l F w)))
  /\ same_table (self w) (self (snd (load_flux disk depth w)))
  /\ (exists w', load_flux disk (S depth) w = (Ret tt, w'))
  /\ (forall a, array (self w) = Some a ->
        load_flux disk (S depth) w = (Ret tt, printed w MsgAlreadyLoaded)).
Proof.
  split; [|split; [|split; [|split]]].
  - apply get_body_keeps. intros T' l' F'.
    apply grid_interp_body_keeps, load_flux_keeps.
  - apply grid_interp_body_keeps, load_flux_keeps.
  - apply load_flux_keeps.
  - apply load_flux_never_raises.
  - intros a Ha. cbn [load_flux]. unfold load_flux_body, mbind, get_self.
    rewrite Ha. reflexivity.
Qed.

End GridExtras.

(* ================================================================= *)
(** ** Properties of [References] *)

Module RefsProofs.
Import Py Refs RefsSpec.
Local Open Scope string_scope.

Lemma mem_In (x : string) (l : list string) : mem x l = true <-> In x l.
Proof.
  unfold mem. rewrite existsb_exists. split.
  - intros (y & Hy & E). apply String.eqb_eq in E. now subst.
  - intros H. exists x. split; [exact H|apply String.eqb_refl].
Qed.

Lemma mem_false (x : string) (l : list string) : mem x l = false <-> ~ In x l.
Proof.
  rewrite <- mem_In. destruct (mem x l); split; congruence.
Qed.

Lemma do_call_frame (self : References) (c : call) :
  bibfile (do_call self c) = bibfile self
  /\ database (do_call self c) = database self
  /\ bibcodes (do_call self c) = bibcodes self.
Proof.
  destruct c as [b|b]; cbn [do_call]; unfold add, remove;
    destruct (mem b (bibcodes self)); cbn; auto.
Qed.

Lemma do_call_known (self : References) (c : call) :
  refs_known self -> refs_known (do_call self c).
Proof.
  intros Hk. destruct c as [b|b]; cbn [do_call]; unfold add, remove;
    destruct (mem b (bibcodes self)) eqn:E; cbn [fst]; auto.
  - intros x. cbn [refs bibcodes]. rewrite in_app_iff.
    intros [Hx|[<-|[]]]; [now apply Hk|now apply mem_In].
  - intros x. cbn [refs bibcodes]. rewrite filter_In.
    intros (Hx & _). now apply Hk.
Qed.

Lemma session_frame (calls : list call) : forall self,
  bibfile (session self calls) = bibfile self
  /\ database (session self calls) = database self
  /\ bibcodes (session self calls) = bibcodes self.
Proof.
  induction calls as [|c calls IH]; intros self; cbn [session fold_left].
  - auto.
  - destruct (IH (do_call self c)) as (H1 & H2 & H3).
    destruct (do_call_frame self c) as (G1 & G2 & G3).
    unfold session in *. repeat split; congruence.
Qed.

Lemma session_known (calls : list call) : forall self,
  refs_known self -> refs_known (session self calls).
Proof.
  induction calls as [|c calls IH]; intros self Hk; cbn [session fold_left].
  - exact Hk.
  - apply IH. now apply do_call_known.
Qed.

(** Through a session of [add] and [remove] calls on a new object, the
    list of references only ever holds keys of entries of the database:
    a bibcode the bibtex file does not have is never saved.  The
    database, the list of its bibcodes and the path stay as [__init__]
    set them. *)
Theorem session_refs_are_database_keys
    (files : string -> option (list entry)) (default path : string)
    (r0 : References) (calls : list call) :
  init files default path = Ret r0 ->
  (forall b, In b (refs (session r0 calls)) ->
     exists e, In e (database (session r0 calls)) /\ ID e = b)
  /\ database (session r0 calls) = database r0
  /\ bibcodes (session r0 calls) = map ID (database r0)
  /\ bibfile (session r0 calls) = (if String.eqb path "" then default else path).
Proof.
  unfold init. intros H.
  destruct (files _) as [entries|]; [|discriminate].
  injection H as <-.
  destruct (session_frame calls
              {| bibfile := if String.eqb path "" then default else path;
                 refs := []; database := entries;
                 bibcodes := map ID entries |}) as (H1 & H2 & H3).
  cbn [bibfile database bibcodes] in *.
  split; [|auto].
  intros b Hb.
  apply session_known in Hb; [|intros x []].
  rewrite H3 in Hb. rewrite H2.
  apply in_map_iff in Hb. destruct Hb as (e & He & Hin). eauto.
Qed.

Lemma session_refs_are_database_keys_witness :
  (forall b, In b (refs ex_mixed) ->
     exists e, In e (database ex_mixed) /\ ID e = b)
  /\ database ex_mixed = database ex_refs
  /\ bibcodes ex_mixed = map ID (database ex_refs)
  /\ bibfile ex_mixed
     = (if String.eqb "refs.bib" "" then "default.bib" else "refs.bib").
Proof.
  apply (@session_refs_are_database_keys ex_files "default.bib" "refs.bib"
           ex_refs).
  reflexivity.
Defined.

Lemma filter_all {A : Type} (f : A -> bool) (l : list A) :
  (forall x, In x l -> f x = true) -> filter f l = l.
Proof.
  induction l as [|a l IH]; intros H; [reflexivity|].
  cbn [filter]. rewrite (H a (or_introl eq_refl)), IH; [reflexivity|].
  intros x Hx. apply H. now right.
Qed.

(** On an object whose references are bibcodes of the database,
    [remove] takes every occurrence of the bibcode out of the list and
    keeps the other references in their order, whether the bibcode is
    known or not; afterwards the bibcode is not in the list. *)
Theorem remove_takes_out_every_occurrence (self : References) (b : string) :
  refs_known self ->
  refs (fst (remove self b))
  = filter (fun r => negb (String.eqb r b)) (refs self)
  /\ ~ In b (refs (fst (remove self b)))
  /\ refs_known (fst (remove self b)).
Proof.
  intros Hk.
  assert (E : refs (fst (remove self b))
              = filter (fun r => negb (String.eqb r b)) (refs self)).
  { unfold remove. destruct (mem b (bibcodes self)) eqn:Em; [reflexivity|].
    cbn [fst]. symmetry. apply filter_all. intros x Hx.
    apply negb_true_iff, String.eqb_neq. intros ->.
    apply mem_false in Em. apply Em, Hk, Hx. }
  split; [exact E|]. split.
  - rewrite E, filter_In. intros (_ & H).
    now rewrite String.eqb_refl in H.
  - exact (@do_call_known self (Remove b) Hk).
Qed.


Lemma remove_takes_out_every_occurrence_witness :
  refs (fst (remove ex_twice "2013A&A...553A...6H"))
  = filter (fun r => negb (String.eqb r "2013A&A...553A...6H")) (refs ex_twice)
  /\ ~ In "2013A&A...553A...6H"
          (refs (fst (remove ex_twice "2013A&A...553A...6H")))
  /\ refs_known (fst (remove ex_twice "2013A&A...553A...6H")).
Proof.
  apply (@remove_takes_out_every_occurrence ex_twice "2013A&A...553A...6H").
  apply session_known. intros x [].
Defined.

(** *** [write] *)

Lemma length_append (s1 s2 : string) :
  String.length (s1 ++ s2) = (String.length s1 + String.length s2)%nat.
Proof. induction s1 as [|c s1 IH]; cbn; [reflexivity|now rewrite IH]. Qed.

Lemma substring_all (s : string) : substring 0 (String.length s) s = s.
Proof. induction s as [|c s IH]; cbn; [reflexivity|now rewrite IH]. Qed.

Lemma substring_suffix (s1 s2 : string) :
  substring (String.length s1) (String.length s2) (s1 ++ s2) = s2.
Proof.
  induction s1 as [|c s1 IH]; cbn [String.length append substring].
  - apply substring_all.
  - exact IH.
Qed.

Lemma endswith_append (s1 s2 : string) : endswith (s1 ++ s2) s2 = true.
Proof.
  unfold endswith. rewrite length_append.
  replace (String.length s1 + String.length s2 - String.length s2)%nat
    with (String.length s1) by lia.
  rewrite substring_suffix, String.eqb_refl, andb_true_r.
  apply Nat.leb_le. lia.
Qed.

Lemma append_assoc (s1 s2 s3 : string) : (s1 ++ s2) ++ s3 = s1 ++ (s2 ++ s3).
Proof. induction s1 as [|c s1 IH]; cbn; [reflexivity|now rewrite IH]. Qed.

Lemma write_path_bib (self : References) (filepath : string) :
  endswith (fst (write self filepath)) ".bib" = true.
Proof.
  unfold write. cbn [fst].
  destruct (endswith filepath ".bib") eqn:E; [exact E|].
  change "biblio.bib" with ("biblio" ++ ".bib").
  rewrite <- append_assoc. apply endswith_append.
Qed.

Lemma mem_list_set (x : string) (l : list string) :
  mem x (list_set l) = mem x l.
Proof.
  unfold list_set.
  destruct (mem x l) eqn:E.
  - apply mem_In. apply nodup_In. now apply mem_In.
  - apply mem_false. rewrite nodup_In. now apply mem_false.
Qed.

(** What [write] hands to the writer depends on the set of saved
    references only: two objects with the same database whose lists of
    references hold the same bibcodes, in whatever order and however
    often, write the same entries to the same file.  The entries are
    those of the database whose key is saved, each as often as the
    database has it, and the file written always ends in [.bib]. *)
Theorem write_depends_on_saved_set (r1 r2 : References) (filepath : string) :
  database r1 = database r2 ->
  (forall b, In b (refs r1) <-> In b (refs r2)) ->
  write r1 filepath = write r2 filepath
  /\ (forall e, In e (snd (write r1 filepath)) <->
                In e (database r1) /\ In (ID e) (refs r1))
  /\ endswith (fst (write r1 filepath)) ".bib" = true.
Proof.
  intros Hd Hr. split; [|split].
  - unfold write. rewrite Hd. f_equal.
    apply filter_ext. intros e. rewrite !mem_list_set.
    destruct (mem (ID e) (refs r2)) eqn:E.
    + apply mem_In. apply Hr. now apply mem_In.
    + apply mem_false. rewrite Hr. now apply mem_false.
  - intros e. unfold write. cbn [snd].
    now rewrite filter_In, mem_list_set, mem_In.
  - apply write_path_bib.
Qed.

Lemma write_depends_on_saved_set_witness :
  write ex_twice "out/" = write ex_once "out/"
  /\ (forall e, In e (snd (write ex_twice "out/")) <->
                In e (database ex_twice) /\ In (ID e) (refs ex_twice))
  /\ endswith (fst (write ex_twice "out/")) ".bib" = true.
Proof.
  apply (@write_depends_on_saved_set ex_twice ex_once "out/").
  - reflexivity.
  - intros b. cbn. tauto.
Defined.

End RefsProofs.

(* ================================================================= *)
(** ** Properties of [find_closest] *)

Module ClosestProofs.
Import Py Core Closest ClosestSpec GridExtras.
Local Open Scope Q_scope.







End ClosestProofs.

(* ================================================================= *)
(** ** Properties of [medfilt] *)

Module MedfiltProofs.
Import Py Closest Medfilt MedfiltSpec MedfiltExamples FieldProofs.
Local Open Scope Z_scope.

Ltac zcases_in H :=
  repeat match type of H with
         | context [(?a <? ?b)] => destruct (Z.ltb_spec a b)
         | context [(?a <=? ?b)] => destruct (Z.leb_spec a b)
         | context [(?a =? ?b)] => destruct (Z.eqb_spec a b)
         end.

Lemma slice_bound_range (n i : Z) : 0 <= n -> 0 <= slice_bound n i <= n.
Proof. intros H. unfold slice_bound. zcases; lia. Qed.

Lemma slice_length {A : Type} (l : list A) (i j : Z) :
  Z.of_nat (List.length (slice l i j))
  = slice_len (Z.of_nat (List.length l)) i j.
Proof.
  unfold slice. set (n := Z.of_nat (List.length l)).
  pose proof (@slice_bound_range n i ltac:(lia)) as Hi.
  pose proof (@slice_bound_range n j ltac:(lia)) as Hj.
  rewrite length_firstn, length_skipn.
  unfold slice_len, slice_start in *. lia.
Qed.

Lemma slice_nth {A : Type} (l : list A) (i j k : Z) (d : A) :
  0 <= k < slice_len (Z.of_nat (List.length l)) i j ->
  nth (Z.to_nat k) (slice l i j) d
  = nth (Z.to_nat (slice_start (Z.of_nat (List.length l)) i j + k)) l d.
Proof.
  intros Hk. unfold slice. set (n := Z.of_nat (List.length l)) in *.
  pose proof (@slice_bound_range n i ltac:(lia)) as Hi.
  rewrite nth_firstn.
  destruct (Nat.ltb_spec (Z.to_nat k) (Z.to_nat (slice_len n i j))); [|lia].
  rewrite nth_skipn. f_equal. unfold slice_start in *. lia.
Qed.


Section Signal.

Variable T : Type.
Variable zero : T.
Variable median : list T -> T.
Variable reflect : T -> T -> T.

Lemma set_col_ok (y : matrix T) (i j c c' : Z) (vs : list T) :
  scalar_index (ncols y) c = Ret c' ->
  Z.of_nat (List.length vs) = slice_len (nrows y) i j
  \/ List.length vs = 1%nat ->
  set_col zero y i j c vs
  = Ret {| nrows := nrows y; ncols := ncols y;
           cellz := fun r k =>
             if (k =? c') && (slice_start (nrows y) i j <=? r)
                && (r <? slice_start (nrows y) i j + slice_len (nrows y) i j)
             then nth (Z.to_nat (bcast_index (Z.of_nat (List.length vs))
                                   (r - slice_start (nrows y) i j)))
                      vs zero
             else cellz y r k |}.
Proof.
  intros Hc Hv. unfold set_col. rewrite Hc. cbn [bind].
  assert (Hb : broadcastable (Z.of_nat (List.length vs))
                             (slice_len (nrows y) i j) = true).
  { unfold broadcastable. destruct Hv as [->| ->].
    - now rewrite Z.eqb_refl.
    - apply orb_true_r. }
  now rewrite Hb.
Qed.

Lemma item_ok (s : list T) (i : Z) :
  0 <= i < Z.of_nat (List.length s) -> item s i = Ret (el zero s i).
Proof.
  intros H. unfold item. rewrite scalar_index_ok by exact H. cbn [bind].
  unfold el. destruct (nth_error s (Z.to_nat i)) as [v|] eqn:E.
  - cbn. f_equal. symmetry. now apply nth_error_nth.
  - apply nth_error_None in E. lia.
Qed.

Lemma item_last (s : list T) :
  0 < Z.of_nat (List.length s) ->
  item s (-1) = Ret (el zero s (Z.of_nat (List.length s) - 1)).
Proof.
  intros H. unfold item, scalar_index.
  destruct (Z.leb_spec 0 (-1)); [lia|]. cbn [andb].
  destruct (Z.leb_spec (- Z.of_nat (List.length s)) (-1)); [|lia].
  cbn [andb Z.ltb Z.compare bind].
  replace (-1 + Z.of_nat (List.length s))
    with (Z.of_nat (List.length s) - 1) by lia.
  unfold el. destruct (nth_error s _) as [v|] eqn:E.
  - cbn. f_equal. symmetry. now apply nth_error_nth.
  - apply nth_error_None in E. lia.
Qed.

Lemma shift_step_spec (s : list T) (k2 i : Z) (y : matrix T) :
  nrows y = Z.of_nat (List.length s) ->
  ncols y = 2 * k2 + 1 ->
  0 <= i < k2 -> k2 < Z.of_nat (List.length s) ->
  exists y', shift_step zero s k2 i y = Ret y' /\ shifted zero s k2 i y y'.
Proof.
  intros Hn Hc Hi Hk.
  set (len := Z.of_nat (List.length s)) in *.
  set (j := k2 - i).
  assert (Hj : 1 <= j < len) by (unfold j; lia).
  assert (S1 : slice_start len j len = j /\ slice_len len j len = len - j).
  { unfold slice_start, slice_len, slice_bound. split; zcases; lia. }
  assert (S2 : slice_start len 0 j = 0 /\ slice_len len 0 j = j).
  { unfold slice_start, slice_len, slice_bound. split; zcases; lia. }
  assert (S3 : slice_start len 0 (- j) = 0 /\ slice_len len 0 (- j) = len - j).
  { unfold slice_start, slice_len, slice_bound. split; zcases; lia. }
  assert (S4 : slice_start len (- j) len = len - j
               /\ slice_len len (- j) len = j).
  { unfold slice_start, slice_len, slice_bound. split; zcases; lia. }
  destruct S1 as (A1 & L1), S2 as (A2 & L2), S3 as (A3 & L3), S4 as (A4 & L4).
  assert (C1 : scalar_index (ncols y) i = Ret i).
  { apply scalar_index_ok. lia. }
  assert (C2 : scalar_index (ncols y) (- (i + 1)) = Ret (ncols y - 1 - i)).
  { unfold scalar_index. rewrite Hc.
    destruct (Z.leb_spec 0 (- (i + 1))); [lia|]. cbn [andb].
    destruct (Z.leb_spec (- (2 * k2 + 1)) (- (i + 1))); [|lia].
    destruct (Z.ltb_spec (- (i + 1)) 0); [|lia]. cbn [andb]. f_equal. lia. }
  eexists. split.
  - unfold shift_step. fold j. fold len.
    erewrite set_col_ok;
      [|exact C1|left; rewrite slice_length; fold len; rewrite Hn; lia].
    cbn [bind]. rewrite item_ok by (fold len; lia). cbn [bind].
    erewrite set_col_ok; [|cbn [ncols]; exact C1|now right].
    cbn [bind nrows ncols].
    erewrite set_col_ok;
      [|cbn [ncols]; exact C2
       |left; rewrite slice_length; fold len; cbn [nrows]; rewrite Hn; lia].
    cbn [bind nrows ncols].
    rewrite item_last by (fold len; lia). cbn [bind].
    erewrite set_col_ok; [|cbn [ncols]; exact C2|now right].
    reflexivity.
  - unfold shifted. cbn [nrows ncols cellz]. fold len. fold j.
    split; [reflexivity|]. split; [reflexivity|].
    intros r c Hr. rewrite Hn, A1, L1, A2, L2, A3, L3, A4, L4.
    cbn [List.length]. unfold bcast_index.
    change (Z.of_nat 1 =? 1) with true. cbv iota.
    change (nth (Z.to_nat 0) [?v] zero) with v.
    assert (N1 : forall k, 0 <= k < len - j ->
              nth (Z.to_nat k) (slice s 0 (- j)) zero = el zero s k).
    { intros k Hk'. rewrite slice_nth by (fold len; lia). fold len.
      rewrite A3. reflexivity. }
    assert (N2 : forall k, 0 <= k < len - j ->
              nth (Z.to_nat k) (slice s j len) zero = el zero s (k + j)).
    { intros k Hk'. rewrite slice_nth by (fold len; lia). fold len.
      rewrite A1. unfold el. f_equal. lia. }
    assert (E1 : Z.of_nat (List.length (slice s 0 (- j))) = len - j).
    { rewrite slice_length. fold len. exact L3. }
    assert (E2 : Z.of_nat (List.length (slice s j len)) = len - j).
    { rewrite slice_length. fold len. exact L1. }
    rewrite E1, E2, !Z.add_0_l, Z.sub_0_r.
    replace (j + (len - j)) with len by lia.
    replace (len - j + j) with len by lia.
    assert (B1 : (0 <=? r) = true) by (apply Z.leb_le; lia).
    assert (B2 : (r <? len) = true) by (apply Z.ltb_lt; lia).
    rewrite B1, B2, !andb_true_r.
    zcases; cbn [andb]; try lia; try reflexivity;
      rewrite ?N1, ?N2 by lia; unfold el; f_equal; lia.
Qed.


Lemma columns_upto_step (s : list T) (k2 m : Z) (y y' : matrix T) :
  0 <= m < k2 ->
  columns_upto zero s k2 m y ->
  shifted zero s k2 m y y' ->
  columns_upto zero s k2 (m + 1) y'.
Proof.
  intros Hm (Hn & Hc & Hy) (Hn' & Hc' & Hy').
  split; [congruence|]. split; [congruence|].
  intros r c Hr Hcr. rewrite (Hy' r c Hr), (Hy r c Hr Hcr), Hc.
  zcases; try lia; try reflexivity; unfold el; f_equal; lia.
Qed.

Lemma loop_spec (s : list T) (k2 : Z) (y0 : matrix T) (m : nat) :
  Z.of_nat m <= k2 -> k2 < Z.of_nat (List.length s) ->
  columns_upto zero s k2 0 y0 ->
  exists y,
    foldM (shift_step zero s k2) (map Z.of_nat (seq 0 m)) y0 = Ret y
    /\ columns_upto zero s k2 (Z.of_nat m) y.
Proof.
  intros Hm Hk H0. induction m as [|m IH].
  - exists y0. split; [reflexivity|exact H0].
  - destruct IH as (y & Ey & Hy); [lia|].
    destruct Hy as (Hn & Hc & Hcells).
    destruct (@shift_step_spec s k2 (Z.of_nat m) y Hn Hc ltac:(lia) Hk)
      as (y' & Ey' & Hs).
    exists y'. split.
    + rewrite seq_S, map_app, foldM_app, Ey. cbn [bind plus map foldM].
      now rewrite Ey'.
    + replace (Z.of_nat (S m)) with (Z.of_nat m + 1) by lia.
      apply columns_upto_step with (y := y); [lia| |exact Hs].
      split; [exact Hn|]. split; [exact Hc|exact Hcells].
Qed.

Lemma window_map (s : list T) (a w : Z) :
  0 <= a -> 0 <= w -> a + w <= Z.of_nat (List.length s) ->
  map (fun k => el zero s (a + Z.of_nat k)) (seq 0 (Z.to_nat w))
  = window s a w.
Proof.
  intros Ha Hw Hl. unfold window.
  apply nth_ext with (d := zero) (d' := zero).
  - rewrite length_map, length_seq, length_firstn, length_skipn. lia.
  - intros n Hn. rewrite length_map, length_seq in Hn.
    rewrite nth_firstn.
    destruct (Nat.ltb_spec n (Z.to_nat w)); [|lia].
    rewrite nth_skipn.
    rewrite nth_indep with (d' := el zero s (a + Z.of_nat 0))
      by (rewrite length_map, length_seq; lia).
    rewrite map_nth with (f := fun k => el zero s (a + Z.of_nat k)).
    rewrite seq_nth by lia. unfold el. f_equal. lia.
Qed.

Lemma row_window (s : list T) (k2 : Z) (y : matrix T) (r : Z) :
  0 <= k2 ->
  columns_upto zero s k2 k2 y ->
  k2 <= r -> r + k2 < Z.of_nat (List.length s) ->
  row_of y r = window s (r - k2) (2 * k2 + 1).
Proof.
  intros Hk (Hn & Hc & Hy) Hr1 Hr2.
  rewrite <- window_map by lia. unfold row_of. rewrite Hc.
  apply map_ext_in. intros k Hk'. apply in_seq in Hk'.
  rewrite Hy by lia.
  zcases; try lia; unfold el; f_equal; lia.
Qed.

Lemma padded_length (x : list T) (w : Z) :
  1 <= w < Z.of_nat (List.length x) ->
  List.length (map (reflect (median (slice x 0 (Z.quot w 5))))
                   (rev_slice x w 1)) = Z.to_nat (w - 1)
  /\ Z.of_nat (List.length (padded median reflect x w))
     = Z.of_nat (List.length x) + 2 * (w - 1).
Proof.
  intros Hw.
  assert (L : List.length (rev_slice x w 1) = Z.to_nat (w - 1)).
  { unfold rev_slice, rev_bound.
    rewrite length_rev, length_firstn, length_skipn. zcases; lia. }
  assert (R : List.length (rev_slice x (-1) (- w)) = Z.to_nat (w - 1)).
  { unfold rev_slice, rev_bound.
    rewrite length_rev, length_firstn, length_skipn. zcases; lia. }
  split; [now rewrite length_map|].
  unfold padded. rewrite !length_app, !length_map, L, R. lia.
Qed.


Lemma medfilt_odd_spec (x : list T) (k2 : Z) :
  1 <= k2 -> 2 * k2 + 1 < Z.of_nat (List.length x) ->
  medfilt_odd zero median reflect x (2 * k2 + 1)
  = Ret (map (fun i => median (window (padded median reflect x (2 * k2 + 1))
                                      (Z.of_nat i + k2) (2 * k2 + 1)))
             (seq 0 (List.length x))).
Proof.
  intros Hk Hx.
  set (w := 2 * k2 + 1) in *.
  destruct (@padded_length x w ltac:(lia)) as (_ & Hl).
  unfold medfilt_odd.
  replace ((w - 1) / 2) with k2
    by (unfold w; replace (2 * k2 + 1 - 1) with (k2 * 2) by lia;
        now rewrite Z.div_mul).
  set (s := padded median reflect x w) in *.
  set (len := Z.of_nat (List.length s)) in *.
  unfold zeros.
  destruct (Z.ltb_spec len 0); [lia|].
  destruct (Z.ltb_spec w 0); [lia|]. cbn [orb bind nrows].
  erewrite set_col_ok;
    [|cbn [ncols]; apply scalar_index_ok; lia
     |left; cbn [nrows]; unfold slice_len, slice_bound; fold len; zcases; lia].
  cbn [bind nrows ncols].
  match goal with
  | |- context [foldM _ _ ?y] => set (y0 := y)
  end.
  assert (Hy0 : columns_upto zero s k2 0 y0).
  { split; [reflexivity|]. split; [reflexivity|].
    intros r c Hr Hc. unfold y0. cbn [cellz]. fold len.
    rewrite slice_start_id, slice_len_id by lia.
    unfold bcast_index.
    zcases; cbn [andb]; try lia; try reflexivity; unfold el; f_equal; lia. }
  destruct (@loop_spec s k2 y0 (Z.to_nat k2) ltac:(lia) ltac:(fold len; lia) Hy0)
    as (y & Ey & Hy).
  rewrite Ey. cbn [bind].
  rewrite Z2Nat.id in Hy by lia.
  destruct Hy as (Hn & Hc & Hcells).
  assert (Hy : columns_upto zero s k2 k2 y) by (split; [|split]; assumption).
  fold len in Hn. rewrite Hn.
  assert (A : slice_start len (w - 1) (- w + 1) = w - 1).
  { unfold slice_start, slice_bound. zcases; lia. }
  assert (L : slice_len len (w - 1) (- w + 1) = Z.of_nat (List.length x)).
  { unfold slice_len, slice_bound. zcases; lia. }
  rewrite A, L, Nat2Z.id. f_equal.
  apply map_ext_in. intros i Hi. apply in_seq in Hi. f_equal.
  rewrite (@row_window s k2 y (w - 1 + Z.of_nat i) ltac:(lia) Hy)
    by (fold len; lia).
  f_equal. lia.
Qed.

Lemma window_interior (x : list T) (k2 i : Z) :
  1 <= k2 -> 2 * k2 + 1 < Z.of_nat (List.length x) ->
  k2 <= i -> i + k2 < Z.of_nat (List.length x) ->
  window (padded median reflect x (2 * k2 + 1)) (i + k2) (2 * k2 + 1)
  = window x (i - k2) (2 * k2 + 1).
Proof.
  intros Hk Hx Hi1 Hi2.
  destruct (@padded_length x (2 * k2 + 1) ltac:(lia)) as (Hl & _).
  unfold window, padded.
  rewrite skipn_app, Hl.
  rewrite skipn_all2 by (rewrite Hl; lia).
  cbn [app].
  replace (Z.to_nat (i + k2) - Z.to_nat (2 * k2 + 1 - 1))%nat
    with (Z.to_nat (i - k2)) by lia.
  rewrite skipn_app, firstn_app, length_skipn.
  replace (Z.to_nat (2 * k2 + 1)
           - (List.length x - Z.to_nat (i - k2)))%nat with 0%nat by lia.
  cbn [firstn]. now rewrite app_nil_r.
Qed.

End Signal.

(** For an odd window of three or more samples on a signal longer than
    the window, [medfilt] prints nothing and returns one value for every
    sample of the signal: the median of the [window_len] samples of the
    padded signal centred on it.  Away from the two ends, where the
    window fits in the signal, that is the median of the samples
    [x[i-k2 : i+k2+1]] themselves. *)
Theorem medfilt_is_running_median (T : Type) (zero : T)
    (median : list T -> T) (reflect : T -> T -> T) (x : list T)
    (window_len k2 : Z) :
  window_len = 2 * k2 + 1 -> 1 <= k2 ->
  window_len < Z.of_nat (List.length x) ->
  medfilt zero median reflect x window_len
  = (Ret (map (fun i => median (window (padded median reflect x window_len)
                                       (Z.of_nat i + k2) window_len))
              (seq 0 (List.length x))),
     [])
  /\ forall i, k2 <= i -> i + k2 < Z.of_nat (List.length x) ->
       window (padded median reflect x window_len) (i + k2) window_len
       = window x (i - k2) window_len.
Proof.
  intros -> Hk Hx. split.
  - unfold medfilt.
    replace ((2 * k2 + 1) mod 2) with 1
      by (rewrite Z.add_comm, Z.mul_comm, Z.mod_add; [reflexivity|lia]).
    cbn [Z.eqb]. now rewrite medfilt_odd_spec.
  - intros i Hi1 Hi2. now apply window_interior.
Qed.

Lemma medfilt_is_running_median_witness :
  medfilt 0 ex_median ex_reflect ex_signal 3
  = (Ret (map (fun i => ex_median (window (padded ex_median ex_reflect
                                             ex_signal 3)
                                          (Z.of_nat i + 1) 3))
              (seq 0 (List.length ex_signal))),
     [])
  /\ forall i, 1 <= i -> i + 1 < Z.of_nat (List.length ex_signal) ->
       window (padded ex_median ex_reflect ex_signal 3) (i + 1) 3
       = window ex_signal (i - 1) 3.
Proof.
  apply (@medfilt_is_running_median Z 0 ex_median ex_reflect ex_signal 3 1);
    [reflexivity|lia|cbn; lia].
Defined.


Section Degenerate.

Variable T : Type.
Variable zero : T.
Variable median : list T -> T.
Variable reflect : T -> T -> T.

Lemma medfilt_odd_one (x : list T) :
  medfilt_odd zero median reflect x 1 = Ret [].
Proof.
  unfold medfilt_odd.
  assert (Hs : padded median reflect x 1 = x).
  { unfold padded, rev_slice. rewrite !Z.sub_diag. cbn [Z.to_nat firstn rev map].
    cbn [app]. apply app_nil_r. }
  rewrite Hs. change ((1 - 1) / 2) with 0.
  unfold zeros.
  destruct (Z.ltb_spec (Z.of_nat (List.length x)) 0); [lia|].
  cbn [orb Z.ltb Z.compare bind nrows].
  erewrite set_col_ok;
    [|reflexivity
     |left; cbn [nrows]; rewrite slice_len_id by lia; lia].
  cbn [bind Z.to_nat seq map foldM nrows].
  unfold slice_len, slice_bound. cbn [Z.sub Z.opp Z.add Z.pos_sub Z.ltb Z.compare].
  rewrite Z.sub_diag. reflexivity.
Qed.

Lemma medfilt_odd_empty (k2 : Z) :
  1 <= k2 -> medfilt_odd zero median reflect [] (2 * k2 + 1) = Raise IndexError.
Proof.
  intros Hk. unfold medfilt_odd.
  replace ((2 * k2 + 1 - 1) / 2) with k2
    by (replace (2 * k2 + 1 - 1) with (k2 * 2) by lia; now rewrite Z.div_mul).
  assert (Hs : padded median reflect [] (2 * k2 + 1) = []).
  { unfold padded, rev_slice. now rewrite !skipn_nil, !firstn_nil. }
  rewrite Hs. unfold zeros. cbn [List.length Z.of_nat Z.ltb Z.compare].
  destruct (Z.ltb_spec (2 * k2 + 1) 0); [lia|]. cbn [orb bind nrows].
  erewrite set_col_ok;
    [|cbn [ncols]; apply scalar_index_ok; lia|left; reflexivity].
  cbn [bind nrows ncols].
  destruct (Z.to_nat k2) as [|n] eqn:En; [lia|].
  cbn [seq map foldM Z.of_nat]. unfold shift_step at 1.
  erewrite set_col_ok;
    [|cbn [ncols]; apply scalar_index_ok; lia
     |left; cbn [nrows]; rewrite slice_length; cbn [List.length Z.of_nat];
      unfold slice_len, slice_bound; zcases; lia].
  reflexivity.
Qed.

Lemma medfilt_odd_negative (x : list T) (w : Z) :
  w < 0 -> medfilt_odd zero median reflect x w = Raise ValueError.
Proof.
  intros Hw. unfold medfilt_odd, zeros.
  destruct (Z.ltb_spec w 0); [|lia]. now rewrite orb_true_r.
Qed.

End Degenerate.

(** Calls that give no filtered signal.  A window of one sample, or of
    none (which is made 1), returns an empty array for every signal,
    and not the signal itself; an empty signal with a window of three or
    more raises [IndexError] at [s[0]]; a negative window raises
    [ValueError] at [np.zeros]. *)
Theorem medfilt_degenerate_calls (T : Type) (zero : T)
    (median : list T -> T) (reflect : T -> T -> T) (x : list T) :
  medfilt zero median reflect x 1 = (Ret [], [])
  /\ medfilt zero median reflect x 0 = (Ret [], [MustBeOdd 0])
  /\ (forall k2, 1 <= k2 ->
        medfilt zero median reflect [] (2 * k2 + 1) = (Raise IndexError, []))
  /\ (forall w, w < 0 ->
        fst (medfilt zero median reflect x w) = Raise ValueError).
Proof.
  split; [|split; [|split]].
  - unfold medfilt. cbn [Z.modulo Z.div_eucl Z.pos_div_eucl Z.eqb].
    now rewrite medfilt_odd_one.
  - unfold medfilt. cbn [Z.modulo Z.div_eucl Z.eqb Z.add].
    now rewrite medfilt_odd_one.
  - intros k2 Hk. unfold medfilt.
    replace ((2 * k2 + 1) mod 2) with 1
      by (rewrite Z.add_comm, Z.mul_comm, Z.mod_add; [reflexivity|lia]).
    cbn [Z.eqb]. now rewrite medfilt_odd_empty.
  - intros w Hw. unfold medfilt.
    destruct (w mod 2 =? 0) eqn:E; cbn [fst].
    + apply medfilt_odd_negative. apply Z.eqb_eq in E.
      assert (w <> -1) by (intros ->; discriminate). lia.
    + now apply medfilt_odd_negative.
Qed.

End MedfiltProofs.
